(** * Verification of the VNode diff engine and journal applier

    Shallow embedding of [vnode_diff], [vnode_applyJournal] and
    [shallowEqual] (e2e-isolated/utils/index.ts).  The tree primitives,
    the markers and the component executor are imported by the source
    from modules outside this file; they form the interface
    [VNodeApi] below and get a reference implementation in
    [Module SpecTree]. *)

From Stdlib Require Import ZArith String List Bool Lia.
From stdpp Require Import base option list gmap strings sorting pretty.

Import ListNotations.
Local Open Scope string_scope.
Local Open Scope list_scope.

(** ** JavaScript values *)

(** Leaf values.  [ARef] stands for any object or function that the
    engine only ever compares by identity.  Numbers are the integers:
    fractions, NaN and the infinities are outside the model.  Strings
    are strings of characters below U+0100, on which the order of
    [String.ltb] is the order of [<]. *)
Inductive Atom : Type :=
| AUndefined
| ANull
| ABool (b : bool)
| ANum (n : Z)
| AStr (s : string)
| ARef (r : nat).

#[global] Instance Atom_eq_dec : EqDecision Atom.
Proof. solve_decision. Defined.

(** A props object, [Record<string, any>]. *)
Abbreviation Props := (gmap string Atom).

(** What a VNode property slot or a journal slot can hold: a leaf, a
    QRL (of which the engine reads [$hash$] only) or a props object.
    A [VQrl] or a [VProps] stands for one object: two of them with the
    same content are the same object to [===]. *)
Inductive Value : Type :=
| VAtom (a : Atom)
| VQrl (hash : string)
| VProps (p : Props).

#[global] Instance Value_eq_dec : EqDecision Value.
Proof. solve_decision. Defined.

Coercion VAtom : Atom >-> Value.

Definition VNodeId := nat.

(** An element of a heterogeneous array ([any[]]): the journal and the
    sibling side table hold both plain values and VNodes. *)
Inductive JsAny : Type :=
| EVal (v : Value)
| ENode (n : VNodeId).

#[global] Instance JsAny_eq_dec : EqDecision JsAny.
Proof. solve_decision. Defined.

(** [a === b] and [a !== b]. *)
Definition strict_eq (a b : Value) : bool := bool_decide (a = b).
Definition strict_ne (a b : Value) : bool := negb (strict_eq a b).

(** [v == null]: true of [null] and [undefined]. *)
Definition is_nullish (v : Value) : bool :=
  match v with
  | VAtom ANull | VAtom AUndefined => true
  | _ => false
  end.

(** The local [jsxKey] of [expectElement]: declared without initialiser
    (so [undefined]) and assigned from [jsx.key : string | null]. *)
Inductive JsKey : Type :=
| KUndefined
| KNull
| KStr (s : string).

Definition key_of_option (k : option string) : JsKey :=
  match k with
  | Some s => KStr s
  | None => KNull
  end.

(** [key == v] where [v] is what [vnode_getProp<string>] returned
    ([string | null] by its signature). *)
Definition key_loose_eq (k : JsKey) (v : Value) : bool :=
  match k, v with
  | (KUndefined | KNull), _ => is_nullish v
  | KStr s, VAtom (AStr s') => String.eqb s s'
  | KStr _, _ => false
  end.

(** [s.startsWith(p)] and [s.endsWith(p)]. *)
Fixpoint startsWith (s p : string) : bool :=
  match p, s with
  | EmptyString, _ => true
  | String c p', String d s' => Ascii.eqb c d && startsWith s' p'
  | String _ _, EmptyString => false
  end.

Definition endsWith (s p : string) : bool :=
  startsWith (String.rev s) (String.rev p).

(** [String(n)] for an integer [n] that JavaScript prints in full,
    which it does below 10^21 in absolute value; from there on
    [String(n)] is in exponent form and outside the model. *)
Definition String_of_number (n : Z) : string := pretty n.

(** ** Descriptors (JSX values) *)

Record QRL : Type := mkQRL { qrl_hash : string }.

(** [jsx.type]: a tag name, the [Fragment] or [Slot] marker, a Qwik
    component (whose [SERIALIZABLE_STATE] holds its QRL), or anything
    else. *)
Inductive NodeType : Type :=
| TTag (tag : string)
| TFragment
| TSlot
| TComponent (componentQRL : QRL)
| TOther.

#[local] Set Warnings "-register-all".

(** Anything that can stand in a child position.  [attrs = None] is
    the shared [EMPTY_ARRAY] sentinel. *)
Inductive JSX : Type :=
| JString (s : string)
| JNumber (n : Z)
| JUndefined
| JBoolean (b : bool)
| JFunction
| JNull
| JArray (items : list JSX)
| JSignal
| JNode (type : NodeType) (props : Props) (key : option string)
        (children : JSX) (attrs : option (list Value))
| JObject.

(** [ValueOrPromise<JSXNode>]: a promise is modelled by what it settles
    to.  When it settles is not modelled: see [drainAsyncQueue]. *)
Inductive ValueOrPromise : Type :=
| Now (jsx : JSX)
| Resolves (jsx : JSX)
| Rejects.

(** ** Journal opcodes *)

Inductive VNodeJournalOpCode : Type :=
| Insert | Truncate | Remove | Move | TextSet | ElementInsert | Attributes
| FragmentInsert.

(** Numbering of the [const enum]. *)
Definition opcode_num (op : VNodeJournalOpCode) : Z :=
  match op with
  | Insert => 0 | Truncate => 1 | Remove => 2 | Move => 3 | TextSet => 4
  | ElementInsert => 5 | Attributes => 6 | FragmentInsert => 7
  end.

Definition opcode_of_num (n : Z) : option VNodeJournalOpCode :=
  match n with
  | 0 => Some Insert | 1 => Some Truncate | 2 => Some Remove | 3 => Some Move
  | 4 => Some TextSet | 5 => Some ElementInsert | 6 => Some Attributes
  | 7 => Some FragmentInsert | _ => None
  end%Z.

Definition EOp (op : VNodeJournalOpCode) : JsAny := EVal (ANum (opcode_num op)).
Definition EStr (s : string) : JsAny := EVal (AStr s).
Definition ENull : JsAny := EVal ANull.

(** [vCurrent] pushed as an operand: a VNode or [null]. *)
Definition ENodeOrNull (o : option VNodeId) : JsAny :=
  match o with
  | Some n => ENode n
  | None => ENull
  end.

(** ** Errors and outcomes *)

Inductive Error : Type :=
| ErrImplement                      (* throw new Error('implement') *)
| ErrSlot                           (* throw new Error('IMPLEMENT') *)
| ErrUnsupportedType (t : NodeType) (* throwErrorAndStop(`Unsupported type: ...`) *)
| ErrUnsupportedValue (v : JSX)     (* throwErrorAndStop(`Unsupported value: ...`) *)
| ErrUnsupportedOpCode (e : JsAny)  (* throwErrorAndStop(`Unsupported opCode: ...`) *)
| ErrAssert (msg : string)          (* assertDefined / assertFalse / assertTrue *)
| ErrTypeError (msg : string)       (* property read of null, Object.keys(null) *)
| ErrRejected.                      (* a rejected expansion promise *)

(** Every outcome carries the state reached, so that what an abort
    leaves behind can be stated. *)
Inductive Outcome (S A : Type) : Type :=
| Ok (a : A) (s : S)
| Throw (e : Error) (s : S)
| OutOfFuel (s : S).

Arguments Ok {S A} a s.
Arguments Throw {S A} e s.
Arguments OutOfFuel {S A} s.

Definition outcome_state {S A} (o : Outcome S A) : S :=
  match o with
  | Ok _ s | Throw _ s | OutOfFuel s => s
  end.

Definition M (S A : Type) : Type := S -> Outcome S A.

Definition ret {S A} (a : A) : M S A := fun s => Ok a s.

Definition bind {S A B} (m : M S A) (k : A -> M S B) : M S B :=
  fun s =>
    match m s with
    | Ok a s' => k a s'
    | Throw e s' => Throw e s'
    | OutOfFuel s' => OutOfFuel s'
    end.

Definition throw {S A} (e : Error) : M S A := fun s => Throw e s.
Definition gets {S A} (f : S -> A) : M S A := fun s => Ok (f s) s.
Definition modify {S} (f : S -> S) : M S unit := fun s => Ok tt (f s).

Declare Scope diff_scope.
Delimit Scope diff_scope with diff.
Notation "'let*' x ':=' m 'in' k" := (bind m (fun x => k))
  (at level 10, x pattern, m at level 100, k at level 200) : diff_scope.
Notation "m '>>' k" := (bind m (fun _ => k))
  (at level 62, right associativity) : diff_scope.

(** ** The external interface

    Everything [vnode_diff] and [vnode_applyJournal] import: the
    markers (util/markers), the tree primitives (./vnode), the document
    factory and resolver of the container, and the component executor
    (shared/component-execution).  [T] is the state they work on: the
    VNodes together with the DOM nodes behind them.

    [vnode_attrs t v] is the part of the array [v] from
    [ElementVNodeProps.PROPS_OFFSET] on, which [setBulkProps] reads
    directly ([const dstAttrs = vnode as SsrAttrs]); indices into it are
    relative to that offset. *)

Definition DomNode := nat.
Definition Resolver := string -> Value.

Class VNodeApi (T : Type) : Type := {
  ELEMENT_KEY : string;
  ELEMENT_PROPS : string;
  OnRenderProp : string;
  getObjectById : Resolver;
  document_createElement : T -> string -> DomNode * T;
  document_createTextNode : T -> string -> DomNode * T;
  vnode_getFirstChild : T -> VNodeId -> option VNodeId;
  vnode_getNextSibling : T -> VNodeId -> option VNodeId;
  vnode_getType : T -> VNodeId -> Z;
  vnode_isElementVNode : T -> VNodeId -> bool;
  vnode_isVirtualVNode : T -> VNodeId -> bool;
  vnode_getElementName : T -> VNodeId -> string;
  vnode_getText : T -> VNodeId -> string;
  vnode_getProp : T -> VNodeId -> string -> option Resolver -> Value;
  vnode_getNode : T -> VNodeId -> DomNode;
  vnode_attrs : T -> VNodeId -> list Value;
  vnode_ensureElementInflated : T -> VNodeId -> T;
  vnode_newElement : T -> VNodeId -> DomNode -> string -> VNodeId * T;
  vnode_newText : T -> VNodeId -> DomNode -> string -> VNodeId * T;
  vnode_newVirtual : T -> VNodeId -> VNodeId * T;
  vnode_setProp : T -> VNodeId -> string -> Value -> T;
  vnode_setAttr : T -> VNodeId -> string -> Value -> T;
  vnode_setText : T -> VNodeId -> string -> T;
  vnode_insertBefore : T -> VNodeId -> VNodeId -> option VNodeId -> T;
  vnode_remove : T -> VNodeId -> VNodeId -> bool -> T;
  vnode_truncate : T -> VNodeId -> VNodeId -> T;
  mapArray_set : list Value -> string -> Value -> nat -> list Value;
  executeComponent2 : T -> VNodeId -> QRL -> Props -> ValueOrPromise * T;
  (* [element.qDispatchEvent], read and written by [setBulkProps]. *)
  elem_qDispatchEvent : T -> DomNode -> bool;
  elem_set_qDispatchEvent : T -> DomNode -> VNodeId -> T
}.

(** ** Traversal state *)

(** The four descriptor-side variables, as [stackPush] saves them. *)
Record JsxCursor : Type := mkJsxCursor {
  jsxChildren : option (list JSX);
  jsxIdx : nat;
  jsxCount : nat;
  jsxValue : JSX
}.

(** The five tree-side variables, as [stackPush] saves them when
    [descendVNode] is true. *)
Record VCursor : Type := mkVCursor {
  vParent : VNodeId;
  vCurrent : option VNodeId;
  vNewNode : option VNodeId;
  vSiblings : option (list JsAny);
  vSiblingsIdx : Z
}.

(** One [stackPush]: the flat run
    [jsxChildren, jsxIdx, jsxCount, jsxValue,
     (vParent, vCurrent, vNewNode, vSiblings, vSiblingsIdx,) descendVNode]
    grouped by its final flag. *)
Inductive Frame : Type :=
| FrameArray (j : JsxCursor)               (* descendVNode = false *)
| FrameVNode (j : JsxCursor) (v : VCursor). (* descendVNode = true *)

Definition descendVNode_of (f : Frame) : bool :=
  match f with
  | FrameArray _ => false
  | FrameVNode _ _ => true
  end.

Record DiffState (T : Type) : Type := mkDiffState {
  heap : T;
  journal : list JsAny;
  stack : list Frame;
  (* [asyncQueue.push(jsx, host)]: kept as pairs *)
  asyncQueue : list (ValueOrPromise * VNodeId);
  jc : JsxCursor;
  vc : VCursor
}.

Arguments mkDiffState {T}.
Arguments heap {T}.
Arguments journal {T}.
Arguments stack {T}.
Arguments asyncQueue {T}.
Arguments jc {T}.
Arguments vc {T}.

Section Setters.
Context {T : Type}.
Implicit Type st : DiffState T.

Definition set_heap (h : T) st : DiffState T :=
  mkDiffState h (journal st) (stack st) (asyncQueue st) (jc st) (vc st).
Definition set_journal (j : list JsAny) st : DiffState T :=
  mkDiffState (heap st) j (stack st) (asyncQueue st) (jc st) (vc st).
Definition set_stack (s : list Frame) st : DiffState T :=
  mkDiffState (heap st) (journal st) s (asyncQueue st) (jc st) (vc st).
Definition set_asyncQueue (q : list (ValueOrPromise * VNodeId)) st : DiffState T :=
  mkDiffState (heap st) (journal st) (stack st) q (jc st) (vc st).
Definition set_jc (j : JsxCursor) st : DiffState T :=
  mkDiffState (heap st) (journal st) (stack st) (asyncQueue st) j (vc st).
Definition set_vc (v : VCursor) st : DiffState T :=
  mkDiffState (heap st) (journal st) (stack st) (asyncQueue st) (jc st) v.

(** [journal.push(...)] *)
Definition journal_push (es : list JsAny) st : DiffState T :=
  set_journal (journal st ++ es) st.

Definition set_vParent (p : VNodeId) st :=
  set_vc (mkVCursor p (vCurrent (vc st)) (vNewNode (vc st))
                    (vSiblings (vc st)) (vSiblingsIdx (vc st))) st.
Definition set_vCurrent (c : option VNodeId) st :=
  set_vc (mkVCursor (vParent (vc st)) c (vNewNode (vc st))
                    (vSiblings (vc st)) (vSiblingsIdx (vc st))) st.
Definition set_vNewNode (n : option VNodeId) st :=
  set_vc (mkVCursor (vParent (vc st)) (vCurrent (vc st)) n
                    (vSiblings (vc st)) (vSiblingsIdx (vc st))) st.
Definition set_vSiblings (s : option (list JsAny)) st :=
  set_vc (mkVCursor (vParent (vc st)) (vCurrent (vc st)) (vNewNode (vc st))
                    s (vSiblingsIdx (vc st))) st.
Definition set_vSiblingsIdx (i : Z) st :=
  set_vc (mkVCursor (vParent (vc st)) (vCurrent (vc st)) (vNewNode (vc st))
                    (vSiblings (vc st)) i) st.
Definition set_jsxIdx (i : nat) st :=
  set_jc (mkJsxCursor (jsxChildren (jc st)) i (jsxCount (jc st))
                      (jsxValue (jc st))) st.
Definition set_jsxValue (v : JSX) st :=
  set_jc (mkJsxCursor (jsxChildren (jc st)) (jsxIdx (jc st))
                      (jsxCount (jc st)) v) st.
End Setters.

(** [arr[i]] for a possibly negative index. *)
Definition arr_get {A} (l : list A) (i : Z) : option A :=
  if (i <? 0)%Z then None else l !! Z.to_nat i.

(** ** [shallowEqual] *)

(** The order of [Array.prototype.sort()] on strings. *)
Definition str_le (a b : string) : Prop := String.leb a b = true.

#[global] Instance str_le_dec a b : Decision (str_le a b).
Proof. unfold str_le. apply _. Defined.

(** [Object.keys(o)] and [Object.keys(o).sort()]. *)
Definition Object_keys (o : Props) : list string := (map_to_list o).*1.
Definition sorted_keys (o : Props) : list string :=
  merge_sort str_le (Object_keys o).

(** [o[k]] *)
Definition prop_get (o : Props) (k : string) : Atom :=
  default AUndefined (o !! k).

(** The [for] loop of [shallowEqual]: [srcKeys] are the keys from
    [idx] on, [dstKeys] likewise; [dstKeys[idx]] past the end is
    [undefined], which no key equals. *)
Fixpoint shallowEqual_loop (src dst : Props) (srcKeys dstKeys : list string)
  : bool :=
  match srcKeys with
  | [] => true
  | srcKey :: srcKeys' =>
      match dstKeys with
      | [] => false
      | dstKey :: dstKeys' =>
          if negb (String.eqb srcKey dstKey)
             || negb (bool_decide (prop_get src srcKey = prop_get dst dstKey))
          then false
          else shallowEqual_loop src dst srcKeys' dstKeys'
      end
  end.

Definition shallowEqual (src dst : Props) : bool :=
  let srcKeys := Object_keys src in
  let dstKeys := Object_keys dst in
  if negb (Nat.eqb (length srcKeys) (length dstKeys)) then false
  else shallowEqual_loop src dst (sorted_keys src) (sorted_keys dst).

(** ** Attribute lists

    An [SsrAttrs] array is flat: key, value, key, value, ...  A key
    slot holds a string or [null]. *)

Definition as_key (v : option Value) : option string :=
  match v with
  | Some (VAtom (AStr s)) => Some s
  | _ => None
  end.

(** [idx < length ? attrs[idx++] : null], with the new [idx]. *)
Definition read_key (attrs : list Value) (idx : nat) : option string * nat :=
  if Nat.ltb idx (length attrs) then (as_key (attrs !! idx), S idx)
  else (None, idx).

(** [attrs[idx]] in a value position. *)
Definition read_value (attrs : list Value) (idx : nat) : Value :=
  default (VAtom AUndefined) (attrs !! idx).

(** The locals of [setBulkProps], with the journal it pushes to. *)
Record BulkState : Type := mkBulk {
  b_journal : list JsAny;
  hasDiffs : bool;
  srcIdx : nat;
  dstIdx : nat;
  srcKey : option string;
  dstKey : option string;
  patchEventDispatch : bool
}.

(** The closure [record] of [setBulkProps]. *)
Definition record (vnode : VNodeId) (key : string) (value : Value)
    (b : BulkState) : BulkState :=
  let j := if hasDiffs b then b_journal b
           else b_journal b ++ [EOp Attributes; ENode vnode] in
  mkBulk (j ++ [EStr key; EVal value]) true (srcIdx b) (dstIdx b)
         (srcKey b) (dstKey b) (patchEventDispatch b).

Definition set_patch (b : BulkState) : BulkState :=
  mkBulk (b_journal b) (hasDiffs b) (srcIdx b) (dstIdx b)
         (srcKey b) (dstKey b) true.

(** [srcKey = srcIdx < srcLength ? srcAttrs[srcIdx++] : null] after
    [skip] value slots have been passed over. *)
Definition next_src (srcAttrs : list Value) (skip : nat) (b : BulkState)
  : BulkState :=
  let '(k, i) := read_key srcAttrs (srcIdx b + skip) in
  mkBulk (b_journal b) (hasDiffs b) i (dstIdx b) k (dstKey b)
         (patchEventDispatch b).

Definition next_dst (dstAttrs : list Value) (skip : nat) (b : BulkState)
  : BulkState :=
  let '(k, i) := read_key dstAttrs (dstIdx b + skip) in
  mkBulk (b_journal b) (hasDiffs b) (srcIdx b) i (srcKey b) k
         (patchEventDispatch b).

(** A key shaped like an event handler: [onClick$]. *)
Definition isEventKey (key : string) : bool :=
  startsWith key "on" && endsWith key "$".

(** The [while] loop of [setBulkProps]. *)
Fixpoint setBulkProps_loop (fuel : nat) (vnode : VNodeId)
    (srcAttrs dstAttrs : list Value) (b : BulkState)
  : Outcome BulkState unit :=
  match srcKey b, dstKey b with
  | None, None => Ok tt b
  | sk, dk =>
      match fuel with
      | O => OutOfFuel b
      | S fuel' =>
          let b' :=
            match sk, dk with
            | None, None => b
            | None, Some dstK =>
                (* the new list is used up: remove what is left *)
                let b := if startsWith dstK "on:" then set_patch b
                         else record vnode dstK ANull b in
                next_dst dstAttrs 1 b
            | Some srcK, None =>
                (* the existing list is used up: insert what is left *)
                let b := if isEventKey srcK then set_patch b else b in
                let b := record vnode srcK (read_value srcAttrs (srcIdx b)) b in
                next_src srcAttrs 1 b
            | Some srcK, Some dstK =>
                if String.eqb srcK dstK then
                  let srcValue := read_value srcAttrs (srcIdx b) in
                  let dstValue := read_value dstAttrs (dstIdx b) in
                  let b := if strict_ne srcValue dstValue
                           then record vnode dstK srcValue b else b in
                  next_dst dstAttrs 1 (next_src srcAttrs 1 b)
                else if String.ltb srcK dstK then
                  let srcValue := read_value srcAttrs (srcIdx b) in
                  next_src srcAttrs 1 (record vnode srcK srcValue b)
                else
                  next_dst dstAttrs 1 (record vnode dstK ANull b)
            end in
          setBulkProps_loop fuel' vnode srcAttrs dstAttrs b'
      end
  end.

(** [vNodeQrl?.$hash$] *)
Definition hash_of (v : Value) : option string :=
  match v with
  | VQrl h => Some h
  | _ => None
  end.

(** ** The diff engine *)

Section Diff.
Context {T : Type} `{api : VNodeApi T}.

Local Open Scope diff_scope.

Abbreviation State := (DiffState T).
Abbreviation Op := (M (DiffState T) unit).

(** [assertFalse(vParent === vCurrent, ...)] *)
Definition assert_parent_not_current : Op := fun st =>
  if bool_decide (vCurrent (vc st) = Some (vParent (vc st)))
  then Throw (ErrAssert "Parent and current can't be the same") st
  else Ok tt st.

(** *** Stack *)

Definition stackPush (children : JSX) (descendVNode : bool) (st : State)
  : State :=
  let frame := if descendVNode then FrameVNode (jc st) (vc st)
               else FrameArray (jc st) in
  let st := set_stack (frame :: stack st) st in
  match children with
  | JArray items =>
      set_jc (mkJsxCursor (Some items) 0 (length items)
                (match items with x :: _ => x | [] => JNull end)) st
  | JUndefined => set_jc (mkJsxCursor None 0 0 JNull) st
  | _ => set_jc (mkJsxCursor None 0 1 children) st
  end.

(** The second half of [advance]: moving the tree cursor.  A slot of
    [vSiblings] that holds no VNode reads as [null]. *)
Definition advance_cursor (st : State) : State :=
  match vNewNode (vc st) with
  | Some _ => set_vNewNode None st
  | None =>
      match vSiblings (vc st) with
      | Some sibs =>
          let idx := (vSiblingsIdx (vc st) + 2)%Z in
          let st := set_vSiblingsIdx idx st in
          let cur :=
            if (idx <? Z.of_nat (length sibs))%Z then
              match arr_get sibs (idx + 1) with
              | Some (ENode n) => Some n
              | _ => None
              end
            else None in
          set_vCurrent cur st
      | None =>
          set_vCurrent
            (match vCurrent (vc st) with
             | Some c => vnode_getNextSibling (heap st) c
             | None => None
             end) st
      end
  end.

(** [advance], by recursion on the stack it may pop.  [stk] is the
    stack of [st].  When the descriptor list is exhausted and the top
    frame was pushed with [descendVNode === false], [advance] returns
    [ascend()], which pops that frame and advances again. *)
Fixpoint advance_on (stk : list Frame) (st : State)
  : Outcome State unit :=
  let idx := S (jsxIdx (jc st)) in
  let st := set_jsxIdx idx st in
  if Nat.ltb idx (jsxCount (jc st)) then
    match jsxChildren (jc st) with
    | Some items =>
        Ok tt (advance_cursor
                 (set_stack stk (set_jsxValue (nth idx items JUndefined) st)))
    | None => Throw (ErrTypeError "jsxChildren is null") (set_stack stk st)
    end
  else
    match stk with
    | FrameArray j :: rest => advance_on rest (set_jc j st)
    | _ => Ok tt (advance_cursor (set_stack stk st))
    end.

Definition advance : Op := fun st => advance_on (stack st) st.

(** [ascend].  Popping an empty stack yields [undefined] for every
    variable; the loops only call [ascend] on a non-empty stack. *)
Definition ascend : Op := fun st =>
  match stack st with
  | FrameVNode j v :: rest => advance (set_stack rest (set_jc j (set_vc v st)))
  | FrameArray j :: rest => advance (set_stack rest (set_jc j st))
  | [] => advance (set_jc (mkJsxCursor None 0 0 JUndefined) st)
  end.

Definition descend (children : JSX) (descendVNode : bool) : Op := fun st =>
  let st := stackPush children descendVNode st in
  if descendVNode then
    match vNewNode (vc st), vCurrent (vc st) with
    | None, None =>
        Throw (ErrAssert "Expecting vCurrent to be defined.") st
    | Some p, _ | None, Some p =>
        Ok tt (set_vc (mkVCursor p (vnode_getFirstChild (heap st) p)
                         None None (-1)) st)
    end
  else Ok tt st.

Definition getInsertBefore (st : State) : option VNodeId :=
  match vNewNode (vc st) with
  | Some _ => vCurrent (vc st)
  | None =>
      match vSiblings (vc st) with
      | Some sibs =>
          let nextIdx := (vSiblingsIdx (vc st) + 3)%Z in
          if (nextIdx <? Z.of_nat (length sibs))%Z then
            match arr_get sibs nextIdx with
            | Some (ENode n) => Some n
            | _ => None
            end
          else None
      | None =>
          match vCurrent (vc st) with
          | Some c => vnode_getNextSibling (heap st) c
          | None => None
          end
      end
  end.

(** *** Expectations *)

Definition expectNoMore : Op := fun st =>
  (assert_parent_not_current >>
   fun st =>
     match vCurrent (vc st) with
     | Some c =>
         Ok tt (journal_push [EOp Truncate; ENode (vParent (vc st)); ENode c] st)
     | None => Ok tt st
     end) st.

Fixpoint expectNoMoreTextNodes (fuel : nat) : Op := fun st =>
  match vCurrent (vc st) with
  | Some c =>
      if (vnode_getType (heap st) c =? 3)%Z then
        match fuel with
        | O => OutOfFuel st
        | S fuel' =>
            let st := journal_push
                        [EOp Remove; ENode (vParent (vc st)); ENode c] st in
            expectNoMoreTextNodes fuel'
              (set_vCurrent (vnode_getNextSibling (heap st) c) st)
        end
      else Ok tt st
  | None => Ok tt st
  end.

Definition expectText (text : string) : Op := fun st =>
  let insert (st : State) :=
    let '(dom, h) := document_createTextNode (heap st) text in
    let '(n, h) := vnode_newText h (vParent (vc st)) dom text in
    Ok tt (journal_push
             [EOp Insert; ENode (vParent (vc st)); ENode n;
              ENodeOrNull (vCurrent (vc st))] (set_heap h st)) in
  match vCurrent (vc st) with
  | Some c =>
      if (vnode_getType (heap st) c =? 3)%Z then
        if negb (String.eqb text (vnode_getText (heap st) c)) then
          Ok tt (journal_push [EOp TextSet; ENode c; EStr text] st)
        else Ok tt st
      else insert st
  | None => insert st
  end.

Definition expectVirtual : Op := fun st =>
  match vCurrent (vc st) with
  | Some c =>
      if vnode_isVirtualVNode (heap st) c then Ok tt st
      else
        let '(n, h) := vnode_newVirtual (heap st) (vParent (vc st)) in
        let st := set_vNewNode (Some n) (set_heap h st) in
        Ok tt (journal_push
                 [EOp Insert; ENode (vParent (vc st)); ENode n;
                  ENodeOrNull (getInsertBefore st)] st)
  | None =>
      let '(n, h) := vnode_newVirtual (heap st) (vParent (vc st)) in
      let st := set_vNewNode (Some n) (set_heap h st) in
      Ok tt (journal_push
               [EOp Insert; ENode (vParent (vc st)); ENode n; ENull] st)
  end.

Definition expectSlot : Op := throw ErrSlot.

(** *** Elements *)

Definition setBulkProps (fuel : nat) (vnode : VNodeId)
    (srcAttrs : list Value) : Op := fun st =>
  let h := vnode_ensureElementInflated (heap st) vnode in
  let dstAttrs := vnode_attrs h vnode in
  let '(srcK, srcI) := read_key srcAttrs 0 in
  let '(dstK, dstI) := read_key dstAttrs 0 in
  let b0 := mkBulk (journal st) false srcI dstI srcK dstK false in
  match setBulkProps_loop fuel vnode srcAttrs dstAttrs b0 with
  | OutOfFuel b => OutOfFuel (set_journal (b_journal b) (set_heap h st))
  | Throw e b => Throw e (set_journal (b_journal b) (set_heap h st))
  | Ok _ b =>
      let st := set_journal (b_journal b) (set_heap h st) in
      if patchEventDispatch b then
        let element := vnode_getNode (heap st) vnode in
        if negb (elem_qDispatchEvent (heap st) element) then
          Ok tt (set_heap (elem_set_qDispatchEvent (heap st) element vnode) st)
        else Ok tt st
      else Ok tt st
  end.

(** The materialising [while] loop of [retrieveChildWithKey]. *)
Fixpoint materialize (fuel : nat) (h : T) (key : JsKey)
    (vNode : option VNodeId) (vNodeWithKey : option VNodeId)
    (sibs : list JsAny) : option (option VNodeId * list JsAny) :=
  match vNode with
  | None => Some (vNodeWithKey, sibs)
  | Some n =>
      match fuel with
      | O => None
      | S fuel' =>
          let vKey := vnode_getProp h n ELEMENT_KEY None in
          if match vNodeWithKey with None => true | Some _ => false end
             && key_loose_eq key vKey
          then materialize fuel' h key (vnode_getNextSibling h n) (Some n) sibs
          else materialize fuel' h key (vnode_getNextSibling h n)
                 vNodeWithKey (sibs ++ [EVal vKey; ENode n])
      end
  end.

(** [vKey == key] for a slot of [vSiblings]; a slot past the end
    reads [undefined], a VNode never equals a key. *)
Definition slot_matches (key : JsKey) (slot : option JsAny) : bool :=
  match slot with
  | Some (EVal v) => key_loose_eq key v
  | Some (ENode _) => false
  | None => key_loose_eq key AUndefined
  end.

(** The [for] loop of [retrieveChildWithKey], with its [splice]. *)
Fixpoint search_siblings (fuel : nat) (key : JsKey) (sibs : list JsAny)
    (idx : Z) : option VNodeId * list JsAny :=
  match fuel with
  | O => (None, sibs)
  | S fuel' =>
      if (idx <? Z.of_nat (length sibs))%Z then
        if slot_matches key (arr_get sibs idx) then
          (match arr_get sibs (idx + 1) with
           | Some (ENode n) => Some n
           | _ => None
           end,
           take (Z.to_nat idx) sibs ++ drop (Z.to_nat idx + 2) sibs)
        else search_siblings fuel' key sibs (idx + 2)
      else (None, sibs)
  end.

Definition retrieveChildWithKey (fuel : nat) (key : JsKey)
  : M State (option VNodeId) := fun st =>
  if (vSiblingsIdx (vc st) =? -1)%Z then
    match materialize fuel (heap st) key (vCurrent (vc st)) None [] with
    | None => OutOfFuel (set_vSiblingsIdx 0 (set_vSiblings (Some []) st))
    | Some (found, sibs) =>
        Ok found (set_vSiblingsIdx 0 (set_vSiblings (Some sibs) st))
    end
  else
    match vSiblings (vc st) with
    | None => Throw (ErrTypeError "vSiblings is null") st
    | Some sibs =>
        let idx := vSiblingsIdx (vc st) in
        let '(found, sibs') :=
          search_siblings (Z.to_nat (Z.of_nat (length sibs) - idx))
                          key sibs idx in
        Ok found (set_vSiblings (Some sibs') st)
    end.

(** The attribute list [expectElement] hands to [setBulkProps]:
    [jsx.attrs] if it is not the [EMPTY_ARRAY] sentinel, otherwise
    built from [jsx.props] and [jsx.key] (and cached in [jsx.attrs]).
    [None] is [EMPTY_ARRAY]. *)
Definition jsx_attrs (props : Props) (key : option string)
    (attrs : option (list Value)) : option (list Value) :=
  match attrs with
  | Some a => Some a
  | None =>
      let from_props :=
        foldl (fun (acc : option (list Value)) (kv : string * Atom) =>
                 Some (mapArray_set (default [] acc) kv.1 (VAtom kv.2) 0))
              None (map_to_list props) in
      match key with
      | None => from_props
      | Some k =>
          match from_props with
          | None => Some [VAtom (AStr ELEMENT_KEY); VAtom (AStr k)]
          | Some a => Some (mapArray_set a ELEMENT_KEY (AStr k) 0)
          end
      end
  end.

(** [journal.push(Insert, vParent, (vNewNode = vnode_newElement(...)), vCurrent)] *)
Definition insert_new_element (tag : string) : Op := fun st =>
  let '(dom, h) := document_createElement (heap st) tag in
  let '(n, h) := vnode_newElement h (vParent (vc st)) dom tag in
  let st := set_vNewNode (Some n) (set_heap h st) in
  Ok tt (journal_push
           [EOp Insert; ENode (vParent (vc st)); ENode n;
            ENodeOrNull (vCurrent (vc st))] st).

(** The three branches of [expectElement]: the cursor matches, a key
    is looked for among the siblings, or a new element is inserted. *)
Definition reconcile_element (fuel : nat) (tag : string) (matched : bool)
    (jsxKey : JsKey) : Op :=
  if matched then ret tt
  else
    match jsxKey with
    | KNull => insert_new_element tag
    | _ =>
        let* found := retrieveChildWithKey fuel jsxKey in
        match found with
        | None => insert_new_element tag
        | Some n => fun st =>
            let st := set_vNewNode (Some n) st in
            Ok tt (journal_push
                     [EOp Move; ENode (vParent (vc st)); ENode n;
                      ENodeOrNull (vCurrent (vc st))] st)
        end
    end.

(** [setBulkProps((vNewNode || vCurrent), jsxAttrs)] *)
Definition reconcile_attributes (fuel : nat) (jsxAttrs : list Value) : Op :=
  fun st =>
    match vNewNode (vc st), vCurrent (vc st) with
    | Some n, _ | None, Some n => setBulkProps fuel n jsxAttrs st
    | None, None => Throw (ErrTypeError "vnode is null") st
    end.

Definition expectElement (fuel : nat) (props : Props) (key : option string)
    (attrs : option (list Value)) (tag : string) : Op := fun st =>
  let isSameTagName :=
    match vCurrent (vc st) with
    | Some c => vnode_isElementVNode (heap st) c
                && String.eqb tag (vnode_getElementName (heap st) c)
    | None => false
    end in
  (* [jsxKey] is assigned only when [isSameTagName] holds *)
  let jsxKey := if isSameTagName then key_of_option key else KUndefined in
  let matched :=
    match vCurrent (vc st) with
    | Some c => isSameTagName
                && key_loose_eq jsxKey (vnode_getProp (heap st) c ELEMENT_KEY None)
    | None => false
    end in
  (reconcile_element fuel tag matched jsxKey >>
   reconcile_attributes fuel (default [] (jsx_attrs props key attrs))) st.

(** *** Components *)

(** A string as [Object.keys] and the index operator see it: its
    indices are its keys, each holding the character at it. *)
Definition string_as_record (s : string) : Props :=
  list_to_map
    (imap (fun i c => (pretty i, AStr (String c EmptyString)))
          (list_ascii_of_string s)).

(** [shallowEqual(jsxPros, vNodeProps)] on whatever [vnode_getProp]
    returned: [Object.keys] of [null] or [undefined] throws, a string
    has its indices as keys, a number or a boolean has no key.  The
    own keys of an object held by reference ([ARef], [VQrl]) are not
    part of the model; it is read as having none. *)
Definition props_differ (jsxProps : Props) (vNodeProps : Value)
  : Error + bool :=
  match vNodeProps with
  | VProps p => inr (negb (shallowEqual jsxProps p))
  | VAtom ANull | VAtom AUndefined =>
      inl (ErrTypeError "Cannot convert undefined or null to object")
  | VAtom (AStr s) => inr (negb (shallowEqual jsxProps (string_as_record s)))
  | _ => inr (negb (shallowEqual jsxProps ∅))
  end.

Definition expectComponent (componentQRL : QRL) : Op := fun st =>
  match vCurrent (vc st), vNewNode (vc st) with
  | None, None => Throw (ErrTypeError "host is null") st
  | Some host, _ | None, Some host =>
      let vNodeQrl := vnode_getProp (heap st) host OnRenderProp
                        (Some getObjectById) in
      let hashDiffers :=
        negb (bool_decide (Some (qrl_hash componentQRL) = hash_of vNodeQrl)) in
      let st := if hashDiffers
                then set_heap (vnode_setProp (heap st) host OnRenderProp
                                 (VQrl (qrl_hash componentQRL))) st
                else st in
      let vNodeProps := vnode_getProp (heap st) host ELEMENT_PROPS
                          (Some getObjectById) in
      let jsxProps := match jsxValue (jc st) with
                      | JNode _ props _ _ _ => props
                      | _ => ∅
                      end in
      let render (st : State) :=
        let '(jsx, h) := executeComponent2 (heap st) host componentQRL jsxProps in
        Ok tt (set_asyncQueue (asyncQueue st ++ [(jsx, host)]) (set_heap h st)) in
      if hashDiffers then render st
      else
        match props_differ jsxProps vNodeProps with
        | inl e => Throw e st
        | inr true => render st
        | inr false => Ok tt st
        end
  end.

(** *** The loops *)

(** One turn of the inner [while (jsxIdx < jsxCount)]. *)
Definition diff_body (fuel : nat) : Op :=
  assert_parent_not_current >>
  fun st =>
    match jsxValue (jc st) with
    | JString s => (expectText s >> advance) st
    | JNumber n => (expectText (String_of_number n) >> advance) st
    | JArray items => descend (JArray items) false st
    | JSignal => Throw ErrImplement st
    | JNode type props key children attrs =>
        match type with
        | TTag tag =>
            (expectNoMoreTextNodes fuel >>
             expectElement fuel props key attrs tag >>
             descend children true) st
        | TFragment =>
            (expectNoMoreTextNodes fuel >> expectVirtual >>
             descend children true) st
        | TSlot => (expectSlot >> advance) st
        | TComponent componentQRL =>
            (expectNoMoreTextNodes fuel >> expectVirtual >>
             expectComponent componentQRL >> advance) st
        | TOther => Throw (ErrUnsupportedType type) st
        end
    | JNull | JObject => Throw (ErrUnsupportedValue (jsxValue (jc st))) st
    | JUndefined | JBoolean _ | JFunction => (expectText "" >> advance) st
    end.

Fixpoint diff_inner (fuel n : nat) : Op := fun st =>
  if Nat.ltb (jsxIdx (jc st)) (jsxCount (jc st)) then
    match n with
    | O => OutOfFuel st
    | S n' => (diff_body fuel >> diff_inner fuel n') st
    end
  else Ok tt st.

Fixpoint diff_outer (fuel n : nat) : Op := fun st =>
  match stack st with
  | [] => Ok tt st
  | _ :: _ =>
      match n with
      | O => OutOfFuel st
      | S n' =>
          (diff_inner fuel fuel >> expectNoMore >> ascend >>
           diff_outer fuel n') st
      end
  end.

Definition diff (fuel : nat) (jsxNode : JSX) (vStartNode : VNodeId) : Op :=
  fun st =>
    let st := set_vc (mkVCursor vStartNode
                        (vnode_getFirstChild (heap st) vStartNode) None
                        (vSiblings (vc st)) (vSiblingsIdx (vc st))) st in
    diff_outer fuel fuel (stackPush jsxNode true st).

(** [drainAsyncQueue] together with the callback it hands to [then].
    On a promise the source returns [jsxNode.then(...)] at once; the
    callback diffs what the promise resolves to and drains the rest of
    the queue.  Loop and callbacks are run here as one sequence, so the
    outcome is that of the returned [ValueOrPromise<void>] once it has
    settled ([Ok]: returned or resolved, [Throw]: thrown or rejected),
    with nothing else touching the container in between.  What is
    still pending at the moment the promise is handed back is not
    modelled. *)
Fixpoint drainAsyncQueue (fuel n : nat) : Op := fun st =>
  match asyncQueue st with
  | [] => Ok tt st
  | (jsxNode, vHostNode) :: rest =>
      match n with
      | O => OutOfFuel st
      | S n' =>
          let st := set_asyncQueue rest st in
          match jsxNode with
          | Now jsx | Resolves jsx =>
              (diff fuel jsx vHostNode >> drainAsyncQueue fuel n') st
          | Rejects => Throw ErrRejected st
          end
      end
  end.

(** [container.$journal$] and the tree the container renders into. *)
Record ClientContainer : Type := mkContainer {
  container_journal : list JsAny;
  container_heap : T
}.

(** The traversal variables as [vnode_diff] declares them.  [vParent]
    is declared [null!] and assigned by [diff] before it is read. *)
Definition initial_state (container : ClientContainer)
    (vStartNode : VNodeId) : State :=
  mkDiffState (container_heap container) (container_journal container)
    [] []
    (mkJsxCursor None 0 0 JNull)
    (mkVCursor vStartNode None None None (-1)).

(** [vnode_diff]: the outcome is the settled one, as for
    [drainAsyncQueue]. *)
Definition vnode_diff (fuel : nat) (container : ClientContainer)
    (jsxNode : JSX) (vStartNode : VNodeId) : Outcome State unit :=
  (diff fuel jsxNode vStartNode >> drainAsyncQueue fuel fuel)
    (initial_state container vStartNode).
End Diff.

(** ** The journal applier *)

Record ApplyState (T : Type) : Type := mkApplyState {
  a_heap : T;
  a_journal : list JsAny;
  a_idx : nat
}.

Arguments mkApplyState {T}.
Arguments a_heap {T}.
Arguments a_journal {T}.
Arguments a_idx {T}.

Section Apply.
Context {T : Type} `{api : VNodeApi T}.

Local Open Scope diff_scope.

Abbreviation AOp := (M (ApplyState T) unit).

(** [journal[idx++]] *)
Definition next_entry : M (ApplyState T) (option JsAny) := fun s =>
  Ok (a_journal s !! a_idx s)
     (mkApplyState (a_heap s) (a_journal s) (S (a_idx s))).

(** [journal[idx++] as VNode]: the casts of the source are unchecked;
    an operand that is no VNode makes the primitive fail. *)
Definition next_vnode : M (ApplyState T) VNodeId :=
  let* e := next_entry in
  match e with
  | Some (ENode n) => ret n
  | _ => throw (ErrTypeError "operand is not a VNode")
  end.

(** [journal[idx++] as VNode | null] *)
Definition next_vnode_or_null : M (ApplyState T) (option VNodeId) :=
  let* e := next_entry in
  match e with
  | Some (ENode n) => ret (Some n)
  | Some (EVal v) =>
      if is_nullish v then ret None
      else throw (ErrTypeError "operand is not a VNode")
  | None => ret None
  end.

(** [journal[idx++] as string] *)
Definition next_string : M (ApplyState T) string :=
  let* e := next_entry in
  match e with
  | Some (EVal (VAtom (AStr s))) => ret s
  | _ => throw (ErrTypeError "operand is not a string")
  end.

(** [journal[idx++] as string | null], the value of an attribute *)
Definition next_value : M (ApplyState T) Value :=
  let* e := next_entry in
  match e with
  | Some (EVal v) => ret v
  | None => ret (VAtom AUndefined)
  | Some (ENode _) => throw (ErrTypeError "operand is not a value")
  end.

Definition on_heap (f : T -> T) : AOp := fun s =>
  Ok tt (mkApplyState (f (a_heap s)) (a_journal s) (a_idx s)).

(** The [while (typeof (key = journal[idx]) === 'string')] loop. *)
Fixpoint apply_attributes (fuel : nat) (vnode : VNodeId) : AOp := fun s =>
  match a_journal s !! a_idx s with
  | Some (EVal (VAtom (AStr key))) =>
      match fuel with
      | O => OutOfFuel s
      | S fuel' =>
          (let* _ := next_entry in
           let* value := next_value in
           (if isEventKey key
            then on_heap (fun h => vnode_setProp h vnode key value)
            else on_heap (fun h => vnode_setAttr h vnode key value)) >>
           apply_attributes fuel' vnode) s
      end
  | _ => Ok tt s
  end.

(** One turn of the [while (idx < journal.length)] loop: the
    [switch]. *)
Definition apply_entry (fuel : nat) : AOp :=
  let* opCode := next_entry in
  match opCode with
  | Some (EVal (VAtom (ANum n))) =>
      match opcode_of_num n with
      | Some TextSet =>
          let* v := next_vnode in
          let* text := next_string in
          on_heap (fun h => vnode_setText h v text)
      | Some Insert =>
          let* p := next_vnode in
          let* n := next_vnode in
          let* b := next_vnode_or_null in
          on_heap (fun h => vnode_insertBefore h p n b)
      | Some Truncate =>
          let* p := next_vnode in
          let* n := next_vnode in
          on_heap (fun h => vnode_truncate h p n)
      | Some Remove =>
          let* p := next_vnode in
          let* n := next_vnode in
          on_heap (fun h => vnode_remove h p n true)
      | Some Move =>
          let* vParent := next_vnode in
          let* vNodeToMove := next_vnode in
          let* vNodeMoveInFrontOf := next_vnode_or_null in
          on_heap (fun h => vnode_remove h vParent vNodeToMove false) >>
          on_heap (fun h => vnode_insertBefore h vParent vNodeToMove
                              vNodeMoveInFrontOf)
      | Some Attributes =>
          let* vnode := next_vnode in
          apply_attributes fuel vnode
      | Some ElementInsert | Some FragmentInsert | None =>
          throw (ErrUnsupportedOpCode (EVal (ANum n)))
      end
  | _ => throw (ErrAssert "Expecting opCode to be a number.")
  end.

Fixpoint apply_loop (fuel : nat) : AOp := fun s =>
  if Nat.ltb (a_idx s) (length (a_journal s)) then
    match fuel with
    | O => OutOfFuel s
    | S fuel' => (apply_entry (length (a_journal s)) >> apply_loop fuel') s
    end
  else Ok tt s.

(** [vnode_applyJournal(journal)]; the last statement is
    [journal.length = 0].  Every turn of either loop moves [idx]
    forward, so the length of the journal bounds both. *)
Definition vnode_applyJournal (journal : list JsAny) (h : T)
  : Outcome (ApplyState T) unit :=
  (apply_loop (length journal) >>
   fun s => Ok tt (mkApplyState (a_heap s) [] (a_idx s)))
    (mkApplyState h journal 0).
End Apply.

(** ** A reference implementation of the interface *)

Module SpecTree.

(** Modelled from the spec: the discriminant of a VNode, "element /
    text / fragment-like virtual", with the tag or the text it
    carries. *)
Inductive VKind : Type :=
| KElement (tag : string)
| KText (text : string)
| KVirtual.

(** Modelled from the spec: the VNode representation lives in
    ./vnode, outside these sources.  Per the data model a node "has a
    discriminant (element / text / fragment-like virtual), an ordered
    list of children, and a sorted association list of string keys to
    values"; [vn_attrs] is that list in the flat key/value layout
    [setBulkProps] reads, [vn_dom] the DOM node behind the VNode. *)
Record VNode : Type := mkVNode {
  vn_kind : VKind;
  vn_parent : option VNodeId;
  vn_children : list VNodeId;
  vn_attrs : list Value;
  vn_dom : DomNode
}.

(** Modelled from the spec: a DOM node: whether it carries a
    [qDispatchEvent] adapter, and its rendered attributes. *)
Record Dom : Type := mkDom {
  d_dispatch : bool;
  d_attrs : list Value
}.

(** Modelled from the spec: VNodes by id and DOM nodes by handle. *)
Record Tree : Type := mkTree {
  nodes : list VNode;
  doms : list Dom
}.

(** Modelled from the spec: reading a VNode by its id. *)
Definition get (t : Tree) (v : VNodeId) : option VNode := nodes t !! v.

(** Modelled from the spec: rewriting one VNode in place. *)
Definition update (t : Tree) (v : VNodeId) (f : VNode -> VNode) : Tree :=
  mkTree (alter f v (nodes t)) (doms t).

(** Modelled from the spec: a new VNode takes the next id. *)
Definition alloc (t : Tree) (n : VNode) : VNodeId * Tree :=
  (length (nodes t), mkTree (nodes t ++ [n]) (doms t)).

(** Modelled from the spec: a new DOM node takes the next handle, with
    no adapter and no attributes. *)
Definition alloc_dom (t : Tree) : DomNode * Tree :=
  (length (doms t), mkTree (nodes t) (doms t ++ [mkDom false []])).

(** Modelled from the spec: the field updates of a VNode, one per
    field the primitives write. *)
Definition set_kind (k : VKind) (n : VNode) : VNode :=
  mkVNode k (vn_parent n) (vn_children n) (vn_attrs n) (vn_dom n).

(** Modelled from the spec: as [set_kind]. *)
Definition set_parent (p : option VNodeId) (n : VNode) : VNode :=
  mkVNode (vn_kind n) p (vn_children n) (vn_attrs n) (vn_dom n).

(** Modelled from the spec: as [set_kind]. *)
Definition set_children (c : list VNodeId) (n : VNode) : VNode :=
  mkVNode (vn_kind n) (vn_parent n) c (vn_attrs n) (vn_dom n).

(** Modelled from the spec: as [set_kind]. *)
Definition set_attrs (a : list Value) (n : VNode) : VNode :=
  mkVNode (vn_kind n) (vn_parent n) (vn_children n) a (vn_dom n).

(** Modelled from the spec: the "ordered list of children" of a node. *)
Definition children_of (t : Tree) (v : VNodeId) : list VNodeId :=
  match get t v with
  | Some n => vn_children n
  | None => []
  end.

(** Modelled from the spec: what follows [v] in [l]. *)
Fixpoint after (v : VNodeId) (l : list VNodeId) : option VNodeId :=
  match l with
  | [] => None
  | x :: l' => if Nat.eqb x v then head l' else after v l'
  end.

(** Modelled from the spec: [l] with [n] put in front of [before]; at
    the end when [before] is [null] or no child. *)
Fixpoint insert_before (n : VNodeId) (before : option VNodeId)
    (l : list VNodeId) : list VNodeId :=
  match l with
  | [] => [n]
  | x :: l' =>
      if bool_decide (before = Some x) then n :: x :: l'
      else x :: insert_before n before l'
  end.

(** Modelled from the spec: the children in front of [from]. *)
Fixpoint before (from : VNodeId) (l : list VNodeId) : list VNodeId :=
  match l with
  | [] => []
  | x :: l' => if Nat.eqb x from then [] else x :: before from l'
  end.

(** Modelled from the spec: the value under [key] in a flat sorted
    attribute list. *)
Fixpoint attrs_get (key : string) (a : list Value) : option Value :=
  match a with
  | VAtom (AStr k) :: v :: a' =>
      if String.eqb k key then Some v else attrs_get key a'
  | _ => None
  end.

(** Modelled from the spec: sorted insertion of [key]/[value]; a
    [null] value removes the key (the journal writes a removal as
    value [null]). *)
Fixpoint attrs_set (key : string) (value : Value) (a : list Value)
  : list Value :=
  match a with
  | VAtom (AStr k) :: v :: a' =>
      if String.eqb k key then
        if is_nullish value then a' else VAtom (AStr k) :: value :: a'
      else if String.ltb key k then
        if is_nullish value then a
        else VAtom (AStr key) :: value :: a
      else VAtom (AStr k) :: v :: attrs_set key value a'
  | _ => if is_nullish value then a else a ++ [VAtom (AStr key); value]
  end.

Section Impl.
(** The container's resolver and the render functions behind the
    component QRLs. *)
Variable resolver : Resolver.
Variable render : QRL -> Props -> ValueOrPromise.

(** Modelled from the spec: first child of a node, [null] when it has
    none. *)
Definition getFirstChild (t : Tree) (v : VNodeId) : option VNodeId :=
  head (children_of t v).

(** Modelled from the spec: the node after [v] among the children of
    its parent. *)
Definition getNextSibling (t : Tree) (v : VNodeId) : option VNodeId :=
  match get t v with
  | Some n =>
      match vn_parent n with
      | Some p => after v (children_of t p)
      | None => None
      end
  | None => None
  end.

(** Modelled from the spec: DOM node types: 1 element, 3 text, 11
    fragment. *)
Definition getType (t : Tree) (v : VNodeId) : Z :=
  match get t v with
  | Some n =>
      match vn_kind n with
      | KElement _ => 1
      | KText _ => 3
      | KVirtual => 11
      end
  | None => 0
  end.

(** Modelled from the spec: the discriminant test for elements. *)
Definition isElementVNode (t : Tree) (v : VNodeId) : bool :=
  match get t v with
  | Some n => match vn_kind n with KElement _ => true | _ => false end
  | None => false
  end.

(** Modelled from the spec: the discriminant test for virtual nodes. *)
Definition isVirtualVNode (t : Tree) (v : VNodeId) : bool :=
  match get t v with
  | Some n => match vn_kind n with KVirtual => true | _ => false end
  | None => false
  end.

(** Modelled from the spec: the tag of an element. *)
Definition getElementName (t : Tree) (v : VNodeId) : string :=
  match get t v with
  | Some n => match vn_kind n with KElement tag => tag | _ => "" end
  | None => ""
  end.

(** Modelled from the spec: the text of a text node. *)
Definition getText (t : Tree) (v : VNodeId) : string :=
  match get t v with
  | Some n => match vn_kind n with KText s => s | _ => "" end
  | None => ""
  end.

(** Modelled from the spec: a missing key reads [null]; with a
    resolver, a stored string is an id the resolver maps to the
    object. *)
Definition getProp (t : Tree) (v : VNodeId) (key : string)
    (getObject : option Resolver) : Value :=
  match get t v with
  | Some n =>
      match attrs_get key (vn_attrs n), getObject with
      | Some (VAtom (AStr id)), Some f => f id
      | Some x, _ => x
      | None, _ => VAtom ANull
      end
  | None => VAtom ANull
  end.

(** Modelled from the spec: the DOM node behind a VNode. *)
Definition getNode (t : Tree) (v : VNodeId) : DomNode :=
  match get t v with
  | Some n => vn_dom n
  | None => 0
  end.

(** Modelled from the spec: the flat attribute list of a node, as
    [setBulkProps] reads it. *)
Definition getAttrs (t : Tree) (v : VNodeId) : list Value :=
  match get t v with
  | Some n => vn_attrs n
  | None => []
  end.

(** Modelled from the spec: a new node knows its parent but is no
    child of it yet. *)
Definition newElement (t : Tree) (parent : VNodeId) (dom : DomNode)
    (tag : string) : VNodeId * Tree :=
  alloc t (mkVNode (KElement tag) (Some parent) [] [] dom).

(** Modelled from the spec: as [newElement], for a text node. *)
Definition newText (t : Tree) (parent : VNodeId) (dom : DomNode)
    (text : string) : VNodeId * Tree :=
  alloc t (mkVNode (KText text) (Some parent) [] [] dom).

(** Modelled from the spec: as [newElement], for a virtual node, which
    has no DOM node. *)
Definition newVirtual (t : Tree) (parent : VNodeId) : VNodeId * Tree :=
  alloc t (mkVNode KVirtual (Some parent) [] [] 0).

(** Modelled from the spec: "setProp(vnode, key, value)" on the sorted
    attribute list. *)
Definition setProp (t : Tree) (v : VNodeId) (key : string) (value : Value)
  : Tree :=
  update t v (fun n => set_attrs (attrs_set key value (vn_attrs n)) n).

(** Modelled from the spec: an attribute is a property that is also
    rendered on the DOM node; handler props are written to the VNode
    only. *)
Definition setAttr (t : Tree) (v : VNodeId) (key : string) (value : Value)
  : Tree :=
  let t := setProp t v key value in
  mkTree (nodes t)
         (alter (fun d => mkDom (d_dispatch d)
                                (attrs_set key value (d_attrs d)))
                (getNode t v) (doms t)).

(** Modelled from the spec: "setText(vnode, text)". *)
Definition setText (t : Tree) (v : VNodeId) (text : string) : Tree :=
  update t v (set_kind (KText text)).

(** Modelled from the spec: "insertBefore(parent, node,
    beforeOrNull)"; the node is linked under [parent] where it was not
    a child before. *)
Definition insertBefore (t : Tree) (parent node : VNodeId)
    (beforeOrNull : option VNodeId) : Tree :=
  update
    (update t parent
       (fun p => set_children
                   (insert_before node beforeOrNull (vn_children p)) p))
    node (set_parent (Some parent)).

(** Modelled from the spec: "remove(parent, node, cleanupFlag)". *)
Definition remove (t : Tree) (parent node : VNodeId) (cleanup : bool)
  : Tree :=
  update
    (update t parent
       (fun p => set_children
                   (filter (fun x => x <> node) (vn_children p)) p))
    node (set_parent None).

(** Modelled from the spec: "truncate(parent, fromNode)" drops
    [fromNode] and every later sibling. *)
Definition truncate (t : Tree) (parent from : VNodeId) : Tree :=
  update t parent
    (fun p => set_children (before from (vn_children p)) p).

(** Modelled from the spec: the expansion stores the props snapshot on
    the host and returns what the render function produces. *)
Definition execute (t : Tree) (host : VNodeId) (q : QRL) (props : Props)
  : ValueOrPromise * Tree :=
  (render q props,
   update t host
     (fun n => set_attrs (attrs_set "q:props" (VProps props) (vn_attrs n)) n)).

(** Modelled from the spec: whether the DOM node carries a
    [qDispatchEvent] adapter. *)
Definition hasDispatch (t : Tree) (d : DomNode) : bool :=
  match doms t !! d with
  | Some x => d_dispatch x
  | None => false
  end.

(** Modelled from the spec: installing the [qDispatchEvent] adapter. *)
Definition setDispatch (t : Tree) (d : DomNode) (v : VNodeId) : Tree :=
  mkTree (nodes t) (alter (fun x => mkDom true (d_attrs x)) d (doms t)).

(** Modelled from the spec: the primitives of ./vnode, the markers
    of util/markers, the document factory and
    shared/component-execution are not part of these sources.  The
    mutators follow section 6 ("insertBefore(parent, node,
    beforeOrNull)", "remove(parent, node, cleanupFlag)",
    "truncate(parent, fromNode)", ...) and keep the attribute keys
    sorted; the spec gives the cleanup flag of [remove] no meaning
    of its own, and inflating a node changes nothing that can be
    read back. *)
Definition api : VNodeApi Tree := {|
  ELEMENT_KEY := "q:key";
  ELEMENT_PROPS := "q:props";
  OnRenderProp := "q:renderFn";
  getObjectById := resolver;
  document_createElement := fun t _ => alloc_dom t;
  document_createTextNode := fun t _ => alloc_dom t;
  vnode_getFirstChild := getFirstChild;
  vnode_getNextSibling := getNextSibling;
  vnode_getType := getType;
  vnode_isElementVNode := isElementVNode;
  vnode_isVirtualVNode := isVirtualVNode;
  vnode_getElementName := getElementName;
  vnode_getText := getText;
  vnode_getProp := getProp;
  vnode_getNode := getNode;
  vnode_attrs := getAttrs;
  vnode_ensureElementInflated := fun t _ => t;
  vnode_newElement := newElement;
  vnode_newText := newText;
  vnode_newVirtual := newVirtual;
  vnode_setProp := setProp;
  vnode_setAttr := setAttr;
  vnode_setText := setText;
  vnode_insertBefore := insertBefore;
  vnode_remove := remove;
  vnode_truncate := truncate;
  mapArray_set := fun a key value _ => attrs_set key value a;
  executeComponent2 := execute;
  elem_qDispatchEvent := hasDispatch;
  elem_set_qDispatchEvent := setDispatch
|}.
End Impl.

End SpecTree.

(** * The vocabulary of the properties *)

(** ** Journals as sequences of operations *)

(** One journal operation, as the diff engine pushes it. *)
Inductive JournalOp : Type :=
| OpTextSet (v : VNodeId) (text : string)
| OpInsert (parent node : VNodeId) (before : option VNodeId)
| OpTruncate (parent from : VNodeId)
| OpRemove (parent node : VNodeId)
| OpMove (parent node : VNodeId) (before : option VNodeId)
| OpAttributes (v : VNodeId) (kvs : list (string * Value)).

Definition encode_kv (kv : string * Value) : list JsAny :=
  [EStr kv.1; EVal kv.2].

Definition encode_op (op : JournalOp) : list JsAny :=
  match op with
  | OpTextSet v text => [EOp TextSet; ENode v; EStr text]
  | OpInsert p n b => [EOp Insert; ENode p; ENode n; ENodeOrNull b]
  | OpTruncate p n => [EOp Truncate; ENode p; ENode n]
  | OpRemove p n => [EOp Remove; ENode p; ENode n]
  | OpMove p n b => [EOp Move; ENode p; ENode n; ENodeOrNull b]
  | OpAttributes v kvs => EOp Attributes :: ENode v :: flat_map encode_kv kvs
  end.

Definition encode (ops : list JournalOp) : list JsAny :=
  flat_map encode_op ops.

Definition is_move (op : JournalOp) : bool :=
  match op with OpMove _ _ _ => true | _ => false end.
Definition is_insert (op : JournalOp) : bool :=
  match op with OpInsert _ _ _ => true | _ => false end.
Definition is_remove (op : JournalOp) : bool :=
  match op with OpRemove _ _ => true | _ => false end.
Definition is_truncate (op : JournalOp) : bool :=
  match op with OpTruncate _ _ => true | _ => false end.

Definition count_ops (p : JournalOp -> bool) (ops : list JournalOp) : nat :=
  length (filter (fun op => p op = true) ops).

(** A journal slot that does not continue an attribute run. *)
Definition not_string_head (l : list JsAny) : Prop :=
  match l with
  | EVal (VAtom (AStr _)) :: _ => False
  | _ => True
  end.

(** ** States of the traversal *)

(** The descriptor-side variables are consistent: without a child
    array there is at most one child ([stackPush] sets [jsxCount] to 0
    or 1 then). *)
Definition wf_jsx (j : JsxCursor) : Prop :=
  match jsxChildren j with
  | None => jsxCount j <= 1
  | Some _ => True
  end.

Definition frame_jsx (f : Frame) : JsxCursor :=
  match f with
  | FrameArray j | FrameVNode j _ => j
  end.

Definition wf_state {T} (st : DiffState T) : Prop :=
  wf_jsx (jc st) /\ Forall (fun f => wf_jsx (frame_jsx f)) (stack st).

(** The error the dispatch raises for a descriptor it has no case
    for. *)
Definition fatal_error_of (v : JSX) : option Error :=
  match v with
  | JSignal => Some ErrImplement
  | JNode TSlot _ _ _ _ => Some ErrSlot
  | JNode TOther _ _ _ _ => Some (ErrUnsupportedType TOther)
  | JNull | JObject => Some (ErrUnsupportedValue v)
  | _ => None
  end.

(** [typeof v] is neither ['string'], ['number'] nor ['object']. *)
Definition renders_as_empty_text (v : JSX) : bool :=
  match v with
  | JUndefined | JBoolean _ | JFunction => true
  | _ => false
  end.

(** A number the [switch] of the applier has no case for. *)
Definition unhandled_opcode (n : Z) : Prop :=
  match opcode_of_num n with
  | Some ElementInsert | Some FragmentInsert | None => True
  | _ => False
  end.

(** ** Attribute lists *)

(** An attribute list as key/value pairs, and its flat layout. *)
Abbreviation Attrs := (list (string * Value)).

Definition flat_attrs (l : Attrs) : list Value :=
  flat_map (fun kv => [VAtom (AStr kv.1); kv.2]) l.

Definition key_lt (a b : string * Value) : Prop := String.ltb a.1 b.1 = true.



(** The run [record] leaves in the journal: nothing if there is
    nothing to record, else one Attributes operation. *)
Definition attr_block (vnode : VNodeId) (recs : Attrs) : list JsAny :=
  match recs with
  | [] => []
  | _ :: _ => encode_op (OpAttributes vnode recs)
  end.

(** Where the loop stands after the pairs [pre], with [rem] to go: on
    the value slot of the head of [rem], its key already read. *)
Definition pos_after (pre rem : Attrs) : nat :=
  match rem with
  | [] => 2 * length pre
  | _ :: _ => 2 * length pre + 1
  end.

Definition head_key (rem : Attrs) : option string := fst <$> head rem.

Definition bulk_at (j : list JsAny) (hd : bool) (spre srem dpre drem : Attrs)
    (pd : bool) : BulkState :=
  mkBulk j hd (pos_after spre srem) (pos_after dpre drem)
         (head_key srem) (head_key drem) pd.

(** What a run of records adds to the journal, given whether the
    Attributes opcode has been pushed already. *)
Definition block (vnode : VNodeId) (hd : bool) (recs : Attrs) : list JsAny :=
  if hd then flat_map encode_kv recs else attr_block vnode recs.

Definition nonempty {A} (l : list A) : bool :=
  match l with [] => false | _ :: _ => true end.



(** ** Sibling tables *)

(** The side table [vSiblings] as pairs of a key and a VNode, and its
    flat layout (keys at even, VNodes at odd indices). *)
Abbreviation Sibs := (list (Value * VNodeId)).

Definition flat_sibs (l : Sibs) : list JsAny :=
  flat_map (fun p => [EVal p.1; ENode p.2]) l.

(** The first pair whose key [==] the key looked for, and the pairs
    that are left. *)
Fixpoint take_key (key : JsKey) (l : Sibs) : option VNodeId * Sibs :=
  match l with
  | [] => (None, [])
  | (k, n) :: l' =>
      if key_loose_eq key k then (Some n, l')
      else let '(found, rest) := take_key key l' in (found, (k, n) :: rest)
  end.

(** An entry of the journal that is no number. *)
Definition not_a_number (e : JsAny) : Prop :=
  match e with
  | EVal (VAtom (ANum _)) => False
  | _ => True
  end.

(** An operation that only adds to the tree: an Insert at the end of
    its parent, or a run of attributes. *)
Definition only_new (op : JournalOp) : Prop :=
  match op with
  | OpInsert _ _ None | OpAttributes _ _ => True
  | _ => False
  end.

(** The tree cursor is past the last child, and so is every sibling
    the side table could yield. *)
Definition cursor_at_end (v : VCursor) : Prop :=
  vCurrent v = None /\ (vSiblings v = None \/ vSiblings v = Some []).

Definition frame_at_end (f : Frame) : Prop :=
  match f with
  | FrameVNode _ v => cursor_at_end v
  | FrameArray _ => True
  end.

Definition at_end {T} (st : DiffState T) : Prop :=
  cursor_at_end (vc st) /\ Forall frame_at_end (stack st).

(** ** What the functions of a pass do *)

Section Terms.
Context {T : Type} `{api : VNodeApi T}.
Implicit Type st : DiffState T.

(** What the applier does for one key/value pair of a run. *)
Definition apply_kv (vnode : VNodeId) (h : T) (kv : string * Value) : T :=
  if isEventKey kv.1 then vnode_setProp h vnode kv.1 kv.2
  else vnode_setAttr h vnode kv.1 kv.2.

(** The primitives one operation stands for. *)
Definition apply_op (h : T) (op : JournalOp) : T :=
  match op with
  | OpTextSet v text => vnode_setText h v text
  | OpInsert p n b => vnode_insertBefore h p n b
  | OpTruncate p n => vnode_truncate h p n
  | OpRemove p n => vnode_remove h p n true
  | OpMove p n b => vnode_insertBefore (vnode_remove h p n false) p n b
  | OpAttributes v kvs => foldl (apply_kv v) h kvs
  end.

(** What [expectText] pushes when it cannot reuse the node at the
    cursor: a new text node, to go in front of the cursor. *)
Definition inserted_text (text : string) st (st1 : DiffState T) : Prop :=
  exists dom h n h',
    document_createTextNode (heap st) text = (dom, h)
    /\ vnode_newText h (vParent (vc st)) dom text = (n, h')
    /\ st1 = journal_push
               [EOp Insert; ENode (vParent (vc st)); ENode n;
                ENodeOrNull (vCurrent (vc st))] (set_heap h' st).

(** [expectText] by cases on the cursor. *)
Definition text_expected (text : string) st (st1 : DiffState T) : Prop :=
  match vCurrent (vc st) with
  | Some c =>
      if (vnode_getType (heap st) c =? 3)%Z then
        if String.eqb text (vnode_getText (heap st) c) then st1 = st
        else st1 = journal_push [EOp TextSet; ENode c; EStr text] st
      else inserted_text text st st1
  | None => inserted_text text st st1
  end.

(** [typeof v === 'object'] *)
Definition is_object_typed (v : JSX) : bool :=
  match v with
  | JNull | JArray _ | JSignal | JNode _ _ _ _ _ | JObject => true
  | _ => false
  end.

(** The state [expectComponent] leaves when it re-renders. *)
Definition enqueued (host : VNodeId) (q : QRL) (props : Props) st
    (st' : DiffState T) : Prop :=
  exists jsx h,
    executeComponent2 (heap st) host q props = (jsx, h)
    /\ st' = set_asyncQueue (asyncQueue st ++ [(jsx, host)]) (set_heap h st).

(** What [expectNoMore] pushes: one Truncate from the cursor on, or
    nothing when the cursor is past the last child. *)
Definition truncate_at_cursor st : list JournalOp :=
  match vCurrent (vc st) with
  | Some c => [OpTruncate (vParent (vc st)) c]
  | None => []
  end.

(** From [cur] on, the siblings are the text nodes [texts] and then
    [rest], which is no text node. *)
Fixpoint text_run (h : T) (cur : option VNodeId) (texts : list VNodeId)
    (rest : option VNodeId) : Prop :=
  match texts with
  | [] =>
      cur = rest
      /\ match rest with
         | Some r => vnode_getType h r <> 3%Z
         | None => True
         end
  | t :: texts' =>
      cur = Some t /\ vnode_getType h t = 3%Z
      /\ text_run h (vnode_getNextSibling h t) texts' rest
  end.

(** [m] takes the tree to one that [R] relates to it, however it
    ends. *)
Definition keeps (R : T -> T -> Prop) {A} (m : M (DiffState T) A)
  : Prop :=
  forall st, R (heap st) (heap (outcome_state (m st))).

(** [m] adds a sequence of operations to the journal, however it
    ends. *)
Definition pushes_ops {A} (m : M (DiffState T) A) : Prop :=
  forall st, exists ops,
    journal (outcome_state (m st)) = journal st ++ encode ops.

(** [m] leaves the descriptor-side variables and the stack alone. *)
Definition keeps_cursor {A} (m : M (DiffState T) A) : Prop :=
  forall st, jc (outcome_state (m st)) = jc st
             /\ stack (outcome_state (m st)) = stack st.

(** [m] keeps the state well-formed, however it ends. *)
Definition keeps_wf {A} (m : M (DiffState T) A) : Prop :=
  forall st, wf_state st -> wf_state (outcome_state (m st)).

(** [nodes] are the siblings from [cur] on, up to the last one. *)
Fixpoint sibling_chain (h : T) (cur : option VNodeId) (nodes : list VNodeId)
  : Prop :=
  match nodes with
  | [] => cur = None
  | n :: rest =>
      cur = Some n /\ sibling_chain h (vnode_getNextSibling h n) rest
  end.

(** The siblings with the keys stored on them. *)
Definition keyed (h : T) (nodes : list VNodeId) : Sibs :=
  map (fun n => (vnode_getProp h n ELEMENT_KEY None, n)) nodes.

(** [vNewNode || vCurrent], the node [descend] goes into. *)
Definition descended_into st : option VNodeId :=
  match vNewNode (vc st) with
  | Some n => Some n
  | None => vCurrent (vc st)
  end.

(** The state [descend(children, true)] leaves when it goes into
    [p]. *)
Definition inside (p : VNodeId) (children : JSX) st : DiffState T :=
  set_vc (mkVCursor p (vnode_getFirstChild (heap st) p) None None (-1))
    (stackPush children true st).

(** [vCurrent || vNewNode], the host of [expectComponent]. *)
Definition host_of st : option VNodeId :=
  match vCurrent (vc st) with
  | Some c => Some c
  | None => vNewNode (vc st)
  end.

(** The outcome is no [OutOfFuel], the journal is the one of [s], and
    if the step returned the index has moved forward by at least
    [d]. *)
Definition progresses {A} (d : nat) (s : ApplyState T)
    (o : Outcome (ApplyState T) A) : Prop :=
  match o with
  | Ok _ s' => a_journal s' = a_journal s /\ a_idx s + d <= a_idx s'
  | Throw _ s' => a_journal s' = a_journal s
  | OutOfFuel _ => False
  end.

(** On a tree that satisfies [Inv], with the cursor at the end, [m]
    leaves the cursor at the end and pushes operations that only add
    to the tree. *)
Definition appends (Inv : T -> Prop) {A} (m : M (DiffState T) A) : Prop :=
  forall st,
    Inv (heap st) -> at_end st ->
    at_end (outcome_state (m st))
    /\ exists ops,
         journal (outcome_state (m st)) = journal st ++ encode ops
         /\ Forall only_new ops.

End Terms.

(** ** The reference tree *)

Section LinkTerms.
Import SpecTree.

(** Every node of [t] is still there in [t'] with its kind (so its tag
    or text), its parent and its child list; every node [t'] has
    beyond those of [t] has no children. *)
Definition links_kept (t t' : Tree) : Prop :=
  (forall v n, nodes t !! v = Some n ->
     exists n', nodes t' !! v = Some n'
                /\ vn_kind n' = vn_kind n
                /\ vn_parent n' = vn_parent n
                /\ vn_children n' = vn_children n)
  /\ (forall v n', nodes t' !! v = Some n' -> length (nodes t) <= v ->
        vn_children n' = []).

End LinkTerms.

Section TreeTerms.
Import SpecTree.

(** No node of the tree has a child: an empty root, or nodes that
    were created and are not inserted yet. *)
Definition childless (t : Tree) : Prop :=
  forall v n, nodes t !! v = Some n -> vn_children n = [].

End TreeTerms.

(** ** Concrete trees *)

Module Scenes.
Import SpecTree.

(** A container without stored object ids and without components to
    expand. *)
Definition no_resolver : Resolver := fun _ => VAtom ANull.
Definition no_render : QRL -> Props -> ValueOrPromise :=
  fun _ _ => Now JUndefined.

#[export] Instance scene_api : VNodeApi Tree := api no_resolver no_render.

Definition root (children : list VNodeId) : VNode :=
  mkVNode KVirtual None children [] 0.
Definition element (tag : string) (parent : VNodeId)
    (children : list VNodeId) (attrs : list Value) : VNode :=
  mkVNode (KElement tag) (Some parent) children attrs 0.
Definition text (s : string) (parent : VNodeId) : VNode :=
  mkVNode (KText s) (Some parent) [] [] 0.
Definition virtual (parent : VNodeId) (children : list VNodeId)
    (attrs : list Value) : VNode :=
  mkVNode KVirtual (Some parent) children attrs 0.

Definition str (s : string) : Value := VAtom (AStr s).
Definition num (n : Z) : Value := VAtom (ANum n).

Definition tree_of (ns : list VNode) : Tree := mkTree ns [mkDom false []].
Definition container_of (t : Tree) : @ClientContainer Tree :=
  mkContainer [] t.

(** The traversal state with the cursor on child [c] of [p] and one
    descriptor [jsx] to go, inside the frame [diff] pushes first. *)
Definition at_child (t : Tree) (p : VNodeId) (c : option VNodeId) (jsx : JSX)
  : DiffState Tree :=
  mkDiffState t [] [FrameVNode (mkJsxCursor None 0 0 JNull)
                      (mkVCursor p c None None (-1))] []
    (mkJsxCursor None 0 1 jsx) (mkVCursor p c None None (-1)).

(** [<div>{[]}b</div>] rendered into an empty root. *)
Definition empty_root : Tree := tree_of [root []].
Definition div_with_empty_array : JSX :=
  JNode (TTag "div") ∅ None (JArray [JArray []; JString "b"]) None.

(** A fragment holding one [span], and [<>a<span/></>]. *)
Definition fragment_span : Tree :=
  tree_of [root [1]; virtual 0 [2] []; element "span" 1 [] []].
Definition fragment_a_span : JSX :=
  JNode TFragment ∅ None
        (JArray [JString "a"; JNode (TTag "span") ∅ None JUndefined None])
        None.

(** [<ul><li key=A/><li key=B/><li key=C/></ul>] and the same list in
    the order C, A, B. *)
Definition li (key : string) : JSX :=
  JNode (TTag "li") ∅ (Some key) JUndefined None.
Definition keyed_li (key : string) : VNode :=
  element "li" 1 [] [str "q:key"; str key].
Definition list_abc : Tree :=
  tree_of [root [1]; element "ul" 0 [2; 3; 4] [];
           keyed_li "A"; keyed_li "B"; keyed_li "C"].
Definition ul_cab : JSX :=
  JNode (TTag "ul") ∅ None (JArray [li "C"; li "A"; li "B"]) None.

(** A [div] with three children, and [<div/>]. *)
Definition div_three : Tree :=
  tree_of [root [1]; element "div" 0 [2; 3; 4] [];
           text "a" 1; element "span" 1 [] []; text "b" 1].
Definition empty_div : JSX := JNode (TTag "div") ∅ None JUndefined None.

(** A fragment holding the texts "a" and "b", and the fragment
    [<>b</>]. *)
Definition texts_ab : Tree :=
  tree_of [root [1]; virtual 0 [2; 3] []; text "a" 1; text "b" 1].
Definition fragment_b : JSX :=
  JNode TFragment ∅ None (JArray [JString "b"]) None.

(** A [div] with the attributes a=1 b=2 c=3, and the new attributes
    a=1 c=9 d=4. *)
Definition attrs_abc : Attrs := [("a", num 1); ("b", num 2); ("c", num 3)].
Definition attrs_acd : Attrs := [("a", num 1); ("c", num 9); ("d", num 4)].
Definition div_abc : Tree :=
  tree_of [root [1]; element "div" 0 [] (flat_attrs attrs_abc)].
Definition div_acd : JSX :=
  JNode (TTag "div") {[ "a" := ANum 1; "c" := ANum 9; "d" := ANum 4 ]}
        None JUndefined None.


(** A component host that has rendered [q] with the props [p]. *)
Definition the_qrl : QRL := mkQRL "hash1".
Definition props_x (v : Z) : Props := {[ "x" := ANum v ]}.
Definition rendered_host : Tree :=
  tree_of [root [1];
           virtual 0 [] [str "q:props"; VProps (props_x 1);
                         str "q:renderFn"; VQrl "hash1"]].
Definition component (p : Props) : JSX :=
  JNode (TComponent the_qrl) p None JUndefined None.

(** A host that has rendered nothing yet. *)
Definition fresh_host : Tree := tree_of [root [1]; virtual 0 [] []].

(** A host that stores the render function [the_qrl] but no props. *)
Definition host_without_props : Tree :=
  tree_of [root [1]; virtual 0 [] [str "q:renderFn"; VQrl "hash1"]].

(** [<div>{[]}</div>], whose child list is empty, and
    [<div>{[[], []]}</div>], whose child list holds two empty
    lists. *)
Definition div_empty_list : JSX :=
  JNode (TTag "div") ∅ None (JArray []) None.
Definition div_empty_arrays : JSX :=
  JNode (TTag "div") ∅ None (JArray [JArray []; JArray []]) None.

(** The fragment without a child list, [<></>]; the fragment
    [<>{undefined}b</>], whose child list is [[undefined, "b"]]; and
    the fragment with the sole child [true]. *)
Definition fragment_no_child : JSX := JNode TFragment ∅ None JUndefined None.
Definition fragment_undefined_b : JSX :=
  JNode TFragment ∅ None (JArray [JUndefined; JString "b"]) None.
Definition fragment_true : JSX :=
  JNode TFragment ∅ None (JBoolean true) None.

(** A list holding the item li A and two spans; a list of three
    [<div/>]; and a list of a [<div/>] and a fragment. *)
Definition list_a_spans : Tree :=
  tree_of [root [1]; element "ul" 0 [2; 3; 4] [];
           keyed_li "A"; element "span" 1 [] []; element "span" 1 [] []].
Definition ul_div_fragment : JSX :=
  JNode (TTag "ul") ∅ None (JArray [empty_div; fragment_no_child]) None.

(** The state one turn of the inner loop leaves, and the state the
    loops leave once an element without children has been diffed and
    its frame popped. *)
Definition after_turn (st : DiffState Tree) : DiffState Tree :=
  outcome_state (diff_body 10 st).
Definition after_element (st : DiffState Tree) : DiffState Tree :=
  outcome_state ((diff_body 10 >> expectNoMore >> ascend)%diff st).

(** The tree after the journal a diff left has been applied. *)
Definition applied (st : DiffState Tree) : Tree :=
  a_heap (outcome_state (vnode_applyJournal (journal st) (heap st))).

End Scenes.

(** ** Keyed lists *)

Module Lists.
Import SpecTree Scenes.

(** A list element [ptag] under the root whose three children are
    [tag] elements with the keys [a], [b] and [c], and the descriptor
    of such a list. *)
Definition keyed_item (tag key : string) : VNode :=
  element tag 1 [] [str "q:key"; str key].
Definition keyed_list (ptag tag a b c : string) : Tree :=
  tree_of [root [1]; element ptag 0 [2; 3; 4] [];
           keyed_item tag a; keyed_item tag b; keyed_item tag c].
Definition item_of (tag key : string) : JSX :=
  JNode (TTag tag) ∅ (Some key) JUndefined None.
Definition list_of (ptag tag a b c : string) : JSX :=
  JNode (TTag ptag) ∅ None
        (JArray [item_of tag a; item_of tag b; item_of tag c]) None.

(** A [div] without attributes under the root. *)
Definition empty_div_tree : Tree :=
  tree_of [root [1]; element "div" 0 [] []].

End Lists.

(** ** Proof steps *)

(** Projections of updated states. *)
Ltac simpl_state :=
  cbn [heap journal stack asyncQueue jc vc
       set_heap set_journal set_stack set_asyncQueue set_jc set_vc
       journal_push set_vParent set_vCurrent set_vNewNode set_vSiblings
       set_vSiblingsIdx set_jsxIdx set_jsxValue
       jsxChildren jsxIdx jsxCount jsxValue
       vParent vCurrent vNewNode vSiblings vSiblingsIdx] in *.

(** Close a goal about the outcome of [m s] with a lemma about [m]. *)
Ltac by_keeps H :=
  match goal with
  | |- _ _ (heap (outcome_state (_ ?s))) => exact (H s)
  end.

(** Evaluate a step of a run whose tests on unknown strings are
    settled by the rewriting [Hs]. *)
Ltac side Hs := vm_compute; repeat (progress Hs; vm_compute); reflexivity.

(** * Properties *)

(** ** Journals as sequences of operations *)

Lemma opcode_of_num_num op : opcode_of_num (opcode_num op) = Some op.
Proof. by destruct op. Qed.

Lemma lookup_app_0 {A} (pre l : list A) :
  (pre ++ l) !! length pre = l !! 0.
Proof. rewrite lookup_app_r; [|lia]. by rewrite Nat.sub_diag. Qed.

Lemma lookup_app_plus {A} (pre l : list A) k :
  (pre ++ l) !! (length pre + k) = l !! k.
Proof. rewrite lookup_app_r; [|lia]. f_equal. lia. Qed.

Lemma lookup_pre_0 {A} (pre l : list A) a :
  (pre ++ a :: l) !! length pre = Some a.
Proof. by rewrite lookup_app_0. Qed.

Lemma lookup_pre_1 {A} (pre l : list A) a b :
  (pre ++ a :: b :: l) !! S (length pre) = Some b.
Proof. by rewrite <- (Nat.add_1_r (length pre)), lookup_app_plus. Qed.

Lemma lookup_pre_2 {A} (pre l : list A) a b c :
  (pre ++ a :: b :: c :: l) !! S (S (length pre)) = Some c.
Proof.
  replace (S (S (length pre))) with (length pre + 2) by lia.
  by rewrite lookup_app_plus.
Qed.

Lemma lookup_pre_3 {A} (pre l : list A) a b c d :
  (pre ++ a :: b :: c :: d :: l) !! S (S (S (length pre))) = Some d.
Proof.
  replace (S (S (S (length pre)))) with (length pre + 3) by lia.
  by rewrite lookup_app_plus.
Qed.

Section ApplyFacts.
Context {T : Type} `{api : VNodeApi T}.

Lemma apply_attributes_run fuel vnode kvs : forall pre tail h,
  length kvs <= fuel ->
  not_string_head tail ->
  apply_attributes fuel vnode
    (mkApplyState h (pre ++ flat_map encode_kv kvs ++ tail) (length pre))
  = Ok tt (mkApplyState (foldl (apply_kv vnode) h kvs)
             (pre ++ flat_map encode_kv kvs ++ tail)
             (length pre + length (flat_map encode_kv kvs))).
Proof.
  revert fuel. induction kvs as [|[k x] kvs IH]; intros fuel pre tail h Hf Ht.
  - cbn [flat_map app length]. rewrite Nat.add_0_r.
    destruct fuel; cbn [apply_attributes a_journal a_idx];
      rewrite lookup_app_0; destruct tail as [|[[[]| |]|] tail];
      cbn in *; done.
  - destruct fuel as [|fuel]; [cbn in Hf; lia|].
    cbn [flat_map encode_kv app fst snd].
    cbn [apply_attributes a_journal a_idx].
    rewrite lookup_pre_0. cbn [EStr].
    unfold bind, next_value, next_entry, on_heap, bind, ret.
    cbn [a_journal a_idx a_heap].
    rewrite lookup_pre_1.
    specialize (IH fuel (pre ++ [EStr k; EVal x]) tail).
    rewrite <- !app_assoc in IH. cbn [app] in IH.
    rewrite length_app in IH. cbn [length] in IH.
    replace (S (S (length pre))) with (length pre + 2) by lia.
    cbn [length foldl].
    replace (length pre + S (S (length (flat_map encode_kv kvs))))
      with (length pre + 2 + length (flat_map encode_kv kvs)) by lia.
    unfold apply_kv at 2. cbn [fst snd].
    destruct (isEventKey k); cbn [a_heap a_journal a_idx];
      apply IH; (cbn in Hf; lia) || done.
Qed.

Lemma not_string_head_encode ops tail :
  not_string_head tail -> not_string_head (encode ops ++ tail).
Proof. destruct ops as [|[] ops]; done. Qed.

Lemma encode_kv_length kvs : length (flat_map encode_kv kvs) = 2 * length kvs.
Proof. induction kvs as [|kv kvs IH]; cbn [flat_map length app encode_kv]; lia. Qed.

Lemma encode_op_length_pos op : 0 < length (encode_op op).
Proof. destruct op; cbn; lia. Qed.

Lemma apply_entry_op fuel pre op tail h :
  length (encode_op op) <= fuel ->
  not_string_head tail ->
  apply_entry fuel (mkApplyState h (pre ++ encode_op op ++ tail) (length pre))
  = Ok tt (mkApplyState (apply_op h op) (pre ++ encode_op op ++ tail)
             (length pre + length (encode_op op))).
Proof.
  intros Hf Ht.
  destruct op as [v text|p n [b|]|p n|p n|p n [b|]|v kvs];
    cbn [encode_op app length apply_op ENodeOrNull ENull is_nullish];
    unfold apply_entry, bind, next_vnode, next_vnode_or_null, next_string,
      next_entry, on_heap, bind, ret;
    repeat (cbn [a_journal a_idx a_heap EOp EStr ENull is_nullish
                 opcode_num opcode_of_num];
            first [rewrite lookup_pre_0 | rewrite lookup_pre_1
                  | rewrite lookup_pre_2 | rewrite lookup_pre_3]);
    cbn [a_journal a_idx a_heap EOp EStr ENull is_nullish
         opcode_num opcode_of_num].
  1-7: apply (f_equal (Ok tt)), (f_equal (mkApplyState _ _)); lia.
  - pose proof (apply_attributes_run fuel v kvs
                  (pre ++ [EOp Attributes; ENode v]) tail h) as Hrun.
    rewrite <- !app_assoc, length_app in Hrun. cbn [app length] in Hrun.
    replace (S (S (length pre))) with (length pre + 2) by lia.
    cbn [length encode_op] in Hf. rewrite encode_kv_length in Hf.
    rewrite Hrun by (lia || done).
    apply (f_equal (Ok tt)), (f_equal (mkApplyState _ _)). lia.
Qed.

Lemma apply_loop_ops ops : forall fuel pre tail h,
  length ops <= fuel ->
  not_string_head tail ->
  apply_loop fuel (mkApplyState h (pre ++ encode ops ++ tail) (length pre))
  = apply_loop (fuel - length ops)
      (mkApplyState (foldl apply_op h ops) (pre ++ encode ops ++ tail)
         (length pre + length (encode ops))).
Proof.
  induction ops as [|op ops IH]; intros fuel pre tail h Hf Ht.
  - cbn [encode flat_map length foldl app]. by rewrite Nat.sub_0_r, Nat.add_0_r.
  - destruct fuel as [|fuel]; [cbn in Hf; lia|].
    cbn [encode flat_map foldl length Nat.sub]. fold (encode ops).
    rewrite <- app_assoc.
    pose proof (encode_op_length_pos op) as Hpos.
    cbn [apply_loop a_idx a_journal].
    replace (Nat.ltb (length pre)
               (length (pre ++ encode_op op ++ encode ops ++ tail))) with true
      by (symmetry; apply Nat.ltb_lt; rewrite !length_app; lia).
    unfold bind at 1.
    rewrite apply_entry_op;
      [|rewrite !length_app; lia|by apply not_string_head_encode].
    specialize (IH fuel (pre ++ encode_op op) tail (apply_op h op)).
    rewrite <- !app_assoc, length_app in IH.
    rewrite IH by (cbn in Hf; lia || done).
    apply (f_equal (apply_loop _)), (f_equal (mkApplyState _ _)).
    rewrite length_app. lia.
Qed.

Lemma vnode_applyJournal_encode (ops : list JournalOp) (h : T) :
  vnode_applyJournal (encode ops) h
  = Ok tt (mkApplyState (foldl apply_op h ops) [] (length (encode ops))).
Proof.
  unfold vnode_applyJournal, bind.
  pose proof (apply_loop_ops ops (length (encode ops)) [] [] h) as Hloop.
  cbn [app length] in Hloop. rewrite app_nil_r in Hloop.
  rewrite Hloop; [|clear Hloop|done].
  - destruct (length (encode ops) - length ops) eqn:E;
      cbn [apply_loop a_idx a_journal Nat.add];
      by rewrite Nat.ltb_irrefl.
  - induction ops as [|op ops IH]; [done|].
    cbn [encode flat_map length]. fold (encode ops). rewrite length_app.
    pose proof (encode_op_length_pos op). lia.
Qed.

(** C8. The applier reads a journal of operations once, front to back:
    the tree it leaves is the left fold of the operations' primitives
    over the tree it was given (a Move being [vnode_remove] without
    cleanup followed by [vnode_insertBefore], an Attributes run going
    pair by pair to [vnode_setProp] for [on...$] keys and to
    [vnode_setAttr] otherwise), the read position ends at the end of
    the journal, and the journal is left empty. *)
Theorem applyJournal_replays_in_order (ops : list JournalOp) (h : T) :
  vnode_applyJournal (encode ops) h
  = Ok tt (mkApplyState (foldl apply_op h ops) [] (length (encode ops))).
Proof. apply vnode_applyJournal_encode. Qed.
End ApplyFacts.

(** ** Facts about the traversal *)

Section DiffFacts.
Context {T : Type} `{api : VNodeApi T}.
Implicit Type st : DiffState T.

Lemma assert_ok st :
  vCurrent (vc st) <> Some (vParent (vc st)) ->
  assert_parent_not_current st = Ok tt st.
Proof.
  intros H. unfold assert_parent_not_current. by rewrite bool_decide_false.
Qed.

(** [advance] touches neither the tree, the journal nor the queue,
    whatever its outcome. *)
Lemma advance_on_frame stk : forall st,
  let st' := outcome_state (advance_on stk st) in
  heap st' = heap st /\ journal st' = journal st
  /\ asyncQueue st' = asyncQueue st.
Proof.
  induction stk as [|f stk IH]; intros st; cbn [advance_on].
  - destruct (Nat.ltb _ _); [destruct (jsxChildren _)|]; cbn;
      unfold advance_cursor;
      repeat match goal with |- context [match ?x with _ => _ end] =>
               destruct x end; done.
  - destruct (Nat.ltb _ _).
    + destruct (jsxChildren _); cbn; unfold advance_cursor;
        repeat match goal with |- context [match ?x with _ => _ end] =>
                 destruct x end; done.
    + destruct f as [j|j v].
      * destruct (IH (set_jc j (set_jsxIdx (S (jsxIdx (jc st))) st)))
          as (H1 & H2 & H3).
        cbn zeta in *. rewrite H1, H2, H3. done.
      * cbn; unfold advance_cursor;
          repeat match goal with |- context [match ?x with _ => _ end] =>
                   destruct x end; done.
Qed.

Lemma advance_on_ok stk : forall st,
  wf_jsx (jc st) ->
  Forall (fun f => wf_jsx (frame_jsx f)) stk ->
  exists st', advance_on stk st = Ok tt st'.
Proof.
  induction stk as [|f stk IH]; intros st Hj Hs; cbn [advance_on].
  - destruct (Nat.ltb _ _) eqn:E; [|eauto].
    unfold wf_jsx in Hj. simpl_state. apply Nat.ltb_lt in E.
    destruct (jsxChildren (jc st)) eqn:Ec; [eauto|lia].
  - destruct (Nat.ltb _ _) eqn:E.
    + unfold wf_jsx in Hj. simpl_state. apply Nat.ltb_lt in E.
      destruct (jsxChildren (jc st)) eqn:Ec; [eauto|lia].
    + inversion Hs as [|? ? Hf Hs']; subst.
      destruct f as [j|j v]; [|eauto].
      apply IH; [exact Hf|exact Hs'].
Qed.

Lemma diff_inner_turn fuel n st st' :
  Nat.ltb (jsxIdx (jc st)) (jsxCount (jc st)) = true ->
  diff_body fuel st = Ok tt st' ->
  diff_inner fuel (S n) st = diff_inner fuel n st'.
Proof.
  intros Hlt E. cbn [diff_inner]. rewrite Hlt. unfold bind. by rewrite E.
Qed.

Lemma diff_inner_done fuel n st :
  Nat.ltb (jsxIdx (jc st)) (jsxCount (jc st)) = false ->
  diff_inner fuel n st = Ok tt st.
Proof. intros Hlt. destruct n; cbn [diff_inner]; by rewrite Hlt. Qed.

Lemma diff_outer_turn fuel n st st1 st2 st3 :
  stack st <> [] ->
  diff_inner fuel fuel st = Ok tt st1 ->
  expectNoMore st1 = Ok tt st2 ->
  ascend st2 = Ok tt st3 ->
  diff_outer fuel (S n) st = diff_outer fuel n st3.
Proof.
  intros Hs E1 E2 E3. cbn [diff_outer]. destruct (stack st); [done|].
  unfold bind. by rewrite E1, E2, E3.
Qed.

Lemma advance_ok st :
  wf_state st ->
  exists st', advance st = Ok tt st'
    /\ heap st' = heap st /\ journal st' = journal st
    /\ asyncQueue st' = asyncQueue st.
Proof.
  intros [Hj Hs]. destruct (advance_on_ok (stack st) st Hj Hs) as [st' E].
  exists st'. split; [exact E|].
  pose proof (advance_on_frame (stack st) st) as H. cbn zeta in H.
  unfold advance in E. by rewrite E in H.
Qed.
End DiffFacts.

(** ** Fatal inputs (C9) *)

Section Fatal.
Context {T : Type} `{api : VNodeApi T}.
Implicit Type st : DiffState T.

Lemma diff_body_fatal fuel st e :
  vCurrent (vc st) <> Some (vParent (vc st)) ->
  fatal_error_of (jsxValue (jc st)) = Some e ->
  diff_body fuel st = Throw e st.
Proof.
  intros Hpc Hf. unfold diff_body, bind. rewrite (assert_ok _ Hpc).
  destruct (jsxValue (jc st)) as [| | | | | | | |[]| ];
    cbn in Hf; try discriminate; by inversion Hf.
Qed.

Lemma diff_inner_fatal fuel n st e :
  vCurrent (vc st) <> Some (vParent (vc st)) ->
  jsxIdx (jc st) < jsxCount (jc st) ->
  fatal_error_of (jsxValue (jc st)) = Some e ->
  diff_inner fuel (S n) st = Throw e st.
Proof.
  intros Hpc Hlt Hf. cbn [diff_inner].
  apply Nat.ltb_lt in Hlt. rewrite Hlt. unfold bind.
  by rewrite (diff_body_fatal _ _ _ Hpc Hf).
Qed.

Lemma applyJournal_unhandled ops n tail (h : T) :
  unhandled_opcode n ->
  vnode_applyJournal (encode ops ++ EVal (ANum n) :: tail) h
  = Throw (ErrUnsupportedOpCode (EVal (ANum n)))
      (mkApplyState (foldl apply_op h ops)
         (encode ops ++ EVal (ANum n) :: tail) (S (length (encode ops)))).
Proof.
  intros Hn. unfold vnode_applyJournal, bind.
  pose proof (apply_loop_ops ops
                (length (encode ops ++ EVal (ANum n) :: tail)) []
                (EVal (ANum n) :: tail) h) as Hloop.
  cbn [app length Nat.add] in Hloop.
  assert (Hlen : length ops <= length (encode ops)).
  { clear. induction ops as [|op ops IH]; [done|].
    cbn [encode flat_map length]. fold (encode ops). rewrite length_app.
    pose proof (encode_op_length_pos op). lia. }
  rewrite Hloop; [|rewrite length_app; cbn [length]; lia|done].
  rewrite length_app. cbn [length].
  replace (length (encode ops) + S (length tail) - length ops)
    with (S (length (encode ops) + length tail - length ops)) by lia.
  cbn [apply_loop a_idx a_journal].
  replace (Nat.ltb (length (encode ops))
             (length (encode ops ++ EVal (ANum n) :: tail))) with true
    by (symmetry; apply Nat.ltb_lt; rewrite length_app; cbn [length]; lia).
  unfold bind, apply_entry, bind, next_entry. cbn [a_journal a_idx a_heap].
  rewrite lookup_pre_0.
  unfold unhandled_opcode in Hn.
  destruct (opcode_of_num n) as [[]|]; done.
Qed.

(** C9. A descriptor the dispatch has no case for (a signal, a slot, a
    node of an unsupported type, [null] or any other object) makes the
    turn that meets it throw at once, before anything is pushed or
    changed; the loops pass the error on, so that [vnode_diff] as a
    whole ends in it without draining the queue.  An opcode number the
    applier has no case for makes it throw after the operations in
    front of it have been applied; the journal is then still what it
    was. *)
Theorem unsupported_input_is_fatal :
  (forall fuel n st e,
      vCurrent (vc st) <> Some (vParent (vc st)) ->
      jsxIdx (jc st) < jsxCount (jc st) ->
      stack st <> [] ->
      fatal_error_of (jsxValue (jc st)) = Some e ->
      diff_body fuel st = Throw e st
      /\ diff_inner fuel (S n) st = Throw e st
      /\ diff_outer (S fuel) (S n) st = Throw e st)
  /\ (forall fuel container jsx vStart e,
         vnode_getFirstChild (container_heap container) vStart
           <> Some vStart ->
         fatal_error_of jsx = Some e ->
         exists st,
           vnode_diff (S fuel) container jsx vStart = Throw e st
           /\ journal st = container_journal container
           /\ heap st = container_heap container
           /\ asyncQueue st = [])
  /\ (forall ops n tail (h : T),
         unhandled_opcode n ->
         vnode_applyJournal (encode ops ++ EVal (ANum n) :: tail) h
         = Throw (ErrUnsupportedOpCode (EVal (ANum n)))
             (mkApplyState (foldl apply_op h ops)
                (encode ops ++ EVal (ANum n) :: tail)
                (S (length (encode ops))))).
Proof.
  split; [|split].
  - intros fuel n st e Hpc Hlt Hs Hf. split; [|split].
    + by apply diff_body_fatal.
    + by apply diff_inner_fatal.
    + cbn [diff_outer]. destruct (stack st) as [|f stk]; [done|].
      unfold bind. by rewrite (diff_inner_fatal _ _ _ _ Hpc Hlt Hf).
  - intros fuel container jsx vStart e Hfc Hf.
    eexists. unfold vnode_diff, bind, diff.
    split; [|split; [|split]].
    + set (st0 := stackPush jsx true _).
      assert (Hst : stack st0 <> []) by (subst st0; by destruct jsx).
      assert (Hv : jsxValue (jc st0) = jsx
                   /\ jsxIdx (jc st0) < jsxCount (jc st0))
        by (subst st0; destruct jsx; cbn in Hf; try discriminate;
            cbn; split; (done || lia)).
      destruct Hv as [Hv Hlt].
      assert (Hpc : vCurrent (vc st0) <> Some (vParent (vc st0)))
        by (subst st0; by destruct jsx).
      cbn [diff_outer]. destruct (stack st0) as [|f stk]; [done|].
      unfold bind. rewrite <- Hv in Hf.
      rewrite (diff_inner_fatal _ _ _ _ Hpc Hlt Hf). reflexivity.
    + by destruct jsx.
    + by destruct jsx.
    + by destruct jsx.
  - apply applyJournal_unhandled.
Qed.
End Fatal.

(** ** Text descriptors (C10, C6) *)

Section Text.
Context {T : Type} `{api : VNodeApi T}.
Implicit Type st : DiffState T.

Lemma expectText_total text st :
  exists st1, expectText text st = Ok tt st1 /\ text_expected text st st1.
Proof.
  unfold expectText, text_expected, inserted_text.
  destruct (vCurrent (vc st)) as [c|].
  - destruct (vnode_getType (heap st) c =? 3)%Z.
    + destruct (String.eqb text _); cbn [negb]; eauto.
    + destruct (document_createTextNode _ _) as [dom h] eqn:E1.
      destruct (vnode_newText _ _ _ _) as [n h'] eqn:E2.
      eexists; split; [reflexivity|]. by exists dom, h, n, h'.
  - destruct (document_createTextNode _ _) as [dom h] eqn:E1.
    destruct (vnode_newText _ _ _ _) as [n h'] eqn:E2.
    eexists; split; [reflexivity|]. by exists dom, h, n, h'.
Qed.

Lemma text_expected_keeps text st st1 :
  text_expected text st st1 ->
  stack st1 = stack st /\ jc st1 = jc st /\ vc st1 = vc st
  /\ asyncQueue st1 = asyncQueue st.
Proof.
  unfold text_expected, inserted_text.
  destruct (vCurrent (vc st)) as [c|];
    [destruct (vnode_getType (heap st) c =? 3)%Z;
     [destruct (String.eqb text _)|]|];
    intros H; try (destruct H as (dom & h & n & h' & _ & _ & ->)); by subst.
Qed.

(** The turn of the dispatch on a value that is no object: a string
    or a number is diffed as its text, anything else as the text
    [""]; [null] and objects of no known shape are fatal. *)
Lemma non_renderable_turn fuel st :
  vCurrent (vc st) <> Some (vParent (vc st)) ->
  wf_state st ->
  (renders_as_empty_text (jsxValue (jc st)) = true ->
   exists st1 st2,
     expectText "" st = Ok tt st1
     /\ text_expected "" st st1
     /\ advance st1 = Ok tt st2
     /\ diff_body fuel st = Ok tt st2
     /\ journal st2 = journal st1 /\ heap st2 = heap st1)
  /\ (is_object_typed (jsxValue (jc st)) = false ->
      exists st2, diff_body fuel st = Ok tt st2)
  /\ (jsxValue (jc st) = JNull \/ jsxValue (jc st) = JObject ->
      diff_body fuel st = Throw (ErrUnsupportedValue (jsxValue (jc st))) st).
Proof.
  intros Hpc Hwf.
  assert (Htext : forall text,
            match jsxValue (jc st) with
            | JString s => text = s
            | JNumber n => text = String_of_number n
            | JUndefined | JBoolean _ | JFunction => text = ""
            | _ => False
            end ->
            exists st1 st2,
              expectText text st = Ok tt st1
              /\ text_expected text st st1
              /\ advance st1 = Ok tt st2
              /\ diff_body fuel st = Ok tt st2
              /\ journal st2 = journal st1 /\ heap st2 = heap st1).
  { intros text Hv.
    destruct (expectText_total text st) as (st1 & E1 & Hspec).
    destruct (text_expected_keeps _ _ _ Hspec) as (Hs & Hj & _ & _).
    assert (Hwf1 : wf_state st1) by (unfold wf_state; by rewrite Hs, Hj).
    destruct (advance_ok st1 Hwf1) as (st2 & E2 & Hh & Hjn & _).
    exists st1, st2. repeat split; try done.
    unfold diff_body, bind. rewrite (assert_ok _ Hpc).
    destruct (jsxValue (jc st)); try done; subst text; by rewrite E1. }
  split; [|split].
  - intros Hr. apply Htext.
    by destruct (jsxValue (jc st)).
  - intros Ho.
    destruct (jsxValue (jc st)) as [s|n| | | | | | | | ] eqn:Ev;
      try discriminate.
    + destruct (Htext s) as (st1 & st2 & _ & _ & _ & E & _);
        [done|eauto].
    + destruct (Htext (String_of_number n)) as (st1 & st2 & _ & _ & _ & E & _);
        [done|eauto].
    + destruct (Htext "") as (st1 & st2 & _ & _ & _ & E & _);
        [done|eauto].
    + destruct (Htext "") as (st1 & st2 & _ & _ & _ & E & _);
        [done|eauto].
    + destruct (Htext "") as (st1 & st2 & _ & _ & _ & E & _);
        [done|eauto].
  - intros [E|E]; apply diff_body_fatal; try done; by rewrite E.
Qed.
End Text.

(** ** [shallowEqual] decides equality of props records *)

Lemma ascii_compare_refl c : Ascii.compare c c = Eq.
Proof. apply N.compare_refl. Qed.


Lemma string_compare_lt_trans x : forall y z,
  String.compare x y = Lt -> String.compare y z = Lt ->
  String.compare x z = Lt.
Proof.
  induction x as [|cx x IH]; intros [|cy y] [|cz z]; cbn; try done.
  destruct (Ascii.compare cx cy) eqn:E1; try done;
    destruct (Ascii.compare cy cz) eqn:E2; try done.
  - apply Ascii.compare_eq_iff in E1, E2. subst.
    rewrite ascii_compare_refl. apply IH.
  - apply Ascii.compare_eq_iff in E1. subst. by rewrite E2.
  - apply Ascii.compare_eq_iff in E2. subst. by rewrite E1.
  - unfold Ascii.compare in *. rewrite N.compare_lt_iff in E1, E2.
    assert (N.compare (Ascii.N_of_ascii cx) (Ascii.N_of_ascii cz) = Lt)
      as -> by (apply N.compare_lt_iff; lia).
    done.
Qed.

Lemma string_ltb_trans x y z :
  String.ltb x y = true -> String.ltb y z = true -> String.ltb x z = true.
Proof.
  unfold String.ltb. intros Hxy Hyz.
  destruct (String.compare x y) eqn:E1; try done.
  destruct (String.compare y z) eqn:E2; try done.
  by rewrite (string_compare_lt_trans _ _ _ E1 E2).
Qed.



Lemma shallowEqual_loop_refl (m : Props) l : shallowEqual_loop m m l l = true.
Proof.
  induction l as [|k l IH]; [done|]. cbn.
  by rewrite String.eqb_refl, bool_decide_true.
Qed.

Lemma shallowEqual_loop_true (src dst : Props) l1 : forall l2,
  shallowEqual_loop src dst l1 l2 = true ->
  length l1 = length l2 ->
  l1 = l2 /\ forall k, k ∈ l1 -> prop_get src k = prop_get dst k.
Proof.
  induction l1 as [|k1 l1 IH]; intros [|k2 l2]; cbn; try done.
  - intros _ _. split; [done|]. intros k Hk. by apply elem_of_nil in Hk.
  - destruct (String.eqb k1 k2) eqn:Ek; [|done]. cbn.
    apply String.eqb_eq in Ek. subst k2.
    case_bool_decide as Hv; [|done]. cbn. intros Hl Hlen.
    destruct (IH l2 Hl) as [-> Hvals]; [lia|].
    split; [done|]. intros k Hk. apply elem_of_cons in Hk as [->|Hk]; auto.
Qed.

Lemma elem_of_Object_keys (m : Props) k : k ∈ Object_keys m <-> is_Some (m !! k).
Proof.
  unfold Object_keys. rewrite list_elem_of_fmap. split.
  - intros ([k' v] & -> & Hin). apply elem_of_map_to_list in Hin. eauto.
  - intros [v Hv]. exists (k, v). split; [done|]. by apply elem_of_map_to_list.
Qed.

Lemma elem_of_sorted_keys (m : Props) k : k ∈ sorted_keys m <-> is_Some (m !! k).
Proof.
  unfold sorted_keys. rewrite merge_sort_Permutation. apply elem_of_Object_keys.
Qed.

(** One level of key/value equality: the same keys with the same
    values, that is, the same record. *)
Lemma shallowEqual_iff (src dst : Props) :
  shallowEqual src dst = true <-> (forall k, src !! k = dst !! k).
Proof.
  unfold shallowEqual. split.
  - destruct (Nat.eqb _ _) eqn:El; [|done]. cbn. apply Nat.eqb_eq in El.
    intros Hl. apply shallowEqual_loop_true in Hl as [Hk Hv].
    2: { unfold sorted_keys.
         by rewrite (Permutation_length (merge_sort_Permutation _ _)),
           (Permutation_length (merge_sort_Permutation _ (Object_keys dst))). }
    intros k. destruct (src !! k) as [v|] eqn:Es.
    + assert (Hin : k ∈ sorted_keys src) by (apply elem_of_sorted_keys; eauto).
      specialize (Hv k Hin). rewrite Hk in Hin.
      apply elem_of_sorted_keys in Hin as [v' Ed].
      unfold prop_get in Hv. rewrite Es, Ed in Hv. cbn in Hv. by subst.
    + destruct (dst !! k) as [v'|] eqn:Ed; [|done].
      assert (Hin : k ∈ sorted_keys dst) by (apply elem_of_sorted_keys; eauto).
      rewrite <- Hk in Hin. apply elem_of_sorted_keys in Hin as [v Hv'].
      congruence.
  - intros Heq. apply map_eq in Heq. subst dst.
    rewrite Nat.eqb_refl. cbn. apply shallowEqual_loop_refl.
Qed.

(** ** Components (C4) *)

Section Components.
Context {T : Type} `{api : VNodeApi T}.
Implicit Type st : DiffState T.

Lemma expectComponent_same_source st host q props key children attrs stored :
  vCurrent (vc st) = Some host ->
  jsxValue (jc st) = JNode (TComponent q) props key children attrs ->
  vnode_getProp (heap st) host OnRenderProp (Some getObjectById)
    = VQrl (qrl_hash q) ->
  vnode_getProp (heap st) host ELEMENT_PROPS (Some getObjectById)
    = VProps stored ->
  (if shallowEqual props stored
   then expectComponent q st = Ok tt st
   else exists st', expectComponent q st = Ok tt st'
                    /\ enqueued host q props st st').
Proof.
  intros Hc Hj Hq Hp. unfold expectComponent, enqueued.
  rewrite Hc, Hq. cbn [hash_of]. rewrite bool_decide_true by done.
  cbn [negb]. rewrite Hp, Hj. cbn [props_differ].
  destruct (shallowEqual props stored); cbn [negb]; [done|].
  destruct (executeComponent2 _ _ _ _) as [jsx h].
  eexists. split; [reflexivity|]. by exists jsx, h.
Qed.

Lemma component_turn st fuel host q props key children attrs :
  vCurrent (vc st) = Some host ->
  vParent (vc st) <> host ->
  vnode_getType (heap st) host <> 3%Z ->
  vnode_isVirtualVNode (heap st) host = true ->
  jsxValue (jc st) = JNode (TComponent q) props key children attrs ->
  diff_body fuel st = (expectComponent q >> advance)%diff st.
Proof.
  intros Hc Hp Ht Hv Hj. unfold diff_body.
  unfold bind at 1. rewrite assert_ok by (rewrite Hc; congruence).
  rewrite Hj. unfold bind at 1.
  assert (expectNoMoreTextNodes fuel st = Ok tt st) as ->.
  { destruct fuel; cbn [expectNoMoreTextNodes]; rewrite Hc;
      by apply Z.eqb_neq in Ht as ->. }
  unfold bind at 1. unfold expectVirtual. by rewrite Hc, Hv.
Qed.

(** C4. A component descriptor met with the cursor on a virtual host
    that stores the same render function (equal [$hash$]) and a props
    record with the same keys and values enqueues nothing: the queue
    after the turn is the queue before it.  If instead the stored
    record differs from the new props in the value of one key, the
    turn appends exactly one pair, the expansion
    [executeComponent2] returned and the host. *)
Theorem component_rerender_gating st fuel host q props key children attrs
    stored :
  vCurrent (vc st) = Some host ->
  vParent (vc st) <> host ->
  vnode_getType (heap st) host <> 3%Z ->
  vnode_isVirtualVNode (heap st) host = true ->
  jsxValue (jc st) = JNode (TComponent q) props key children attrs ->
  vnode_getProp (heap st) host OnRenderProp (Some getObjectById)
    = VQrl (qrl_hash q) ->
  vnode_getProp (heap st) host ELEMENT_PROPS (Some getObjectById)
    = VProps stored ->
  ((forall k, props !! k = stored !! k) ->
   expectComponent q st = Ok tt st
   /\ asyncQueue (outcome_state (diff_body fuel st)) = asyncQueue st)
  /\ (forall k v v0,
         stored !! k = Some v0 -> v <> v0 -> props = <[k := v]> stored ->
         exists jsx h,
           executeComponent2 (heap st) host q props = (jsx, h)
           /\ expectComponent q st
              = Ok tt (set_asyncQueue (asyncQueue st ++ [(jsx, host)])
                         (set_heap h st))
           /\ asyncQueue (outcome_state (diff_body fuel st))
              = asyncQueue st ++ [(jsx, host)]).
Proof.
  intros Hc Hp Ht Hv Hj Hq Hs.
  pose proof (expectComponent_same_source _ _ _ _ _ _ _ _ Hc Hj Hq Hs) as He.
  pose proof (component_turn _ fuel _ _ _ _ _ _ Hc Hp Ht Hv Hj) as Hturn.
  split.
  - intros Heq. apply (proj2 (shallowEqual_iff _ _)) in Heq.
    rewrite Heq in He.
    split; [done|]. rewrite Hturn. unfold bind. rewrite He.
    apply (advance_on_frame (stack st) st).
  - intros k v v0 Hk Hne ->.
    destruct (shallowEqual (<[k:=v]> stored) stored) eqn:E.
    { pose proof (proj1 (shallowEqual_iff _ _) E k) as E'.
      rewrite lookup_insert_eq, Hk in E'. congruence. }
    destruct He as (st' & He & jsx & h & Hx & ->).
    exists jsx, h. repeat split; [done..|].
    rewrite Hturn. unfold bind. rewrite He.
    set (st' := set_asyncQueue _ _).
    apply (advance_on_frame (stack st') st').
Qed.
End Components.

(** ** End of a frame and stale text (C5, C6) *)

Section Purge.
Context {T : Type} `{api : VNodeApi T}.
Implicit Type st : DiffState T.

Lemma journal_push_nil st : journal_push [] st = st.
Proof.
  destruct st. unfold journal_push, set_journal. cbn. by rewrite app_nil_r.
Qed.

Lemma expectNoMore_truncates st :
  vCurrent (vc st) <> Some (vParent (vc st)) ->
  expectNoMore st = Ok tt (journal_push (encode (truncate_at_cursor st)) st).
Proof.
  intros Hpc. unfold expectNoMore, bind, truncate_at_cursor.
  rewrite (assert_ok _ Hpc).
  destruct (vCurrent (vc st)); [done|]. cbn [encode flat_map].
  by rewrite journal_push_nil.
Qed.

Lemma frame_end st fuel n :
  stack st <> [] ->
  jsxCount (jc st) <= jsxIdx (jc st) ->
  vCurrent (vc st) <> Some (vParent (vc st)) ->
  diff_outer fuel (S n) st
  = (ascend >> diff_outer fuel n)%diff
      (journal_push (encode (truncate_at_cursor st)) st).
Proof.
  intros Hs Hle Hpc. cbn [diff_outer].
  destruct (stack st) as [|f stk] eqn:Es; [done|].
  unfold bind at 1.
  assert (diff_inner fuel fuel st = Ok tt st) as ->.
  { apply Nat.ltb_ge in Hle. destruct fuel; cbn [diff_inner]; by rewrite Hle. }
  unfold bind at 1. by rewrite (expectNoMore_truncates _ Hpc).
Qed.

Lemma set_vCurrent_same st : set_vCurrent (vCurrent (vc st)) st = st.
Proof. by destruct st as [? ? ? ? ? []]. Qed.

Lemma expectNoMoreTextNodes_run texts : forall fuel st rest,
  text_run (heap st) (vCurrent (vc st)) texts rest ->
  length texts <= fuel ->
  expectNoMoreTextNodes fuel st
  = Ok tt (set_vCurrent rest
             (journal_push
                (encode (map (OpRemove (vParent (vc st))) texts)) st)).
Proof.
  induction texts as [|t texts IH]; intros fuel st rest Hrun Hf.
  - destruct Hrun as [Hc Hr]. cbn [map encode flat_map].
    rewrite journal_push_nil, <- Hc, set_vCurrent_same.
    destruct fuel; cbn [expectNoMoreTextNodes]; rewrite Hc;
      destruct rest as [r|]; try done;
      by apply Z.eqb_neq in Hr as ->.
  - destruct Hrun as (Hc & Ht & Hrun).
    destruct fuel as [|fuel]; [cbn in Hf; lia|].
    cbn [expectNoMoreTextNodes]. rewrite Hc, Ht. cbn [Z.eqb Pos.eqb].
    rewrite (IH fuel _ rest); [|by simpl_state|cbn in Hf; lia].
    simpl_state. f_equal.
    destruct st as [? ? ? ? ? []]. unfold set_vCurrent, journal_push.
    simpl_state. cbn [map encode flat_map encode_op].
    fold (encode (map (OpRemove vParent0) texts)).
    by rewrite <- app_assoc.
Qed.

(** A text descriptor is matched without looking past the cursor: the
    turn is [expectText] followed by [advance]. *)
Lemma text_turn st fuel text :
  vCurrent (vc st) <> Some (vParent (vc st)) ->
  jsxValue (jc st) = JString text
  \/ (exists n, jsxValue (jc st) = JNumber n /\ text = String_of_number n) ->
  exists st1, text_expected text st st1
              /\ diff_body fuel st = advance st1.
Proof.
  intros Hpc Hj.
  destruct (expectText_total text st) as (st1 & E1 & Hspec).
  exists st1. split; [done|].
  unfold diff_body, bind. rewrite (assert_ok _ Hpc).
  destruct Hj as [->|(n & -> & ->)]; by rewrite E1.
Qed.
End Purge.

(** ** Children that are no string, number or object (C10) *)

Section NonRenderable.
Context {T : Type} `{api : VNodeApi T}.
Implicit Type st : DiffState T.

Lemma descend_inside p children st :
  descended_into st = Some p ->
  descend children true st = Ok tt (inside p children st).
Proof.
  unfold descended_into, descend, inside. intros Hp.
  assert (Hvc : vc (stackPush children true st) = vc st)
    by (by destruct children).
  assert (Hh : heap (stackPush children true st) = heap st)
    by (by destruct children).
  cbn zeta. rewrite Hvc, Hh.
  destruct (vNewNode (vc st)), (vCurrent (vc st)); by simplify_eq.
Qed.

(** C10.  A child that the dispatch meets and that is neither a
    string, a number nor an object ([undefined] as an item of a child
    list, a boolean, a function) is diffed as the text [""]: the turn
    is [expectText("")] followed by [advance], it ends normally, and
    what it pushes is nothing (a text node with text [""] is at the
    cursor), one TextSet to [""] (a text node with another text is
    there) or one Insert of a new empty text node (anything else, or
    nothing, is there).  No child that is not an object makes the turn
    throw; [null] and objects of no known shape do.  A sole child that
    is a boolean or a function is met by the dispatch: the frame
    [descend] pushes for it runs that one turn on the first child of
    the node gone into.  A child list that is [undefined] itself is no
    child: the frame runs no turn, and [expectNoMore] truncates the
    node gone into from its first child on. *)
Theorem non_renderable_child_is_empty_text :
  (forall fuel st,
      vCurrent (vc st) <> Some (vParent (vc st)) ->
      wf_state st ->
      (renders_as_empty_text (jsxValue (jc st)) = true ->
       exists st1 st2,
         expectText "" st = Ok tt st1
         /\ text_expected "" st st1
         /\ advance st1 = Ok tt st2
         /\ diff_body fuel st = Ok tt st2
         /\ journal st2 = journal st1 /\ heap st2 = heap st1)
      /\ (is_object_typed (jsxValue (jc st)) = false ->
          exists st2, diff_body fuel st = Ok tt st2)
      /\ (jsxValue (jc st) = JNull \/ jsxValue (jc st) = JObject ->
          diff_body fuel st
          = Throw (ErrUnsupportedValue (jsxValue (jc st))) st))
  /\ (forall fuel n st p v,
        descended_into st = Some p ->
        vnode_getFirstChild (heap st) p <> Some p ->
        renders_as_empty_text v = true ->
        v <> JUndefined ->
        exists st1 st2,
          expectText "" (inside p v st) = Ok tt st1
          /\ text_expected "" (inside p v st) st1
          /\ (descend v true >> diff_inner fuel (S n))%diff st = Ok tt st2
          /\ journal st2 = journal st1 /\ heap st2 = heap st1)
  /\ (forall fuel n st p,
        descended_into st = Some p ->
        vnode_getFirstChild (heap st) p <> Some p ->
        (descend JUndefined true >> diff_inner fuel n >> expectNoMore)%diff st
        = Ok tt (journal_push
                   (encode match vnode_getFirstChild (heap st) p with
                           | Some c => [OpTruncate p c]
                           | None => []
                           end)
                   (inside p JUndefined st))).
Proof.
  split; [|split].
  - intros fuel st. apply non_renderable_turn.
  - intros fuel n st p v Hp Hfc Hr Hv.
    destruct (expectText_total "" (inside p v st)) as (st1 & E1 & Hspec).
    destruct (text_expected_keeps _ _ _ Hspec) as (Hs & Hj & Hc & _).
    assert (Hjc : jc (inside p v st) = mkJsxCursor None 0 1 v)
      by (by destruct v).
    assert (Hst : exists f, stack (inside p v st) = FrameVNode f (vc st) :: stack st)
      by (exists (jc st); by destruct v).
    destruct Hst as (f & Hst).
    assert (Eb : diff_body fuel (inside p v st) = advance st1).
    { unfold diff_body, bind. rewrite assert_ok by done.
      rewrite Hjc. cbn [jsxValue]. destruct v; try done; by rewrite E1. }
    assert (Ea : exists st2, advance st1 = Ok tt st2
                             /\ jsxIdx (jc st2) = 1 /\ jsxCount (jc st2) = 1
                             /\ journal st2 = journal st1
                             /\ heap st2 = heap st1).
    { clear Eb E1 Hspec. unfold advance. rewrite Hs, Hst. cbn [advance_on].
      simpl_state. rewrite Hj, Hjc. simpl_state. cbn [Nat.ltb Nat.leb].
      eexists. split; [reflexivity|].
      unfold advance_cursor. simpl_state.
      destruct (vNewNode (vc st1)), (vSiblings (vc st1)); simpl_state;
        by rewrite Hj, Hjc. }
    destruct Ea as (st2 & Ea & Hi & Hn & Hjn & Hh).
    exists st1, st2. split; [done|]. split; [done|]. split; [|done].
    unfold bind at 1. rewrite (descend_inside p v st Hp).
    cbn [diff_inner]. rewrite Hjc. cbn [jsxIdx jsxCount Nat.ltb Nat.leb].
    unfold bind at 1. rewrite Eb, Ea.
    apply diff_inner_done. by rewrite Hi, Hn.
  - intros fuel n st p Hp Hfc.
    unfold bind at 1. rewrite (descend_inside p JUndefined st Hp).
    unfold bind at 1. rewrite diff_inner_done by reflexivity.
    rewrite expectNoMore_truncates by done.
    unfold truncate_at_cursor, inside. simpl_state. reflexivity.
Qed.
End NonRenderable.

(** ** Attribute reconciliation (C2) *)




Lemma flat_attrs_app a b : flat_attrs (a ++ b) = flat_attrs a ++ flat_attrs b.
Proof. unfold flat_attrs. by rewrite flat_map_app. Qed.

Lemma flat_attrs_length a : length (flat_attrs a) = 2 * length a.
Proof.
  induction a as [|kv a IH]; [done|].
  unfold flat_attrs in *. cbn [flat_map length app]. rewrite IH. lia.
Qed.

Lemma read_key_flat pre rem :
  read_key (flat_attrs (pre ++ rem)) (2 * length pre)
  = (head_key rem, pos_after pre rem).
Proof.
  unfold read_key. rewrite flat_attrs_app, length_app, !flat_attrs_length.
  destruct rem as [|[k v] rem].
  - destruct (Nat.ltb_spec (2 * length pre)
                (2 * length pre + 2 * length (@nil (string * Value))))
      as [Hlt|_]; [cbn [length] in Hlt; lia|done].
  - destruct (Nat.ltb_spec (2 * length pre)
                (2 * length pre + 2 * length ((k, v) :: rem)))
      as [_|Hge]; [|cbn [length] in Hge; lia].
    rewrite <- (flat_attrs_length pre), lookup_app_0.
    rewrite flat_attrs_length. cbn [pos_after]. f_equal. lia.
Qed.

Lemma read_value_flat pre k v rem :
  read_value (flat_attrs (pre ++ (k, v) :: rem)) (2 * length pre + 1) = v.
Proof.
  unfold read_value.
  rewrite flat_attrs_app, <- (flat_attrs_length pre), lookup_app_plus. done.
Qed.

Lemma read_value_at pre k v rem :
  read_value (flat_attrs (pre ++ (k, v) :: rem)) (pos_after pre ((k, v) :: rem))
  = v.
Proof. apply read_value_flat. Qed.

Lemma next_src_at spre k v srem j hd di dk pd :
  next_src (flat_attrs (spre ++ (k, v) :: srem)) 1
    (mkBulk j hd (pos_after spre ((k, v) :: srem)) di (Some k) dk pd)
  = mkBulk j hd (pos_after (spre ++ [(k, v)]) srem) di (head_key srem) dk pd.
Proof.
  unfold next_src. cbn [srcIdx pos_after].
  replace (2 * length spre + 1 + 1) with (2 * length (spre ++ [(k, v)]))
    by (rewrite length_app; cbn [length]; lia).
  replace (spre ++ (k, v) :: srem) with ((spre ++ [(k, v)]) ++ srem)
    by (by rewrite <- app_assoc).
  by rewrite read_key_flat.
Qed.

Lemma next_dst_at dpre k v drem j hd si sk pd :
  next_dst (flat_attrs (dpre ++ (k, v) :: drem)) 1
    (mkBulk j hd si (pos_after dpre ((k, v) :: drem)) sk (Some k) pd)
  = mkBulk j hd si (pos_after (dpre ++ [(k, v)]) drem) sk (head_key drem) pd.
Proof.
  unfold next_dst. cbn [dstIdx pos_after].
  replace (2 * length dpre + 1 + 1) with (2 * length (dpre ++ [(k, v)]))
    by (rewrite length_app; cbn [length]; lia).
  replace (dpre ++ (k, v) :: drem) with ((dpre ++ [(k, v)]) ++ drem)
    by (by rewrite <- app_assoc).
  by rewrite read_key_flat.
Qed.

Lemma block_nil vnode hd : block vnode hd [] = [].
Proof. by destruct hd. Qed.

Lemma record_block vnode j (hd : bool) k v recs :
  (if hd then j else j ++ [EOp Attributes; ENode vnode])
    ++ [EStr k; EVal v] ++ block vnode true recs
  = j ++ block vnode hd ((k, v) :: recs).
Proof.
  destruct hd; cbn [block attr_block encode_op flat_map encode_kv fst snd app];
    [done|]. by rewrite <- app_assoc.
Qed.


#[global] Instance key_lt_trans : Transitive key_lt.
Proof. intros a b c. unfold key_lt. apply string_ltb_trans. Qed.














Section Bulk.
Context {T : Type} `{api : VNodeApi T}.
Implicit Type st : DiffState T.

End Bulk.

(** * The claims on concrete trees *)

Import Scenes.

(** C1.  [<div>{[]}b</div>] is diffed into an empty root and the
    journal applied; the tree is then root, div, text "b".  Diffing the
    same descriptor against that tree does not leave the journal
    empty: the empty array ends its frame with [expectNoMore], which
    truncates the div from the text on, and the text is inserted
    anew. *)
Theorem rediff_with_empty_array_is_not_empty :
  exists st1 st2,
    vnode_diff 10 (container_of empty_root) div_with_empty_array 0
      = Ok tt st1
    /\ journal st1 = encode [OpInsert 0 1 None; OpInsert 1 2 None]
    /\ vnode_applyJournal (journal st1) (heap st1)
       = Ok tt (mkApplyState (applied st1) [] 8)
    /\ SpecTree.children_of (applied st1) 1 = [2]
    /\ vnode_diff 10 (container_of (applied st1)) div_with_empty_array 0
       = Ok tt st2
    /\ journal st2 = encode [OpTruncate 1 2; OpInsert 1 3 None]
    /\ journal st2 <> [].
Proof.
  eexists _, _.
  split; [vm_compute; reflexivity|].
  split; [reflexivity|].
  split; [vm_compute; reflexivity|].
  split; [reflexivity|].
  split; [vm_compute; reflexivity|].
  split; [reflexivity|discriminate].
Qed.

(** The same from a tree that is not empty.  [<>a<span/></>] is
    diffed against a fragment that holds one span: [expectText] inserts
    the text in front of the span without setting [vNewNode], so
    [advance] steps over the span, and a second span is inserted behind
    it.  The next pass with the same descriptor truncates that span. *)
Lemma rediff_after_text_insert_is_not_empty :
  exists st1 st2,
    vnode_diff 10 (container_of fragment_span) fragment_a_span 0
      = Ok tt st1
    /\ journal st1 = encode [OpInsert 1 3 (Some 2); OpInsert 1 4 None]
    /\ SpecTree.children_of (applied st1) 1 = [3; 2; 4]
    /\ vnode_diff 10 (container_of (applied st1)) fragment_a_span 0
       = Ok tt st2
    /\ journal st2 = encode [OpTruncate 1 4].
Proof.
  eexists _, _.
  split; [vm_compute; reflexivity|].
  split; [reflexivity|].
  split; [reflexivity|].
  split; [vm_compute; reflexivity|].
  reflexivity.
Qed.

(** C3.  The children li A, li B, li C of a list are diffed against
    the same keyed items in the order C, A, B: the journal is the one
    operation "move C in front of A" -- one Move, no Insert, no
    Remove -- the diff creates no node, and after the journal is
    applied the list holds the same three nodes, in the order C, A, B,
    each with the tag and key it had. *)
Theorem keyed_reorder_moves_once :
  exists st,
    vnode_diff 10 (container_of list_abc) ul_cab 0 = Ok tt st
    /\ journal st = encode [OpMove 1 4 (Some 2)]
    /\ count_ops is_move [OpMove 1 4 (Some 2)] = 1
    /\ count_ops is_insert [OpMove 1 4 (Some 2)] = 0
    /\ count_ops is_remove [OpMove 1 4 (Some 2)] = 0
    /\ SpecTree.nodes (heap st) = SpecTree.nodes list_abc
    /\ SpecTree.children_of list_abc 1 = [2; 3; 4]
    /\ SpecTree.children_of (applied st) 1 = [4; 2; 3]
    /\ (forall v, v ∈ [2; 3; 4] ->
          SpecTree.get (applied st) v = SpecTree.get list_abc v).
Proof.
  eexists.
  split; [vm_compute; reflexivity|].
  repeat (split; [reflexivity|]).
  intros v Hv. repeat (apply elem_of_cons in Hv as [->|Hv]; [reflexivity|]).
  by apply elem_of_nil in Hv.
Qed.

(** The end of a frame, of whatever kind.  When the descriptors of
    a frame are used up, the turn of the outer loop pushes exactly
    what [truncate_at_cursor] says -- one Truncate of the parent from
    the cursor on, or nothing when the cursor is past the last child
    -- and ascends.  For a [div] with three children diffed against
    [<div/>] the journal is that one Truncate, from the first child
    on, and applying it leaves the [div] without children. *)
Lemma frame_end_truncates_once :
  (forall T (api : VNodeApi T) (st : DiffState T) fuel n,
      stack st <> [] ->
      jsxCount (jc st) <= jsxIdx (jc st) ->
      vCurrent (vc st) <> Some (vParent (vc st)) ->
      length (truncate_at_cursor st) <= 1
      /\ (vCurrent (vc st) = None -> truncate_at_cursor st = [])
      /\ diff_outer fuel (S n) st
         = (ascend >> diff_outer fuel n)%diff
             (journal_push (encode (truncate_at_cursor st)) st))
  /\ (exists st,
         vnode_diff 10 (container_of div_three) empty_div 0 = Ok tt st
         /\ journal st = encode [OpTruncate 1 2]
         /\ SpecTree.children_of div_three 1 = [2; 3; 4]
         /\ vnode_applyJournal (journal st) (heap st)
            = Ok tt (mkApplyState (applied st) [] 3)
         /\ SpecTree.children_of (applied st) 1 = []).
Proof.
  split.
  - intros T api st fuel n Hs Hle Hpc. split; [|split].
    + unfold truncate_at_cursor. destruct (vCurrent (vc st)); cbn; lia.
    + unfold truncate_at_cursor. by intros ->.
    + by apply frame_end.
  - eexists. split; [vm_compute; reflexivity|].
    repeat (split; [reflexivity|]). reflexivity.
Qed.

Lemma frame_end_truncates_once_witness :
  let st := inside 1 JUndefined (at_child div_three 0 (Some 1) empty_div) in
  diff_outer 1 1 st
  = (ascend >> diff_outer 1 0)%diff
      (journal_push (encode [OpTruncate 1 2]) st).
Proof.
  intros st.
  apply (proj1 frame_end_truncates_once SpecTree.Tree scene_api st 1 0).
  - discriminate.
  - cbn. lia.
  - discriminate.
Defined.

(** C5.  [<div>{[[], []]}</div>] has no child to render, so none of
    the three children of the [div] has a descriptor and the claim
    promises the one Truncate from the first child on.  The pass
    pushes three.  Each empty array is a frame of its own: its end
    truncates from the cursor on, although the list around it is not
    exhausted, and the cursor then moves one child ahead; the end of
    the frame of the [div] truncates once more.  The empty child list
    of [<div>{[]}</div>] is the frame of the [div] itself, and gets
    the one Truncate. *)
Theorem empty_child_lists_truncate_thrice :
  (exists st,
      vnode_diff 10 (container_of div_three) div_empty_arrays 0 = Ok tt st
      /\ SpecTree.children_of div_three 1 = [2; 3; 4]
      /\ journal st
         = encode [OpTruncate 1 2; OpTruncate 1 3; OpTruncate 1 4]
      /\ count_ops is_truncate
           [OpTruncate 1 2; OpTruncate 1 3; OpTruncate 1 4] = 3
      /\ journal st <> encode [OpTruncate 1 2])
  /\ (exists st,
         vnode_diff 10 (container_of div_three) div_empty_list 0 = Ok tt st
         /\ journal st = encode [OpTruncate 1 2]).
Proof.
  split; eexists.
  - split; [vm_compute; reflexivity|].
    split; [reflexivity|].
    split; [reflexivity|].
    split; [reflexivity|discriminate].
  - split; [vm_compute; reflexivity|reflexivity].
Qed.




(** C6, as stated, fails: nothing is removed before a text descriptor
    is matched.  A fragment holds the texts "a" and "b"; diffed against
    [<>b</>], the text "a" (which has no descriptor) is not removed:
    it is given the text "b", and the node "b" goes with the Truncate
    at the end of the frame.  The journal has no Remove. *)
Lemma stale_text_survives_text_descriptor :
  exists st,
    vnode_diff 10 (container_of texts_ab) fragment_b 0 = Ok tt st
    /\ journal st = encode [OpTextSet 2 "b"; OpTruncate 1 3]
    /\ count_ops is_remove [OpTextSet 2 "b"; OpTruncate 1 3] = 0
    /\ diff_body 10 (at_child texts_ab 1 (Some 2) (JString "b"))
       = advance (journal_push (encode [OpTextSet 2 "b"])
                    (at_child texts_ab 1 (Some 2) (JString "b"))).
Proof.
  eexists. split; [vm_compute; reflexivity|].
  repeat (split; [reflexivity|]). reflexivity.
Qed.

(** C6, amended.  The text nodes at the cursor are removed, one Remove
    each, and the cursor put behind them, before an element, a fragment
    or a component descriptor is matched: the turn for such a
    descriptor is the rest of the turn run on the purged state.  A
    string or number descriptor is matched against the node at the
    cursor as it is: the turn is [advance] after what [expectText]
    does, which pushes nothing, one TextSet or one Insert. *)
Theorem stale_text_purged_before_nodes_only :
  forall T (api : VNodeApi T) (st : DiffState T) fuel,
    vCurrent (vc st) <> Some (vParent (vc st)) ->
    (forall texts rest,
        text_run (heap st) (vCurrent (vc st)) texts rest ->
        length texts <= fuel ->
        let purged :=
          set_vCurrent rest
            (journal_push (encode (map (OpRemove (vParent (vc st))) texts))
               st) in
        expectNoMoreTextNodes fuel st = Ok tt purged
        /\ (forall tag props key children attrs,
              jsxValue (jc st) = JNode (TTag tag) props key children attrs ->
              diff_body fuel st
              = (expectElement fuel props key attrs tag >>
                 descend children true)%diff purged)
        /\ (forall props key children attrs,
              jsxValue (jc st) = JNode TFragment props key children attrs ->
              diff_body fuel st
              = (expectVirtual >> descend children true)%diff purged)
        /\ (forall q props key children attrs,
              jsxValue (jc st)
                = JNode (TComponent q) props key children attrs ->
              diff_body fuel st
              = (expectVirtual >> expectComponent q >> advance)%diff purged))
    /\ (forall text,
           jsxValue (jc st) = JString text
           \/ (exists n, jsxValue (jc st) = JNumber n
                         /\ text = String_of_number n) ->
           exists st1, text_expected text st st1
                       /\ diff_body fuel st = advance st1).
Proof.
  intros T api st fuel Hpc. split.
  - intros texts rest Hrun Hf purged.
    pose proof (expectNoMoreTextNodes_run texts fuel st rest Hrun Hf) as E.
    fold purged in E.
    split; [exact E|].
    repeat split; intros; unfold diff_body, bind at 1;
      rewrite (assert_ok _ Hpc);
      match goal with H : jsxValue _ = _ |- _ => rewrite H end;
      unfold bind at 1; by rewrite E.
  - intros text Hj. by apply text_turn.
Qed.

Lemma stale_text_purged_before_nodes_only_witness :
  let st := at_child div_three 1 (Some 2) empty_div in
  expectNoMoreTextNodes 1 st
  = Ok tt (set_vCurrent (Some 3)
             (journal_push (encode [OpRemove 1 2]) st)).
Proof.
  intros st.
  assert (Hpc : vCurrent (vc st) <> Some (vParent (vc st))) by discriminate.
  apply (proj1 (stale_text_purged_before_nodes_only
                  SpecTree.Tree scene_api st 1 Hpc) [2] (Some 3)).
  - cbn. repeat split; discriminate.
  - cbn. lia.
Defined.

(** The hypotheses of C9 hold of a slot met in an empty root, of
    [null] handed to [vnode_diff], and of the opcode 5
    ([ElementInsert]) behind one Remove. *)
Lemma unsupported_input_is_fatal_witness :
  (let st := at_child empty_root 0 None
               (JNode TSlot ∅ None JUndefined None) in
   diff_body 1 st = Throw ErrSlot st
   /\ diff_inner 1 1 st = Throw ErrSlot st
   /\ diff_outer 2 1 st = Throw ErrSlot st)
  /\ (exists st,
         vnode_diff 1 (container_of empty_root) JNull 0
           = Throw (ErrUnsupportedValue JNull) st
         /\ journal st = []
         /\ heap st = empty_root
         /\ asyncQueue st = [])
  /\ vnode_applyJournal (encode [OpRemove 1 2] ++ [EVal (ANum 5)]) div_three
     = Throw (ErrUnsupportedOpCode (EVal (ANum 5)))
         (mkApplyState (SpecTree.remove div_three 1 2 true)
            (encode [OpRemove 1 2] ++ [EVal (ANum 5)]) 4).
Proof.
  destruct (@unsupported_input_is_fatal SpecTree.Tree scene_api)
    as (H1 & H2 & H3).
  split; [|split].
  - intros st. apply (H1 1 0 st ErrSlot).
    + discriminate.
    + cbn. lia.
    + discriminate.
    + reflexivity.
  - apply (H2 0 (container_of empty_root) JNull 0 (ErrUnsupportedValue JNull)).
    + discriminate.
    + reflexivity.
  - apply (H3 [OpRemove 1 2] 5%Z [] div_three). exact I.
Defined.

(** C10, as stated, fails for the missing child it names.  The
    fragment [<></>] has no child list; diffed against a fragment that
    holds the texts "a" and "b", the text at the cursor is not reused
    with its text set to [""], it is truncated with everything behind
    it; diffed against a fragment without children, no empty text node
    is inserted.  As an item of a child list, [undefined] is diffed as
    the claim says: [<>{undefined}b</>] sets the text "a" to [""]. *)
Lemma missing_child_is_no_empty_text :
  (exists st,
      vnode_diff 10 (container_of texts_ab) fragment_no_child 0 = Ok tt st
      /\ journal st = encode [OpTruncate 1 2]
      /\ (OpTextSet 2 "" ∉ [OpTruncate 1 2])
      /\ SpecTree.children_of texts_ab 1 = [2; 3]
      /\ SpecTree.children_of (applied st) 1 = [])
  /\ (exists st,
         vnode_diff 10 (container_of fresh_host) fragment_no_child 0
           = Ok tt st
         /\ journal st = [])
  /\ (exists st,
         vnode_diff 10 (container_of texts_ab) fragment_undefined_b 0
           = Ok tt st
         /\ journal st = encode [OpTextSet 2 ""]).
Proof.
  split; [|split].
  - eexists. split; [vm_compute; reflexivity|].
    split; [reflexivity|].
    split; [by intros [=]%list_elem_of_singleton|].
    split; reflexivity.
  - eexists. split; [vm_compute; reflexivity|reflexivity].
  - eexists. split; [vm_compute; reflexivity|reflexivity].
Qed.

(** The hypotheses of C10 hold in the pass over [<>{undefined}b</>]
    against the texts "a" and "b", at the turn on [undefined]; of the
    sole child [true] of a fragment; and of a fragment without child
    list, whose first child, the text "a", is truncated. *)
Lemma non_renderable_child_is_empty_text_witness :
  (let st := after_turn (at_child texts_ab 0 (Some 1) fragment_undefined_b) in
   jsxValue (jc st) = JUndefined
   /\ exists st1 st2,
        expectText "" st = Ok tt st1
        /\ text_expected "" st st1
        /\ advance st1 = Ok tt st2
        /\ diff_body 1 st = Ok tt st2
        /\ journal st2 = journal st1 /\ heap st2 = heap st1)
  /\ (let st := at_child texts_ab 0 (Some 1) fragment_true in
      exists st1 st2,
        expectText "" (inside 1 (JBoolean true) st) = Ok tt st1
        /\ text_expected "" (inside 1 (JBoolean true) st) st1
        /\ (descend (JBoolean true) true >> diff_inner 1 1)%diff st
           = Ok tt st2
        /\ journal st2 = journal st1 /\ heap st2 = heap st1)
  /\ (let st := at_child texts_ab 0 (Some 1) fragment_no_child in
      (descend JUndefined true >> diff_inner 1 0 >> expectNoMore)%diff st
      = Ok tt (journal_push (encode [OpTruncate 1 2])
                 (inside 1 JUndefined st))).
Proof.
  destruct (@non_renderable_child_is_empty_text SpecTree.Tree scene_api)
    as (H1 & H2 & H3).
  split; [|split].
  - intros st. split; [reflexivity|].
    apply (H1 1 st).
    + discriminate.
    + split; [exact I|]. repeat constructor.
    + reflexivity.
  - intros st. apply (H2 1 0 st 1 (JBoolean true)).
    + reflexivity.
    + discriminate.
    + reflexivity.
    + discriminate.
  - intros st. apply (H3 1 0 st 1).
    + reflexivity.
    + discriminate.
Defined.

(** The hypotheses of C4 hold of a host that rendered [the_qrl] with
    the props x=1: the same props enqueue nothing, x=2 enqueues one
    pair. *)
Lemma component_rerender_gating_witness :
  (let st := at_child rendered_host 0 (Some 1) (component (props_x 1)) in
   expectComponent the_qrl st = Ok tt st
   /\ asyncQueue (outcome_state (diff_body 1 st)) = asyncQueue st)
  /\ (let st := at_child rendered_host 0 (Some 1) (component (props_x 2)) in
      exists jsx h,
        executeComponent2 (heap st) 1 the_qrl (props_x 2) = (jsx, h)
        /\ expectComponent the_qrl st
           = Ok tt (set_asyncQueue (asyncQueue st ++ [(jsx, 1)])
                      (set_heap h st))
        /\ asyncQueue (outcome_state (diff_body 1 st))
           = asyncQueue st ++ [(jsx, 1)]).
Proof.
  split; intros st.
  - apply (component_rerender_gating st 1 1 the_qrl (props_x 1) None
             JUndefined None (props_x 1)); try reflexivity; try discriminate.
  - apply (proj2 (component_rerender_gating st 1 1 the_qrl (props_x 2) None
                    JUndefined None (props_x 1)
                    eq_refl ltac:(discriminate) ltac:(discriminate)
                    eq_refl eq_refl eq_refl eq_refl)
             "x" (ANum 2) (ANum 1)).
    + reflexivity.
    + discriminate.
    + reflexivity.
Defined.

(** ** What a diff pass does to the tree (C7) *)

Section Frame.
Context {T : Type} `{api : VNodeApi T}.

(** A relation between trees that the writes a diff pass makes
    respect: creating DOM nodes and VNodes, inflating, storing the
    render function of a host, expanding a component, attaching the
    dispatch adapter. *)
Variable R : T -> T -> Prop.
Hypothesis R_refl : forall t, R t t.
Hypothesis R_trans : forall a b c, R a b -> R b c -> R a c.
Hypothesis R_createElement :
  forall t tag, R t (document_createElement t tag).2.
Hypothesis R_createTextNode :
  forall t text, R t (document_createTextNode t text).2.
Hypothesis R_newElement : forall t p d tag, R t (vnode_newElement t p d tag).2.
Hypothesis R_newText : forall t p d text, R t (vnode_newText t p d text).2.
Hypothesis R_newVirtual : forall t p, R t (vnode_newVirtual t p).2.
Hypothesis R_inflate : forall t v, R t (vnode_ensureElementInflated t v).
Hypothesis R_setRender : forall t v x, R t (vnode_setProp t v OnRenderProp x).
Hypothesis R_execute : forall t h q p, R t (executeComponent2 t h q p).2.
Hypothesis R_dispatch : forall t d v, R t (elem_set_qDispatchEvent t d v).

Lemma keeps_bind {A B} (m : M (DiffState T) A) (k : A -> M (DiffState T) B) :
  keeps R m -> (forall a, keeps R (k a)) -> keeps R (bind m k).
Proof.
  intros Hm Hk st. unfold bind. specialize (Hm st).
  destruct (m st) as [a s'|e s'|s']; cbn in *; [|done..].
  eapply R_trans; [exact Hm|apply Hk].
Qed.

Lemma keeps_assert : keeps R assert_parent_not_current.
Proof. intros st. unfold assert_parent_not_current. by case_bool_decide. Qed.

Lemma keeps_advance : keeps R advance.
Proof.
  intros st. destruct (advance_on_frame (stack st) st) as (H & _).
  unfold advance. cbn zeta in H. by rewrite H.
Qed.

Lemma keeps_ascend : keeps R ascend.
Proof.
  intros st. unfold ascend.
  destruct (stack st) as [|[j|j v] rest]; by_keeps keeps_advance.
Qed.

Lemma keeps_descend children b : keeps R (descend children b).
Proof.
  intros st. unfold descend, stackPush.
  destruct b; destruct children; simpl_state;
    repeat match goal with |- context [match ?x with _ => _ end] =>
             destruct x end; done.
Qed.

Lemma keeps_expectNoMore : keeps R expectNoMore.
Proof.
  unfold expectNoMore. apply keeps_bind; [apply keeps_assert|].
  intros _ st. by destruct (vCurrent (vc st)).
Qed.

Lemma keeps_expectNoMoreTextNodes fuel : keeps R (expectNoMoreTextNodes fuel).
Proof.
  induction fuel as [|fuel IH]; intros st; cbn [expectNoMoreTextNodes];
    destruct (vCurrent (vc st)) as [c|]; try done;
    destruct (vnode_getType (heap st) c =? 3)%Z; try done.
  apply (IH (set_vCurrent _ (journal_push _ st))).
Qed.

Lemma keeps_expectText text : keeps R (expectText text).
Proof.
  intros st. destruct (expectText_total text st) as (st1 & -> & Hspec).
  cbn [outcome_state]. unfold text_expected, inserted_text in Hspec.
  assert (Hins : (exists dom h n h',
                     document_createTextNode (heap st) text = (dom, h)
                     /\ vnode_newText h (vParent (vc st)) dom text = (n, h')
                     /\ st1 = journal_push
                                [EOp Insert; ENode (vParent (vc st)); ENode n;
                                 ENodeOrNull (vCurrent (vc st))]
                                (set_heap h' st)) ->
                 R (heap st) (heap st1)).
  { intros (dom & h & n & h' & E1 & E2 & ->). simpl_state.
    eapply R_trans.
    - pose proof (R_createTextNode (heap st) text) as H. by rewrite E1 in H.
    - pose proof (R_newText h (vParent (vc st)) dom text) as H.
      by rewrite E2 in H. }
  destruct (vCurrent (vc st)) as [c|]; [|by apply Hins].
  destruct (vnode_getType (heap st) c =? 3)%Z; [|by apply Hins].
  destruct (String.eqb text _); by subst.
Qed.

Lemma keeps_expectVirtual : keeps R expectVirtual.
Proof.
  intros st. unfold expectVirtual.
  pose proof (R_newVirtual (heap st) (vParent (vc st))) as H.
  destruct (vCurrent (vc st)) as [c|];
    [destruct (vnode_isVirtualVNode (heap st) c); [done|]|];
    by destruct (vnode_newVirtual _ _).
Qed.

Lemma keeps_insert_new_element tag : keeps R (insert_new_element tag).
Proof.
  intros st. unfold insert_new_element.
  pose proof (R_createElement (heap st) tag) as H1.
  destruct (document_createElement _ _) as [dom h].
  pose proof (R_newElement h (vParent (vc st)) dom tag) as H2.
  destruct (vnode_newElement _ _ _ _) as [n h']. simpl_state.
  by eapply R_trans.
Qed.

Lemma keeps_retrieveChildWithKey fuel key :
  keeps R (retrieveChildWithKey fuel key).
Proof.
  intros st. unfold retrieveChildWithKey.
  destruct (vSiblingsIdx (vc st) =? -1)%Z.
  - by destruct (materialize _ _ _ _ _ _) as [[]|].
  - destruct (vSiblings (vc st)); [|done].
    by destruct (search_siblings _ _ _ _).
Qed.

Lemma keeps_setBulkProps fuel vnode srcAttrs :
  keeps R (setBulkProps fuel vnode srcAttrs).
Proof.
  intros st. unfold setBulkProps.
  destruct (read_key srcAttrs 0), (read_key _ 0).
  destruct (setBulkProps_loop _ _ _ _ _) as [[] b|e b|b]; simpl_state;
    try apply R_inflate.
  destruct (patchEventDispatch b); [|apply R_inflate].
  destruct (negb _); simpl_state; [|apply R_inflate].
  eapply R_trans; [apply R_inflate|apply R_dispatch].
Qed.

Lemma keeps_reconcile_element fuel tag matched jsxKey :
  keeps R (reconcile_element fuel tag matched jsxKey).
Proof.
  unfold reconcile_element. destruct matched; [intros st; apply R_refl|].
  assert (Hk : keeps R (let* found := retrieveChildWithKey fuel jsxKey in
                      match found with
                      | None => insert_new_element tag
                      | Some n => fun st =>
                          let st := set_vNewNode (Some n) st in
                          Ok tt (journal_push
                                   [EOp Move; ENode (vParent (vc st)); ENode n;
                                    ENodeOrNull (vCurrent (vc st))] st)
                      end)%diff).
  { apply keeps_bind; [apply keeps_retrieveChildWithKey|].
    intros [n|]; [|exact (keeps_insert_new_element tag)].
    intros s'. apply R_refl. }
  destruct jsxKey; [exact Hk|exact (keeps_insert_new_element tag)|exact Hk].
Qed.

Lemma keeps_reconcile_attributes fuel jsxAttrs :
  keeps R (reconcile_attributes fuel jsxAttrs).
Proof.
  intros st. unfold reconcile_attributes.
  destruct (vNewNode (vc st)) as [n|];
    [exact (keeps_setBulkProps fuel n jsxAttrs st)|].
  destruct (vCurrent (vc st)) as [n|];
    [exact (keeps_setBulkProps fuel n jsxAttrs st)|apply R_refl].
Qed.

Lemma keeps_expectElement fuel props key attrs tag :
  keeps R (expectElement fuel props key attrs tag).
Proof.
  intros st. unfold expectElement. cbv zeta.
  refine (keeps_bind _ _ (keeps_reconcile_element _ _ _ _) _ st).
  intros _. apply keeps_reconcile_attributes.
Qed.

Lemma keeps_expectComponent q : keeps R (expectComponent q).
Proof.
  intros st. unfold expectComponent.
  assert (Hhost : forall host,
    R (heap st)
      (heap (outcome_state
         (let vNodeQrl := vnode_getProp (heap st) host OnRenderProp
                            (Some getObjectById) in
          let hashDiffers :=
            negb (bool_decide (Some (qrl_hash q) = hash_of vNodeQrl)) in
          let st0 := if hashDiffers
                     then set_heap (vnode_setProp (heap st) host OnRenderProp
                                      (VQrl (qrl_hash q))) st
                     else st in
          let vNodeProps := vnode_getProp (heap st0) host ELEMENT_PROPS
                              (Some getObjectById) in
          let jsxProps := match jsxValue (jc st0) with
                          | JNode _ props _ _ _ => props
                          | _ => ∅
                          end in
          let render (st : DiffState T) :=
            let '(jsx, h) := executeComponent2 (heap st) host q jsxProps in
            Ok tt (set_asyncQueue (asyncQueue st ++ [(jsx, host)])
                     (set_heap h st)) in
          if hashDiffers then render st0
          else
            match props_differ jsxProps vNodeProps with
            | inl e => Throw e st0
            | inr true => render st0
            | inr false => Ok tt st0
            end)))).
  { intros host. cbv zeta.
    assert (Hrender : forall (s : DiffState T) p,
              R (heap s)
                (heap (outcome_state
                   (let '(jsx, h) := executeComponent2 (heap s) host q p in
                    Ok tt (set_asyncQueue (asyncQueue s ++ [(jsx, host)])
                             (set_heap h s))
                    : Outcome (DiffState T) unit)))).
    { intros s p. pose proof (R_execute (heap s) host q p) as H.
      by destruct (executeComponent2 _ _ _ _). }
    destruct (negb _).
    - eapply R_trans; [|apply Hrender]. simpl_state. apply R_setRender.
    - destruct (props_differ _ _) as [e|[]]; [apply R_refl|apply Hrender
                                              |apply R_refl]. }
  destruct (vCurrent (vc st)) as [host|]; [apply Hhost|].
  destruct (vNewNode (vc st)) as [host|]; [apply Hhost|apply R_refl].
Qed.

Lemma keeps_diff_body fuel : keeps R (diff_body fuel).
Proof.
  unfold diff_body. apply keeps_bind; [apply keeps_assert|].
  intros _ st.
  destruct (jsxValue (jc st)) as [s|n| | | | |items| |type props key children attrs| ];
    try apply R_refl.
  - refine (keeps_bind _ _ (keeps_expectText _) (fun _ => keeps_advance) st).
  - refine (keeps_bind _ _ (keeps_expectText _) (fun _ => keeps_advance) st).
  - refine (keeps_bind _ _ (keeps_expectText _) (fun _ => keeps_advance) st).
  - refine (keeps_bind _ _ (keeps_expectText _) (fun _ => keeps_advance) st).
  - refine (keeps_bind _ _ (keeps_expectText _) (fun _ => keeps_advance) st).
  - destruct type as [tag| | |q| ]; try apply R_refl.
    + refine (keeps_bind _ _ (keeps_expectNoMoreTextNodes _) _ st).
      intros _. apply keeps_bind; [apply keeps_expectElement|].
      intros _. apply keeps_descend.
    + refine (keeps_bind _ _ (keeps_expectNoMoreTextNodes _) _ st).
      intros _. apply keeps_bind; [apply keeps_expectVirtual|].
      intros _. apply keeps_descend.
    + refine (keeps_bind _ _ (keeps_expectNoMoreTextNodes _) _ st).
      intros _. apply keeps_bind; [apply keeps_expectVirtual|].
      intros _. apply keeps_bind; [apply keeps_expectComponent|].
      intros _. apply keeps_advance.
Qed.

Lemma keeps_diff_inner fuel n : keeps R (diff_inner fuel n).
Proof.
  induction n as [|n IH]; intros st; cbn [diff_inner];
    destruct (Nat.ltb _ _); try apply R_refl.
  refine (keeps_bind _ _ (keeps_diff_body fuel) (fun _ => IH) st).
Qed.

Lemma keeps_diff_outer fuel n : keeps R (diff_outer fuel n).
Proof.
  induction n as [|n IH]; intros st; cbn [diff_outer];
    destruct (stack st); try apply R_refl.
  refine (keeps_bind _ _ (keeps_diff_inner fuel fuel) _ st).
  intros _. apply keeps_bind; [apply keeps_expectNoMore|].
  intros _. apply keeps_bind; [apply keeps_ascend|]. intros _. exact IH.
Qed.

Lemma keeps_diff fuel jsx vStart : keeps R (diff fuel jsx vStart).
Proof.
  intros st. unfold diff. cbv zeta.
  assert (Hh : forall s : DiffState T, heap (stackPush jsx true s) = heap s)
    by (intros s; unfold stackPush; by destruct jsx).
  set (s0 := set_vc _ st).
  pose proof (keeps_diff_outer fuel fuel (stackPush jsx true s0)) as H.
  rewrite Hh in H. exact H.
Qed.


End Frame.

(** *** The reference tree under a diff pass *)

Section Links.
Import SpecTree.

Lemma links_kept_refl t : links_kept t t.
Proof.
  split; [eauto|]. intros v n' Hv Hle.
  apply lookup_lt_Some in Hv. lia.
Qed.

Lemma links_kept_trans a b c :
  links_kept a b -> links_kept b c -> links_kept a c.
Proof.
  intros [Hab Hab'] [Hbc Hbc']. split.
  - intros v n Hv. destruct (Hab v n Hv) as (n1 & H1 & Hk & Hp & Hc).
    destruct (Hbc v n1 H1) as (n2 & H2 & Hk2 & Hp2 & Hc2).
    exists n2. repeat split; congruence.
  - intros v n' Hv Hle.
    destruct (nodes b !! v) as [nb|] eqn:Eb.
    + destruct (Hbc v nb Eb) as (n2 & H2 & _ & _ & Hc2).
      rewrite Hv in H2. inversion H2; subst n2.
      rewrite Hc2. by apply (Hab' v).
    + apply (Hbc' v n' Hv). by apply lookup_ge_None.
Qed.

Lemma links_kept_same_nodes t t' : nodes t' = nodes t -> links_kept t t'.
Proof.
  intros E. unfold links_kept. rewrite E. apply links_kept_refl.
Qed.

Lemma links_kept_alloc t n :
  vn_children n = [] -> links_kept t (alloc t n).2.
Proof.
  intros Hn. unfold alloc. cbn [snd nodes]. split.
  - intros v n0 Hv. exists n0. cbn [nodes].
    split; [by apply lookup_app_l_Some|done].
  - intros v n' Hv Hle. cbn [nodes] in Hv. rewrite lookup_app_r in Hv by done.
    destruct (v - length (nodes t)) as [|k]; cbn in Hv; [|done].
    by inversion Hv; subst.
Qed.

Lemma links_kept_update t v f :
  (forall n, vn_kind (f n) = vn_kind n /\ vn_parent (f n) = vn_parent n
             /\ vn_children (f n) = vn_children n) ->
  links_kept t (update t v f).
Proof.
  intros Hf. unfold update. split; cbn [nodes].
  - intros v0 n Hv. destruct (decide (v = v0)) as [->|Hne].
    + exists (f n). rewrite list_lookup_alter_eq, Hv. cbn.
      split; [done|]. apply Hf.
    + exists n. by rewrite list_lookup_alter_ne.
  - intros v0 n' Hv Hle. apply lookup_lt_Some in Hv.
    rewrite length_alter in Hv. lia.
Qed.
End Links.



(** ** The journal a diff leaves is a sequence of operations *)

Lemma encode_app a b : encode (a ++ b) = encode a ++ encode b.
Proof. unfold encode. by rewrite flat_map_app. Qed.

Lemma attr_block_encode vnode recs :
  attr_block vnode recs
  = encode (match recs with [] => [] | _ :: _ => [OpAttributes vnode recs] end).
Proof. destruct recs; cbn; by rewrite ?app_nil_r. Qed.

Lemma next_src_keeps a k b :
  b_journal (next_src a k b) = b_journal b
  /\ hasDiffs (next_src a k b) = hasDiffs b.
Proof. unfold next_src. by destruct (read_key _ _). Qed.

Lemma next_dst_keeps a k b :
  b_journal (next_dst a k b) = b_journal b
  /\ hasDiffs (next_dst a k b) = hasDiffs b.
Proof. unfold next_dst. by destruct (read_key _ _). Qed.

(** Whatever the two arrays hold, the loop of [setBulkProps] pushes one
    run of key/value pairs, with the Attributes opcode in front unless
    it is there already. *)
Lemma setBulkProps_loop_pushes vnode srcAttrs dstAttrs fuel : forall b,
  exists recs,
    b_journal (outcome_state
                 (setBulkProps_loop fuel vnode srcAttrs dstAttrs b))
    = b_journal b ++ block vnode (hasDiffs b) recs.
Proof.
  induction fuel as [|fuel IH]; intros b.
  - exists []. rewrite block_nil, app_nil_r.
    cbn [setBulkProps_loop]. by destruct (srcKey b), (dstKey b).
  - cbn [setBulkProps_loop].
    assert (Hkeep : forall b' : BulkState,
              b_journal b' = b_journal b -> hasDiffs b' = hasDiffs b ->
              exists recs,
                b_journal (outcome_state
                   (setBulkProps_loop fuel vnode srcAttrs dstAttrs b'))
                = b_journal b ++ block vnode (hasDiffs b) recs).
    { intros b' Hj Hd. destruct (IH b') as [recs E].
      exists recs. by rewrite E, Hj, Hd. }
    assert (Hrec : forall (b' b0 : BulkState) k v,
              b_journal b0 = b_journal b -> hasDiffs b0 = hasDiffs b ->
              b_journal b' = b_journal (record vnode k v b0) ->
              hasDiffs b' = true ->
              exists recs,
                b_journal (outcome_state
                   (setBulkProps_loop fuel vnode srcAttrs dstAttrs b'))
                = b_journal b ++ block vnode (hasDiffs b) recs).
    { intros b' b0 k v Hj0 Hd0 Hj Hd. destruct (IH b') as [recs E].
      exists ((k, v) :: recs). rewrite E, Hj, Hd, <- record_block.
      unfold record. cbn [b_journal]. rewrite Hj0, Hd0.
      by rewrite <- app_assoc. }
    destruct (srcKey b) as [srcK|], (dstKey b) as [dstK|].
    + destruct (String.eqb srcK dstK).
      * destruct (strict_ne _ _).
        -- eapply (Hrec _ b); [done|done|..];
             by rewrite (proj1 (next_dst_keeps _ _ _)) || rewrite (proj2 (next_dst_keeps _ _ _));
             rewrite (proj1 (next_src_keeps _ _ _)) || rewrite (proj2 (next_src_keeps _ _ _)).
        -- apply Hkeep;
             by rewrite (proj1 (next_dst_keeps _ _ _)) || rewrite (proj2 (next_dst_keeps _ _ _));
             rewrite (proj1 (next_src_keeps _ _ _)) || rewrite (proj2 (next_src_keeps _ _ _)).
      * destruct (String.ltb srcK dstK).
        -- eapply (Hrec _ b); [done|done|..];
             by rewrite (proj1 (next_src_keeps _ _ _)) || rewrite (proj2 (next_src_keeps _ _ _)).
        -- eapply (Hrec _ b); [done|done|..];
             by rewrite (proj1 (next_dst_keeps _ _ _)) || rewrite (proj2 (next_dst_keeps _ _ _)).
    + eapply (Hrec _ (if isEventKey srcK then set_patch b else b));
        [by destruct (isEventKey srcK)|by destruct (isEventKey srcK)|..];
        by rewrite (proj1 (next_src_keeps _ _ _)) || rewrite (proj2 (next_src_keeps _ _ _)).
    + destruct (startsWith dstK "on:").
      * apply Hkeep;
          by rewrite (proj1 (next_dst_keeps _ _ _)) || rewrite (proj2 (next_dst_keeps _ _ _)).
      * eapply (Hrec _ b); [done|done|..];
          by rewrite (proj1 (next_dst_keeps _ _ _)) || rewrite (proj2 (next_dst_keeps _ _ _)).
    + exists []. by rewrite block_nil, app_nil_r.
Qed.

Section Pushes.
Context {T : Type} `{api : VNodeApi T}.

Lemma pushes_nothing {A} (m : M (DiffState T) A) :
  (forall st, journal (outcome_state (m st)) = journal st) -> pushes_ops m.
Proof. intros H st. exists []. by rewrite H, app_nil_r. Qed.

Lemma pushes_bind {A B} (m : M (DiffState T) A) (k : A -> M (DiffState T) B) :
  pushes_ops m -> (forall a, pushes_ops (k a)) -> pushes_ops (bind m k).
Proof.
  intros Hm Hk st. unfold bind. destruct (Hm st) as [ops1 E1].
  destruct (m st) as [a s'|e s'|s']; cbn in *; [|by exists ops1..].
  destruct (Hk a s') as [ops2 E2]. exists (ops1 ++ ops2).
  by rewrite E2, E1, encode_app, app_assoc.
Qed.

Lemma pushes_advance : pushes_ops advance.
Proof.
  apply pushes_nothing. intros st.
  by destruct (advance_on_frame (stack st) st) as (_ & H & _).
Qed.

Lemma pushes_ascend : pushes_ops ascend.
Proof.
  apply pushes_nothing. intros st. unfold ascend.
  destruct (stack st) as [|[j|j v] rest];
    match goal with
    | |- journal (outcome_state (advance ?s)) = _ =>
        by destruct (advance_on_frame (stack s) s) as (_ & H & _)
    end.
Qed.

Lemma pushes_descend children b : pushes_ops (descend children b).
Proof.
  apply pushes_nothing. intros st. unfold descend, stackPush.
  destruct b; destruct children; simpl_state;
    repeat match goal with |- context [match ?x with _ => _ end] =>
             destruct x end; done.
Qed.

Lemma pushes_assert : pushes_ops (T:=T) assert_parent_not_current.
Proof.
  apply pushes_nothing. intros st. unfold assert_parent_not_current.
  by case_bool_decide.
Qed.

Lemma pushes_expectNoMore : pushes_ops (T:=T) expectNoMore.
Proof.
  unfold expectNoMore. apply pushes_bind; [apply pushes_assert|].
  intros _ st. destruct (vCurrent (vc st)) as [c|].
  - by exists [OpTruncate (vParent (vc st)) c].
  - exists []. by rewrite app_nil_r.
Qed.

Lemma pushes_expectNoMoreTextNodes fuel :
  pushes_ops (expectNoMoreTextNodes fuel).
Proof.
  induction fuel as [|fuel IH]; intros st; cbn [expectNoMoreTextNodes];
    destruct (vCurrent (vc st)) as [c|];
    try (exists []; by rewrite app_nil_r);
    destruct (vnode_getType (heap st) c =? 3)%Z;
    try (exists []; by rewrite app_nil_r).
  cbv zeta.
  match goal with
  | |- exists _, journal (outcome_state (expectNoMoreTextNodes fuel ?s)) = _ =>
      destruct (IH s) as [ops E];
      exists (OpRemove (vParent (vc st)) c :: ops); rewrite E
  end.
  simpl_state. by rewrite <- app_assoc.
Qed.

Lemma pushes_expectText text : pushes_ops (expectText text).
Proof.
  intros st. destruct (expectText_total text st) as (st1 & -> & Hspec).
  cbn [outcome_state]. unfold text_expected, inserted_text in Hspec.
  assert (Hins : (exists dom h n h',
                     document_createTextNode (heap st) text = (dom, h)
                     /\ vnode_newText h (vParent (vc st)) dom text = (n, h')
                     /\ st1 = journal_push
                                [EOp Insert; ENode (vParent (vc st)); ENode n;
                                 ENodeOrNull (vCurrent (vc st))]
                                (set_heap h' st)) ->
                 exists ops, journal st1 = journal st ++ encode ops).
  { intros (dom & h & n & h' & _ & _ & ->).
    by exists [OpInsert (vParent (vc st)) n (vCurrent (vc st))]. }
  destruct (vCurrent (vc st)) as [c|]; [|by apply Hins].
  destruct (vnode_getType (heap st) c =? 3)%Z; [|by apply Hins].
  destruct (String.eqb text _); subst.
  - exists []. by rewrite app_nil_r.
  - by exists [OpTextSet c text].
Qed.

Lemma pushes_expectVirtual : pushes_ops expectVirtual.
Proof.
  intros st. unfold expectVirtual.
  destruct (vCurrent (vc st)) as [c|] eqn:Ec.
  - destruct (vnode_isVirtualVNode (heap st) c).
    + exists []. by rewrite app_nil_r.
    + destruct (vnode_newVirtual _ _) as [n h].
      by exists [OpInsert (vParent (vc st)) n
                   (getInsertBefore (set_vNewNode (Some n) (set_heap h st)))].
  - destruct (vnode_newVirtual _ _) as [n h].
    by exists [OpInsert (vParent (vc st)) n None].
Qed.

Lemma pushes_insert_new_element tag : pushes_ops (insert_new_element tag).
Proof.
  intros st. unfold insert_new_element.
  destruct (document_createElement _ _) as [dom h].
  destruct (vnode_newElement _ _ _ _) as [n h'].
  by exists [OpInsert (vParent (vc st)) n (vCurrent (vc st))].
Qed.

Lemma pushes_retrieveChildWithKey fuel key :
  pushes_ops (retrieveChildWithKey fuel key).
Proof.
  apply pushes_nothing. intros st. unfold retrieveChildWithKey.
  destruct (vSiblingsIdx (vc st) =? -1)%Z.
  - by destruct (materialize _ _ _ _ _ _) as [[]|].
  - destruct (vSiblings (vc st)); [|done].
    by destruct (search_siblings _ _ _ _).
Qed.

Lemma pushes_setBulkProps fuel vnode srcAttrs :
  pushes_ops (setBulkProps fuel vnode srcAttrs).
Proof.
  intros st. unfold setBulkProps.
  destruct (read_key srcAttrs 0) as [srcK srcI], (read_key _ 0) as [dstK dstI].
  match goal with
  | |- context [setBulkProps_loop fuel vnode ?s ?d ?b] =>
      destruct (setBulkProps_loop_pushes vnode s d fuel b) as [recs E];
      destruct (setBulkProps_loop fuel vnode s d b) as [[] b'|e b'|b']
  end; cbn [outcome_state b_journal hasDiffs block] in E;
    rewrite attr_block_encode in E; eexists;
    try (simpl_state; exact E).
  destruct (patchEventDispatch b'); [destruct (negb _)|];
    simpl_state; exact E.
Qed.

Lemma pushes_reconcile_element fuel tag matched jsxKey :
  pushes_ops (reconcile_element fuel tag matched jsxKey).
Proof.
  unfold reconcile_element.
  destruct matched; [apply pushes_nothing; by intros st|].
  assert (Hk : pushes_ops
                 (let* found := retrieveChildWithKey fuel jsxKey in
                  match found with
                  | None => insert_new_element tag
                  | Some n => fun st =>
                      let st := set_vNewNode (Some n) st in
                      Ok tt (journal_push
                               [EOp Move; ENode (vParent (vc st)); ENode n;
                                ENodeOrNull (vCurrent (vc st))] st)
                  end)%diff).
  { apply pushes_bind; [apply pushes_retrieveChildWithKey|].
    intros [n|]; [|exact (pushes_insert_new_element tag)].
    intros s'. by exists [OpMove (vParent (vc s')) n (vCurrent (vc s'))]. }
  destruct jsxKey; [exact Hk|exact (pushes_insert_new_element tag)|exact Hk].
Qed.

Lemma pushes_reconcile_attributes fuel jsxAttrs :
  pushes_ops (reconcile_attributes fuel jsxAttrs).
Proof.
  intros st. unfold reconcile_attributes.
  destruct (vNewNode (vc st)) as [n|];
    [exact (pushes_setBulkProps fuel n jsxAttrs st)|].
  destruct (vCurrent (vc st)) as [n|];
    [exact (pushes_setBulkProps fuel n jsxAttrs st)|].
  exists []. by rewrite app_nil_r.
Qed.

Lemma pushes_expectElement fuel props key attrs tag :
  pushes_ops (expectElement fuel props key attrs tag).
Proof.
  intros st. unfold expectElement. cbv zeta.
  refine (pushes_bind _ _ (pushes_reconcile_element _ _ _ _) _ st).
  intros _. apply pushes_reconcile_attributes.
Qed.

Lemma pushes_expectComponent q : pushes_ops (expectComponent q).
Proof.
  apply pushes_nothing. intros st. unfold expectComponent.
  destruct (vCurrent (vc st)) as [host|];
    [|destruct (vNewNode (vc st)) as [host|]; [|done]];
    cbv zeta; destruct (negb _);
    repeat match goal with
           | |- context [executeComponent2 ?a ?b ?c ?d] =>
               destruct (executeComponent2 a b c d)
           | |- context [props_differ ?a ?b] =>
               destruct (props_differ a b) as [?|[]]
           end; done.
Qed.

Lemma pushes_diff_body fuel : pushes_ops (diff_body fuel).
Proof.
  unfold diff_body. apply pushes_bind; [apply pushes_assert|].
  intros _ st.
  destruct (jsxValue (jc st)) as [s|n| | | | |items| |type props key children attrs| ];
    try (exists []; by rewrite app_nil_r).
  - refine (pushes_bind _ _ (pushes_expectText _) (fun _ => pushes_advance) st).
  - refine (pushes_bind _ _ (pushes_expectText _) (fun _ => pushes_advance) st).
  - refine (pushes_bind _ _ (pushes_expectText _) (fun _ => pushes_advance) st).
  - refine (pushes_bind _ _ (pushes_expectText _) (fun _ => pushes_advance) st).
  - refine (pushes_bind _ _ (pushes_expectText _) (fun _ => pushes_advance) st).
  - destruct type as [tag| | |q| ]; try (exists []; by rewrite app_nil_r).
    + refine (pushes_bind _ _ (pushes_expectNoMoreTextNodes _) _ st).
      intros _. apply pushes_bind; [apply pushes_expectElement|].
      intros _. apply pushes_descend.
    + refine (pushes_bind _ _ (pushes_expectNoMoreTextNodes _) _ st).
      intros _. apply pushes_bind; [apply pushes_expectVirtual|].
      intros _. apply pushes_descend.
    + refine (pushes_bind _ _ (pushes_expectNoMoreTextNodes _) _ st).
      intros _. apply pushes_bind; [apply pushes_expectVirtual|].
      intros _. apply pushes_bind; [apply pushes_expectComponent|].
      intros _. apply pushes_advance.
Qed.

Lemma pushes_diff_inner fuel n : pushes_ops (diff_inner fuel n).
Proof.
  induction n as [|n IH]; intros st; cbn [diff_inner];
    destruct (Nat.ltb _ _); try (exists []; by rewrite app_nil_r).
  refine (pushes_bind _ _ (pushes_diff_body fuel) (fun _ => IH) st).
Qed.

Lemma pushes_diff_outer fuel n : pushes_ops (diff_outer fuel n).
Proof.
  induction n as [|n IH]; intros st; cbn [diff_outer];
    destruct (stack st); try (exists []; by rewrite app_nil_r).
  refine (pushes_bind _ _ (pushes_diff_inner fuel fuel) _ st).
  intros _. apply pushes_bind; [apply pushes_expectNoMore|].
  intros _. apply pushes_bind; [apply pushes_ascend|]. intros _. exact IH.
Qed.

Lemma pushes_diff fuel jsx vStart : pushes_ops (diff fuel jsx vStart).
Proof.
  intros st. unfold diff. cbv zeta.
  assert (Hh : forall s : DiffState T,
            journal (stackPush jsx true s) = journal s)
    by (intros s; unfold stackPush; by destruct jsx).
  set (s0 := set_vc _ st).
  destruct (pushes_diff_outer fuel fuel (stackPush jsx true s0)) as [ops E].
  rewrite Hh in E. by exists ops.
Qed.

Lemma pushes_drainAsyncQueue fuel n : pushes_ops (drainAsyncQueue fuel n).
Proof.
  induction n as [|n IH]; intros st; cbn [drainAsyncQueue];
    destruct (asyncQueue st) as [|[jsx host] rest];
    try (exists []; by rewrite app_nil_r).
  destruct jsx as [jsx|jsx|]; [| |exists []; by rewrite app_nil_r];
    refine (pushes_bind _ _ (pushes_diff fuel jsx host) (fun _ => IH)
              (set_asyncQueue rest st)).
Qed.

(** The journal [vnode_diff] leaves, started from an empty one, encodes
    a sequence of operations, and the applier replays exactly that
    sequence and clears the journal. *)
Lemma vnode_diff_journal_replays fuel container jsx vStart :
  container_journal container = [] ->
  exists ops,
    journal (outcome_state (vnode_diff fuel container jsx vStart))
      = encode ops
    /\ forall h : T,
         vnode_applyJournal
           (journal (outcome_state (vnode_diff fuel container jsx vStart))) h
         = Ok tt (mkApplyState (foldl apply_op h ops) []
                    (length (encode ops))).
Proof.
  intros Hj. unfold vnode_diff.
  destruct (pushes_bind _ _ (pushes_diff fuel jsx vStart)
              (fun _ => pushes_drainAsyncQueue fuel fuel)
              (initial_state container vStart)) as [ops E].
  cbn [initial_state journal] in E. rewrite Hj in E. cbn [app] in E.
  exists ops. split; [exact E|]. intros h. rewrite E.
  apply vnode_applyJournal_encode.
Qed.
End Pushes.

(** ** The descriptor-side invariant of the loops *)

Section Invariant.
Context {T : Type} `{api : VNodeApi T}.

Lemma keeps_cursor_wf {A} (m : M (DiffState T) A) :
  keeps_cursor m -> keeps_wf m.
Proof.
  intros H st Hwf. destruct (H st) as [Hj Hs].
  unfold wf_state. by rewrite Hj, Hs.
Qed.

Lemma keeps_wf_bind {A B} (m : M (DiffState T) A)
    (k : A -> M (DiffState T) B) :
  keeps_wf m -> (forall a, keeps_wf (k a)) -> keeps_wf (bind m k).
Proof.
  intros Hm Hk st Hwf. unfold bind. specialize (Hm st Hwf).
  destruct (m st) as [a s'|e s'|s']; cbn in *; [|done..].
  by apply Hk.
Qed.

Lemma keeps_cursor_bind {A B} (m : M (DiffState T) A)
    (k : A -> M (DiffState T) B) :
  keeps_cursor m -> (forall a, keeps_cursor (k a)) -> keeps_cursor (bind m k).
Proof.
  intros Hm Hk st. unfold bind. destruct (Hm st) as [Hj Hs].
  destruct (m st) as [a s'|e s'|s']; cbn in *; [|done..].
  destruct (Hk a s') as [Hj' Hs']. by rewrite Hj', Hs'.
Qed.

Lemma cursor_assert : keeps_cursor (T:=T) assert_parent_not_current.
Proof. intros st. unfold assert_parent_not_current. by case_bool_decide. Qed.

Lemma cursor_expectNoMore : keeps_cursor (T:=T) expectNoMore.
Proof.
  unfold expectNoMore. apply keeps_cursor_bind; [apply cursor_assert|].
  intros _ st. by destruct (vCurrent (vc st)).
Qed.

Lemma cursor_expectNoMoreTextNodes fuel :
  keeps_cursor (expectNoMoreTextNodes fuel).
Proof.
  induction fuel as [|fuel IH]; intros st; cbn [expectNoMoreTextNodes];
    destruct (vCurrent (vc st)) as [c|]; try done;
    destruct (vnode_getType (heap st) c =? 3)%Z; try done.
  cbv zeta.
  match goal with
  | |- context [expectNoMoreTextNodes fuel ?s] => destruct (IH s) as [Hj Hs]
  end.
  by rewrite Hj, Hs.
Qed.

Lemma cursor_expectText text : keeps_cursor (expectText text).
Proof.
  intros st. destruct (expectText_total text st) as (st1 & -> & Hspec).
  by destruct (text_expected_keeps _ _ _ Hspec) as (Hs & Hj & _).
Qed.

Lemma cursor_expectVirtual : keeps_cursor expectVirtual.
Proof.
  intros st. unfold expectVirtual.
  destruct (vCurrent (vc st)) as [c|];
    [destruct (vnode_isVirtualVNode (heap st) c); [done|]|];
    by destruct (vnode_newVirtual _ _).
Qed.

Lemma cursor_insert_new_element tag : keeps_cursor (insert_new_element tag).
Proof.
  intros st. unfold insert_new_element.
  destruct (document_createElement _ _) as [dom h].
  by destruct (vnode_newElement _ _ _ _) as [n h'].
Qed.

Lemma cursor_retrieveChildWithKey fuel key :
  keeps_cursor (retrieveChildWithKey fuel key).
Proof.
  intros st. unfold retrieveChildWithKey.
  destruct (vSiblingsIdx (vc st) =? -1)%Z.
  - by destruct (materialize _ _ _ _ _ _) as [[]|].
  - destruct (vSiblings (vc st)); [|done].
    by destruct (search_siblings _ _ _ _).
Qed.

Lemma cursor_setBulkProps fuel vnode srcAttrs :
  keeps_cursor (setBulkProps fuel vnode srcAttrs).
Proof.
  intros st. unfold setBulkProps.
  destruct (read_key srcAttrs 0), (read_key _ 0).
  destruct (setBulkProps_loop _ _ _ _ _) as [[] b|e b|b]; try done.
  destruct (patchEventDispatch b); [destruct (negb _)|]; done.
Qed.

Lemma cursor_expectElement fuel props key attrs tag :
  keeps_cursor (expectElement fuel props key attrs tag).
Proof.
  intros st. unfold expectElement. cbv zeta.
  refine (keeps_cursor_bind _ _ _ _ st).
  - unfold reconcile_element.
    match goal with |- context [if ?b then ret tt else _] => destruct b end;
      [by intros s|].
    assert (Hk : forall jsxKey,
              keeps_cursor
                (let* found := retrieveChildWithKey fuel jsxKey in
                 match found with
                 | None => insert_new_element tag
                 | Some n => fun st =>
                     let st := set_vNewNode (Some n) st in
                     Ok tt (journal_push
                              [EOp Move; ENode (vParent (vc st)); ENode n;
                               ENodeOrNull (vCurrent (vc st))] st)
                 end)%diff).
    { intros jsxKey.
      apply keeps_cursor_bind; [apply cursor_retrieveChildWithKey|].
      intros [n|]; [by intros s|exact (cursor_insert_new_element tag)]. }
    match goal with |- context [match ?k with KNull => _ | _ => _ end] =>
      destruct k end;
      [exact (Hk _)|exact (cursor_insert_new_element tag)|exact (Hk _)].
  - intros _ s. unfold reconcile_attributes.
    destruct (vNewNode (vc s)) as [n|];
      [exact (cursor_setBulkProps fuel n _ s)|].
    destruct (vCurrent (vc s)) as [n|];
      [exact (cursor_setBulkProps fuel n _ s)|done].
Qed.

Lemma cursor_expectComponent q : keeps_cursor (expectComponent q).
Proof.
  intros st. unfold expectComponent.
  destruct (vCurrent (vc st)) as [host|];
    [|destruct (vNewNode (vc st)) as [host|]; [|done]];
    cbv zeta; destruct (negb _);
    repeat match goal with
           | |- context [executeComponent2 ?a ?b ?c ?d] =>
               destruct (executeComponent2 a b c d)
           | |- context [props_differ ?a ?b] =>
               destruct (props_differ a b) as [?|[]]
           end; done.
Qed.

Lemma wf_stackPush children b (st : DiffState T) :
  wf_state st -> wf_state (stackPush children b st).
Proof.
  intros [Hj Hs]. unfold stackPush, wf_state, wf_jsx.
  destruct b; destruct children; simpl_state.
  all: split; [try done; lia|by constructor].
Qed.

Lemma advance_cursor_cursor (st : DiffState T) :
  jc (advance_cursor st) = jc st /\ stack (advance_cursor st) = stack st.
Proof.
  unfold advance_cursor.
  repeat match goal with |- context [match ?x with _ => _ end] =>
           destruct x end; done.
Qed.

Lemma wf_advance_on stk : forall st : DiffState T,
  wf_jsx (jc st) -> Forall (fun f => wf_jsx (frame_jsx f)) stk ->
  wf_state (outcome_state (advance_on stk st)).
Proof.
  assert (Hstep : forall (s : DiffState T) k,
            wf_jsx (jc s) -> Forall (fun f => wf_jsx (frame_jsx f)) k ->
            wf_state (advance_cursor (set_stack k s))).
  { intros s k Hj Hs. unfold wf_state.
    destruct (advance_cursor_cursor (set_stack k s)) as [-> ->]. done. }
  induction stk as [|f stk IH]; intros st Hj Hs; cbn [advance_on].
  - destruct (Nat.ltb _ _); [destruct (jsxChildren _) eqn:E|];
      cbn [outcome_state]; try (by apply Hstep); by split.
  - destruct (Nat.ltb _ _).
    + destruct (jsxChildren _) eqn:E; cbn [outcome_state];
        try (by apply Hstep); by split.
    + inversion Hs as [|? ? Hf Hs']; subst.
      destruct f as [j|j v]; [by apply IH|].
      cbn [outcome_state]. by apply Hstep.
Qed.

Lemma wf_advance : keeps_wf advance.
Proof. intros st [Hj Hs]. by apply wf_advance_on. Qed.

Lemma wf_ascend : keeps_wf ascend.
Proof.
  intros st [Hj Hs]. unfold ascend.
  destruct (stack st) as [|[j|j v] rest] eqn:E.
  - apply wf_advance. split; [cbn; lia|]. simpl_state. by rewrite E.
  - inversion Hs; subst. by apply wf_advance.
  - inversion Hs; subst. by apply wf_advance.
Qed.

Lemma wf_descend children b : keeps_wf (descend children b).
Proof.
  intros st Hwf. unfold descend.
  pose proof (wf_stackPush children b st Hwf) as H.
  destruct b; [|done].
  destruct (vNewNode (vc (stackPush children true st)));
    [done|destruct (vCurrent (vc (stackPush children true st))); done].
Qed.

Lemma wf_diff_body fuel : keeps_wf (diff_body fuel).
Proof.
  unfold diff_body.
  apply keeps_wf_bind; [apply keeps_cursor_wf, cursor_assert|].
  intros _ st.
  destruct (jsxValue (jc st)) as [s|n| | | | |items| |type props key children attrs| ];
    try done.
  - refine (keeps_wf_bind _ _ (keeps_cursor_wf _ (cursor_expectText _))
              (fun _ => wf_advance) st).
  - refine (keeps_wf_bind _ _ (keeps_cursor_wf _ (cursor_expectText _))
              (fun _ => wf_advance) st).
  - refine (keeps_wf_bind _ _ (keeps_cursor_wf _ (cursor_expectText _))
              (fun _ => wf_advance) st).
  - refine (keeps_wf_bind _ _ (keeps_cursor_wf _ (cursor_expectText _))
              (fun _ => wf_advance) st).
  - refine (keeps_wf_bind _ _ (keeps_cursor_wf _ (cursor_expectText _))
              (fun _ => wf_advance) st).
  - exact (wf_descend _ _ st).
  - destruct type as [tag| | |q| ]; try done.
    + refine (keeps_wf_bind _ _
                (keeps_cursor_wf _ (cursor_expectNoMoreTextNodes _)) _ st).
      intros _. apply keeps_wf_bind;
        [apply keeps_cursor_wf, cursor_expectElement|].
      intros _. apply wf_descend.
    + refine (keeps_wf_bind _ _
                (keeps_cursor_wf _ (cursor_expectNoMoreTextNodes _)) _ st).
      intros _. apply keeps_wf_bind;
        [apply keeps_cursor_wf, cursor_expectVirtual|].
      intros _. apply wf_descend.
    + refine (keeps_wf_bind _ _
                (keeps_cursor_wf _ (cursor_expectNoMoreTextNodes _)) _ st).
      intros _. apply keeps_wf_bind;
        [apply keeps_cursor_wf, cursor_expectVirtual|].
      intros _. apply keeps_wf_bind;
        [apply keeps_cursor_wf, cursor_expectComponent|].
      intros _. apply wf_advance.
Qed.

(** The state [diff] enters its loops with is well-formed if the state
    it is called in is; the state [vnode_diff] starts from is. *)
Lemma wf_initial_state (container : @ClientContainer T) vStart :
  wf_state (initial_state container vStart).
Proof. split; [cbn; lia|constructor]. Qed.

Lemma wf_diff_entry jsx (st : DiffState T) v :
  wf_state st -> wf_state (stackPush jsx true (set_vc v st)).
Proof. intros [Hj Hs]. by apply wf_stackPush. Qed.

(** Both loops, [diff] and the drain of the queue keep the state
    well-formed, so every turn of a pass starts in a well-formed
    state. *)
Lemma wf_diff_inner fuel n : keeps_wf (diff_inner fuel n).
Proof.
  induction n as [|n IH]; intros st Hwf; cbn [diff_inner];
    destruct (Nat.ltb _ _); try done.
  exact (keeps_wf_bind _ _ (wf_diff_body fuel) (fun _ => IH) st Hwf).
Qed.

Lemma wf_diff_outer fuel n : keeps_wf (diff_outer fuel n).
Proof.
  induction n as [|n IH]; intros st Hwf; cbn [diff_outer];
    destruct (stack st) eqn:E; try done.
  refine (keeps_wf_bind _ _ (wf_diff_inner fuel fuel) _ st Hwf).
  intros _. apply keeps_wf_bind;
    [apply keeps_cursor_wf, cursor_expectNoMore|].
  intros _. apply keeps_wf_bind; [apply wf_ascend|by intros _].
Qed.

Lemma wf_diff fuel jsx vStart : keeps_wf (diff fuel jsx vStart).
Proof.
  intros st Hwf. unfold diff. apply wf_diff_outer. by apply wf_diff_entry.
Qed.

Lemma wf_drainAsyncQueue fuel n : keeps_wf (drainAsyncQueue fuel n).
Proof.
  induction n as [|n IH]; intros st Hwf; cbn [drainAsyncQueue];
    destruct (asyncQueue st) as [|[jsxNode host] rest]; try done.
  assert (Hwf' : wf_state (set_asyncQueue rest st)) by done.
  destruct jsxNode as [jsx|jsx|]; [| |done].
  - exact (keeps_wf_bind _ _ (wf_diff fuel jsx host) (fun _ => IH) _ Hwf').
  - exact (keeps_wf_bind _ _ (wf_diff fuel jsx host) (fun _ => IH) _ Hwf').
Qed.

Lemma wf_vnode_diff fuel (container : @ClientContainer T) jsx vStart :
  wf_state (outcome_state (vnode_diff fuel container jsx vStart)).
Proof.
  unfold vnode_diff.
  exact (keeps_wf_bind _ _ (wf_diff fuel jsx vStart)
           (fun _ => wf_drainAsyncQueue fuel fuel) _
           (wf_initial_state container vStart)).
Qed.
End Invariant.

(** * Further properties of the engine *)

Import Lists.

(** ** [shallowEqual] *)

(** X1.  [shallowEqual] returns [true] exactly when the two records
    are the same record: the same keys, each with the same value. *)
Theorem shallowEqual_decides_equality (src dst : Props) :
  shallowEqual src dst = true <-> src = dst.
Proof.
  rewrite shallowEqual_iff. split; [apply map_eq|by intros ->].
Qed.

(** ** Attributes that did not change *)

Lemma strict_eq_refl v : strict_eq v v = true.
Proof. unfold strict_eq. by rewrite bool_decide_true. Qed.

Lemma setBulkProps_loop_same vnode fuel :
  forall rem pre j (hd : bool) pd,
  length rem <= fuel ->
  setBulkProps_loop fuel vnode (flat_attrs (pre ++ rem))
    (flat_attrs (pre ++ rem)) (bulk_at j hd pre rem pre rem pd)
  = Ok tt (bulk_at j hd (pre ++ rem) [] (pre ++ rem) [] pd).
Proof.
  induction fuel as [|fuel IH]; intros rem pre j hd pd Hf.
  - destruct rem; cbn [length] in Hf; [|lia]. cbn. by rewrite !app_nil_r.
  - destruct rem as [|[k v] rem].
    + cbn. by rewrite !app_nil_r.
    + cbn [setBulkProps_loop bulk_at srcKey dstKey head_key head fmap
           option_fmap option_map fst].
      rewrite String.eqb_refl. cbn [srcIdx dstIdx]. rewrite !read_value_at.
      unfold strict_ne. rewrite strict_eq_refl. cbn [negb].
      unfold bulk_at at 1.
      cbn [head_key head fmap option_fmap option_map fst].
      rewrite next_src_at, next_dst_at.
      pose proof (IH rem (pre ++ [(k, v)]) j hd pd) as E.
      unfold bulk_at in E. rewrite <- !app_assoc in E. cbn [app] in E.
      apply E. cbn [length] in Hf. lia.
Qed.

Section Unchanged.
Context {T : Type} `{api : VNodeApi T}.
Implicit Type st : DiffState T.

Lemma setBulkProps_unchanged fuel vnode st (attrs : Attrs) :
  vnode_attrs (vnode_ensureElementInflated (heap st) vnode) vnode
    = flat_attrs attrs ->
  length attrs <= fuel ->
  setBulkProps fuel vnode (flat_attrs attrs) st
  = Ok tt (set_heap (vnode_ensureElementInflated (heap st) vnode) st).
Proof.
  intros Hattrs Hf. unfold setBulkProps. rewrite Hattrs.
  pose proof (read_key_flat [] attrs) as Hr.
  cbn [app length Nat.mul Nat.add] in Hr. rewrite Hr.
  pose proof (setBulkProps_loop_same vnode fuel attrs [] (journal st)
                false false Hf) as E.
  unfold bulk_at in E. cbn [app] in E. rewrite E.
  cbn [patchEventDispatch b_journal]. by destruct st.
Qed.

(** X2.  Reconciling an element with the attribute list it already
    has records nothing: whatever the keys and values are (sorted or
    not, handlers or not), [setBulkProps] returns with the journal
    untouched and the dispatch adapter not patched; the one thing it
    does is inflate the element. *)
Theorem unchanged_attributes_record_nothing fuel vnode st (attrs : Attrs) :
  vnode_attrs (vnode_ensureElementInflated (heap st) vnode) vnode
    = flat_attrs attrs ->
  length attrs <= fuel ->
  setBulkProps fuel vnode (flat_attrs attrs) st
  = Ok tt (set_heap (vnode_ensureElementInflated (heap st) vnode) st).
Proof. apply setBulkProps_unchanged. Qed.
End Unchanged.

Lemma unchanged_attributes_record_nothing_witness :
  setBulkProps 3 1 (flat_attrs attrs_abc)
    (at_child div_abc 0 (Some 1) div_acd)
  = Ok tt (set_heap
             (vnode_ensureElementInflated
                (heap (at_child div_abc 0 (Some 1) div_acd)) 1)
             (at_child div_abc 0 (Some 1) div_acd)).
Proof.
  apply (unchanged_attributes_record_nothing 3 1
           (at_child div_abc 0 (Some 1) div_acd) attrs_abc).
  - reflexivity.
  - cbn. lia.
Defined.

(** ** What a pass leaves behind *)

Section Pass.
Context {T : Type} `{api : VNodeApi T}.
Implicit Type st : DiffState T.

(** X3.  A pass only ever appends to the journal, and what it appends
    is a sequence of whole operations -- also when the pass ends in an
    error or runs out of fuel.  Started from an empty journal, the
    journal it leaves is replayed by [vnode_applyJournal] without an
    error, operation by operation, and cleared. *)
Theorem diff_journal_is_replayable fuel container jsx vStart :
  exists ops,
    journal (outcome_state (vnode_diff fuel container jsx vStart))
      = container_journal container ++ encode ops
    /\ (container_journal container = [] ->
        forall h : T,
          vnode_applyJournal
            (journal (outcome_state (vnode_diff fuel container jsx vStart)))
            h
          = Ok tt (mkApplyState (foldl apply_op h ops) []
                     (length (encode ops)))).
Proof.
  unfold vnode_diff.
  destruct (pushes_bind _ _ (pushes_diff fuel jsx vStart)
              (fun _ => pushes_drainAsyncQueue fuel fuel)
              (initial_state container vStart)) as [ops E].
  cbn [initial_state journal] in E.
  exists ops. split; [exact E|]. intros Hj h. rewrite E, Hj. cbn [app].
  apply vnode_applyJournal_encode.
Qed.

Lemma ascend_frame children b st st' :
  stack st' = stack (stackPush children b st) ->
  ascend st'
  = advance (set_stack (stack st)
               (set_jc (jc st) (if b then set_vc (vc st) st' else st'))).
Proof.
  intros Hs. unfold ascend. rewrite Hs.
  unfold stackPush. destruct b, children; reflexivity.
Qed.

(** X5.  [stackPush] and [ascend] are a push and a pop: whatever was
    done since a frame was pushed, as long as the stack is back at that
    frame, [ascend] restores the descriptor-side variables saved in it
    (and the tree-side ones if the frame was pushed with
    [descendVNode]), drops the frame, and advances.  Popping right
    after pushing is [advance]. *)
Theorem ascend_restores_pushed_frame children b st :
  (forall st',
      stack st' = stack (stackPush children b st) ->
      ascend st'
      = advance (set_stack (stack st)
                   (set_jc (jc st) (if b then set_vc (vc st) st' else st'))))
  /\ ascend (stackPush children b st) = advance st.
Proof.
  split; [intros st'; apply ascend_frame|].
  rewrite (ascend_frame children b st) by done.
  f_equal. destruct st. unfold stackPush. by destruct b, children.
Qed.

(** X6.  Moving the cursor changes neither the tree nor the journal
    nor the queue: [advance], [ascend] and [descend] leave all three as
    they were, whatever their outcome. *)
Theorem cursor_moves_write_nothing st children b :
  let same (st' : DiffState T) :=
    heap st' = heap st /\ journal st' = journal st
    /\ asyncQueue st' = asyncQueue st in
  same (outcome_state (advance st))
  /\ same (outcome_state (ascend st))
  /\ same (outcome_state (descend children b st)).
Proof.
  cbv zeta. split; [|split].
  - apply (advance_on_frame (stack st) st).
  - unfold ascend.
    destruct (stack st) as [|[j|j v] rest];
      match goal with |- context [advance ?s] =>
        apply (advance_on_frame (stack s) s) end.
  - unfold descend, stackPush.
    destruct b, children; simpl_state;
      repeat match goal with |- context [match ?x with _ => _ end] =>
               destruct x end; done.
Qed.
End Pass.

Lemma diff_journal_is_replayable_witness :
  exists ops,
    journal (outcome_state (vnode_diff 10 (container_of list_abc) ul_cab 0))
    = [] ++ encode ops
    /\ forall h : SpecTree.Tree,
         vnode_applyJournal
           (journal (outcome_state
                       (vnode_diff 10 (container_of list_abc) ul_cab 0))) h
         = Ok tt (mkApplyState (foldl apply_op h ops) []
                    (length (encode ops))).
Proof.
  destruct (diff_journal_is_replayable 10 (container_of list_abc) ul_cab 0)
    as (ops & E & H).
  exists ops. split; [exact E|]. apply H. reflexivity.
Defined.

Lemma ascend_restores_pushed_frame_witness :
  let st := at_child div_three 1 (Some 2) empty_div in
  let st' := set_vCurrent None (stackPush JUndefined true st) in
  ascend st' = advance st.
Proof.
  intros st st'.
  apply (proj1 (ascend_restores_pushed_frame JUndefined true st) st').
  reflexivity.
Defined.

(** ** Looking for a keyed sibling *)



(** What [take_key] returns: the first pair whose key matches, taken
    out of the list; or nothing, and the list as it was. *)
Lemma take_key_found key l l1 k n l2 :
  l = l1 ++ (k, n) :: l2 ->
  Forall (fun p => key_loose_eq key p.1 = false) l1 ->
  key_loose_eq key k = true ->
  take_key key l = (Some n, l1 ++ l2).
Proof.
  intros -> Hl1 Hk. induction Hl1 as [|[k1 n1] l1 H1 _ IH]; cbn.
  - by rewrite Hk.
  - cbn in H1. rewrite H1. cbn in IH. by rewrite IH.
Qed.

Lemma take_key_none key l :
  Forall (fun p => key_loose_eq key p.1 = false) l ->
  take_key key l = (None, l).
Proof.
  induction 1 as [|[k1 n1] l H1 _ IH]; cbn; [done|].
  cbn in H1. by rewrite H1, IH.
Qed.


Section Keyed.
Context {T : Type} `{api : VNodeApi T}.
Implicit Type st : DiffState T.

Lemma materialize_chain h key nodes : forall fuel cur found sibs,
  sibling_chain h cur nodes ->
  length nodes <= fuel ->
  materialize fuel h key cur found sibs
  = Some (match found with
          | Some f => (Some f, sibs ++ flat_sibs (keyed h nodes))
          | None => ((take_key key (keyed h nodes)).1,
                     sibs ++ flat_sibs (take_key key (keyed h nodes)).2)
          end).
Proof.
  induction nodes as [|n nodes IH]; intros fuel cur found sibs Hc Hf.
  - cbn in Hc. subst cur. destruct fuel, found; cbn; by rewrite app_nil_r.
  - destruct Hc as [-> Hc]. destruct fuel as [|fuel]; [cbn in Hf; lia|].
    cbn [materialize keyed map take_key].
    fold (keyed h nodes).
    destruct found as [f|].
    + cbn [andb]. rewrite (IH fuel _ (Some f)) by (cbn in Hf; auto with lia).
      cbn [flat_sibs flat_map fst snd]. fold (flat_sibs (keyed h nodes)).
      by rewrite <- app_assoc.
    + cbn [andb].
      destruct (key_loose_eq key (vnode_getProp h n ELEMENT_KEY None)).
      * by rewrite (IH fuel _ (Some n)) by (cbn in Hf; auto with lia).
      * rewrite (IH fuel _ None) by (cbn in Hf; auto with lia).
        destruct (take_key key (keyed h nodes)) as [found rest].
        cbn [fst snd flat_sibs flat_map]. fold (flat_sibs rest).
        by rewrite <- app_assoc.
Qed.

Lemma retrieveChildWithKey_first fuel key st nodes :
  vSiblingsIdx (vc st) = (-1)%Z ->
  sibling_chain (heap st) (vCurrent (vc st)) nodes ->
  length nodes <= fuel ->
  retrieveChildWithKey fuel key st
  = Ok (take_key key (keyed (heap st) nodes)).1
       (set_vSiblingsIdx 0
          (set_vSiblings
             (Some (flat_sibs (take_key key (keyed (heap st) nodes)).2)) st)).
Proof.
  intros Hi Hc Hf. unfold retrieveChildWithKey. rewrite Hi. cbn [Z.eqb].
  by rewrite (materialize_chain _ key nodes fuel _ None []).
Qed.


(** X7.  The first keyed search of a frame walks the siblings from
    the cursor on.  If one of them stores a key that [==] the key
    looked for, the first such node is returned and the side table
    [vSiblings] holds every other sibling, in order, each behind its
    key; if none does, [null] is returned and the table holds them
    all.  Either way [vSiblingsIdx] becomes 0, and the tree, the
    journal and the cursor are left alone. *)
Theorem first_keyed_search_materializes fuel key st nodes :
  vSiblingsIdx (vc st) = (-1)%Z ->
  sibling_chain (heap st) (vCurrent (vc st)) nodes ->
  length nodes <= fuel ->
  let table (l : list VNodeId) :=
    set_vSiblingsIdx 0
      (set_vSiblings (Some (flat_sibs (keyed (heap st) l))) st) in
  (forall l1 n l2,
      nodes = l1 ++ n :: l2 ->
      Forall (fun m => key_loose_eq key
                         (vnode_getProp (heap st) m ELEMENT_KEY None) = false)
             l1 ->
      key_loose_eq key (vnode_getProp (heap st) n ELEMENT_KEY None) = true ->
      retrieveChildWithKey fuel key st = Ok (Some n) (table (l1 ++ l2)))
  /\ (Forall (fun m => key_loose_eq key
                         (vnode_getProp (heap st) m ELEMENT_KEY None) = false)
             nodes ->
      retrieveChildWithKey fuel key st = Ok None (table nodes)).
Proof.
  intros Hi Hc Hf table.
  rewrite (retrieveChildWithKey_first fuel key st nodes Hi Hc Hf).
  split.
  - intros l1 n l2 -> Hl1 Hn.
    rewrite (take_key_found key _ (keyed (heap st) l1)
               (vnode_getProp (heap st) n ELEMENT_KEY None) n
               (keyed (heap st) l2)).
    + cbn [fst snd]. unfold table, keyed. by rewrite map_app.
    + unfold keyed. by rewrite map_app.
    + unfold keyed. by apply Forall_map.
    + done.
  - intros Hn. rewrite take_key_none; [done|].
    unfold keyed. by apply Forall_map.
Qed.

End Keyed.

Lemma first_keyed_search_materializes_witness :
  let st := at_child list_abc 1 (Some 2) (li "C") in
  retrieveChildWithKey 3 (KStr "C") st
  = Ok (Some 4)
       (set_vSiblingsIdx 0
          (set_vSiblings (Some (flat_sibs (keyed (heap st) ([2; 3] ++ []))))
             st)).
Proof.
  intros st.
  assert (Hi : vSiblingsIdx (vc st) = (-1)%Z) by reflexivity.
  assert (Hc : sibling_chain (heap st) (vCurrent (vc st)) [2; 3; 4])
    by (cbn; repeat split; reflexivity).
  assert (Hf : length [2; 3; 4] <= 3) by (cbn; lia).
  apply (proj1 (first_keyed_search_materializes 3 (KStr "C") st [2; 3; 4]
                  Hi Hc Hf) [2; 3] 4 []).
  - reflexivity.
  - repeat constructor.
  - reflexivity.
Defined.


(** ** The applier on arbitrary journals *)

Section ApplierTotal.
Context {T : Type} `{api : VNodeApi T}.
Implicit Type s : ApplyState T.

Lemma progresses_bind {A B} d d1 d2 (m : M (ApplyState T) A)
    (k : A -> M (ApplyState T) B) s :
  d <= d1 + d2 ->
  progresses d1 s (m s) ->
  (forall a s', a_journal s' = a_journal s -> a_idx s + d1 <= a_idx s' ->
                progresses d2 s' (k a s')) ->
  progresses d s (bind m k s).
Proof.
  intros Hd Hm Hk. unfold bind. destruct (m s) as [a s'|e s'|s']; cbn in *.
  - destruct Hm as [Hj Hi]. specialize (Hk a s' Hj Hi).
    destruct (k a s') as [b s2|e s2|s2]; cbn in *; [|congruence|done].
    destruct Hk as [Hj2 Hi2]; split; (congruence || lia).
  - done.
  - done.
Qed.

Lemma progresses_weaken {A} d d' s (o : Outcome (ApplyState T) A) :
  d' <= d -> progresses d s o -> progresses d' s o.
Proof.
  intros Hd. destruct o; cbn; [|done..]. intros [? ?]; split; (done || lia).
Qed.

Lemma progresses_next_entry s : progresses 1 s (next_entry s).
Proof. cbn. split; [done|lia]. Qed.

Lemma progresses_next_vnode s : progresses 1 s (next_vnode s).
Proof.
  unfold next_vnode, bind, next_entry.
  destruct (a_journal s !! a_idx s) as [[v|n]|]; cbn; try done;
    split; (done || lia).
Qed.

Lemma progresses_next_vnode_or_null s : progresses 1 s (next_vnode_or_null s).
Proof.
  unfold next_vnode_or_null, bind, next_entry.
  destruct (a_journal s !! a_idx s) as [[v|n]|]; cbn;
    [destruct (is_nullish v)|..]; cbn; try done; split; (done || lia).
Qed.

Lemma progresses_next_string s : progresses 1 s (next_string s).
Proof.
  unfold next_string, bind, next_entry.
  destruct (a_journal s !! a_idx s) as [[[[]| |]|n]|]; cbn;
    split; (done || lia).
Qed.

Lemma progresses_next_value s : progresses 1 s (next_value s).
Proof.
  unfold next_value, bind, next_entry.
  destruct (a_journal s !! a_idx s) as [[v|n]|]; cbn; try done;
    split; (done || lia).
Qed.

Lemma progresses_on_heap f s : progresses 0 s (on_heap f s).
Proof. cbn. split; [done|lia]. Qed.

Lemma progresses_apply_attributes vnode : forall fuel s,
  length (a_journal s) - a_idx s <= fuel ->
  progresses 0 s (apply_attributes fuel vnode s).
Proof.
  induction fuel as [|fuel IH]; intros s Hf; cbn [apply_attributes];
    destruct (a_journal s !! a_idx s) as [[[[]| |]|]|] eqn:E;
    try (cbn; try done; split; (done || lia)).
  - apply lookup_lt_Some in E. lia.
  - apply lookup_lt_Some in E.
    apply (progresses_bind _ 1 0); [lia|apply progresses_next_entry|].
    intros _ s1 Hj1 Hi1.
    apply (progresses_bind _ 1 0); [lia|apply progresses_next_value|].
    intros value s2 Hj2 Hi2.
    apply (progresses_bind _ 0 0);
      [lia|destruct (isEventKey _); apply progresses_on_heap|].
    intros _ s3 Hj3 Hi3. apply IH. rewrite Hj3, Hj2, Hj1. lia.
Qed.

Lemma progresses_apply_entry s :
  progresses 1 s (apply_entry (length (a_journal s)) s).
Proof.
  unfold apply_entry.
  apply (progresses_bind _ 1 0); [lia|apply progresses_next_entry|].
  intros opCode s1 Hj1 Hi1.
  destruct opCode as [[[[]| |]|]|]; try (cbn; try done; split; (done || lia)).
  destruct (opcode_of_num n) as [[]|];
    try (cbn; try done; split; (done || lia)).
  - (* Insert *)
    apply (progresses_bind _ 1 0); [lia|apply progresses_next_vnode|].
    intros p s2 Hj2 Hi2.
    apply (progresses_bind _ 1 0); [lia|apply progresses_next_vnode|].
    intros c s3 Hj3 Hi3.
    apply (progresses_bind _ 1 0); [lia|apply progresses_next_vnode_or_null|].
    intros b s4 Hj4 Hi4. apply progresses_on_heap.
  - (* Truncate *)
    apply (progresses_bind _ 1 0); [lia|apply progresses_next_vnode|].
    intros p s2 Hj2 Hi2.
    apply (progresses_bind _ 1 0); [lia|apply progresses_next_vnode|].
    intros c s3 Hj3 Hi3. apply progresses_on_heap.
  - (* Remove *)
    apply (progresses_bind _ 1 0); [lia|apply progresses_next_vnode|].
    intros p s2 Hj2 Hi2.
    apply (progresses_bind _ 1 0); [lia|apply progresses_next_vnode|].
    intros c s3 Hj3 Hi3. apply progresses_on_heap.
  - (* Move *)
    apply (progresses_bind _ 1 0); [lia|apply progresses_next_vnode|].
    intros p s2 Hj2 Hi2.
    apply (progresses_bind _ 1 0); [lia|apply progresses_next_vnode|].
    intros c s3 Hj3 Hi3.
    apply (progresses_bind _ 1 0); [lia|apply progresses_next_vnode_or_null|].
    intros b s4 Hj4 Hi4.
    apply (progresses_bind _ 0 0); [lia|apply progresses_on_heap|].
    intros _ s5 Hj5 Hi5. apply progresses_on_heap.
  - (* TextSet *)
    apply (progresses_bind _ 1 0); [lia|apply progresses_next_vnode|].
    intros v s2 Hj2 Hi2.
    apply (progresses_bind _ 1 0); [lia|apply progresses_next_string|].
    intros text s3 Hj3 Hi3. apply progresses_on_heap.
  - (* Attributes *)
    apply (progresses_bind _ 1 0); [lia|apply progresses_next_vnode|].
    intros v s2 Hj2 Hi2.
    rewrite <- Hj1, <- Hj2. apply progresses_apply_attributes. lia.
Qed.

Lemma progresses_apply_loop : forall fuel s,
  length (a_journal s) - a_idx s <= fuel ->
  progresses 0 s (apply_loop fuel s).
Proof.
  induction fuel as [|fuel IH]; intros s Hf; cbn [apply_loop];
    destruct (Nat.ltb_spec (a_idx s) (length (a_journal s))) as [Hlt|Hge];
    try (cbn; try done; split; (done || lia)); [lia|].
  apply (progresses_bind _ 1 0); [lia|apply progresses_apply_entry|].
  intros _ s1 Hj1 Hi1. apply IH. rewrite Hj1. lia.
Qed.

(** X9.  The applier returns on every journal, well-formed or not:
    every turn of either of its loops moves the index forward, so it
    never needs more turns than the journal has entries.  It either
    finishes, and then the journal is cleared, or throws, and then the
    journal is left as it was. *)
Theorem applyJournal_terminates (journal : list JsAny) (h : T) :
  (exists h' idx,
      vnode_applyJournal journal h = Ok tt (mkApplyState h' [] idx)
      /\ length journal <= idx)
  \/ (exists e h' idx,
         vnode_applyJournal journal h = Throw e (mkApplyState h' journal idx)).
Proof.
  unfold vnode_applyJournal, bind.
  pose proof (progresses_apply_loop (length journal)
                (mkApplyState h journal 0)) as H.
  cbn [a_journal a_idx] in H. specialize (H ltac:(lia)).
  destruct (apply_loop _ _) as [[] s|e s|s] eqn:E; cbn in H; [| |done].
  - left. exists (a_heap s), (a_idx s). split; [done|].
    clear H.
    assert (Hdone : forall fuel s0 s1,
               apply_loop fuel s0 = Ok tt s1 ->
               length (a_journal s1) <= a_idx s1
               /\ a_journal s1 = a_journal s0).
    { induction fuel as [|fuel IH]; intros s0 s1; cbn [apply_loop];
        destruct (Nat.ltb_spec (a_idx s0) (length (a_journal s0)));
        try done; try (intros [= <-]; done).
      unfold bind.
      pose proof (progresses_apply_entry s0) as Hp.
      destruct (apply_entry _ s0) as [[] s2|e s2|s2]; try done.
      cbn in Hp. destruct Hp as [Hj _]. intros H1.
      apply IH in H1 as [? ?]. split; [done|congruence]. }
    apply Hdone in E as [Hlen Hj]. cbn in Hj. rewrite Hj in Hlen. done.
  - right. rename H into Hj. cbn in Hj.
    exists e, (a_heap s), (a_idx s). destruct s. cbn in *. by subst.
Qed.
End ApplierTotal.

Section ApplierAssert.
Context {T : Type} `{api : VNodeApi T}.

(** X10.  Where the applier expects an opcode and finds a VNode,
    [null] or any other entry that is neither a number nor a string,
    it fails the assertion on the opcode: the operations in front of
    that entry have been applied, nothing behind it is, and the
    journal is not cleared. *)
Theorem non_number_opcode_fails_assertion ops e tail (h : T) :
  not_a_number e ->
  not_string_head (e :: tail) ->
  vnode_applyJournal (encode ops ++ e :: tail) h
  = Throw (ErrAssert "Expecting opCode to be a number.")
      (mkApplyState (foldl apply_op h ops) (encode ops ++ e :: tail)
         (S (length (encode ops)))).
Proof.
  intros Hn Hs. unfold vnode_applyJournal, bind.
  pose proof (apply_loop_ops ops (length (encode ops ++ e :: tail)) []
                (e :: tail) h) as Hloop.
  cbn [app length Nat.add] in Hloop.
  assert (Hlen : length ops <= length (encode ops)).
  { clear. induction ops as [|op ops IH]; [done|].
    cbn [encode flat_map length]. fold (encode ops). rewrite length_app.
    pose proof (encode_op_length_pos op). lia. }
  rewrite Hloop; [|rewrite length_app; cbn [length]; lia|done].
  rewrite length_app. cbn [length].
  replace (length (encode ops) + S (length tail) - length ops)
    with (S (length (encode ops) + length tail - length ops)) by lia.
  cbn [apply_loop a_idx a_journal].
  replace (Nat.ltb (length (encode ops))
             (length (encode ops ++ e :: tail))) with true
    by (symmetry; apply Nat.ltb_lt; rewrite length_app; cbn [length]; lia).
  unfold bind, apply_entry, bind, next_entry. cbn [a_journal a_idx a_heap].
  rewrite lookup_pre_0.
  destruct e as [[[]| |]|]; done.
Qed.
End ApplierAssert.

Lemma non_number_opcode_fails_assertion_witness :
  vnode_applyJournal (encode [OpRemove 1 2] ++ [ENode 3]) div_three
  = Throw (ErrAssert "Expecting opCode to be a number.")
      (mkApplyState (SpecTree.remove div_three 1 2 true)
         (encode [OpRemove 1 2] ++ [ENode 3]) 4).
Proof.
  exact (non_number_opcode_fails_assertion [OpRemove 1 2] (ENode 3) []
           div_three I I).
Defined.

(** ** Components and virtual nodes *)

Section Hosts.
Context {T : Type} `{api : VNodeApi T}.
Implicit Type st : DiffState T.

(** X11.  The host of a component is the node at the cursor, or the
    new node if the cursor is past the last child.  If the host does
    not store the render function of the descriptor (another [$hash$],
    or none), the function is stored on it and the component is
    expanded -- exactly one pair is enqueued -- without the stored
    props being compared at all: a host without props is no error
    then.  If it does store that render function but no props
    ([null] or [undefined]), comparing the props throws a TypeError
    and nothing is enqueued or written. *)
Theorem component_host_edge_cases st q host type props key children attrs :
  host_of st = Some host ->
  jsxValue (jc st) = JNode type props key children attrs ->
  (hash_of (vnode_getProp (heap st) host OnRenderProp (Some getObjectById))
     <> Some (qrl_hash q) ->
   exists jsx h,
     executeComponent2
       (vnode_setProp (heap st) host OnRenderProp (VQrl (qrl_hash q)))
       host q props = (jsx, h)
     /\ expectComponent q st
        = Ok tt (set_asyncQueue (asyncQueue st ++ [(jsx, host)])
                   (set_heap h st)))
  /\ (hash_of (vnode_getProp (heap st) host OnRenderProp (Some getObjectById))
        = Some (qrl_hash q) ->
      is_nullish (vnode_getProp (heap st) host ELEMENT_PROPS
                    (Some getObjectById)) = true ->
      expectComponent q st
      = Throw (ErrTypeError "Cannot convert undefined or null to object") st).
Proof.
  intros Hh Hj.
  assert (Hhost : forall (X : Type) (f : VNodeId -> X) (g : X),
             match vCurrent (vc st), vNewNode (vc st) with
             | None, None => g
             | Some host, _ | None, Some host => f host
             end = f host).
  { intros X f g. unfold host_of in Hh.
    destruct (vCurrent (vc st)), (vNewNode (vc st)); by simplify_eq. }
  split.
  - intros Hne. unfold expectComponent. rewrite Hhost.
    rewrite bool_decide_false by congruence. cbn [negb].
    simpl_state. rewrite Hj.
    destruct (executeComponent2 _ _ _ _) as [jsx h].
    by exists jsx, h.
  - intros He Hnull. unfold expectComponent. rewrite Hhost.
    rewrite bool_decide_true by congruence. cbn [negb]. rewrite Hj.
    destruct (vnode_getProp (heap st) host ELEMENT_PROPS _) as [[]| |];
      done.
Qed.

(** X12.  An element descriptor that meets the element it describes
    changes nothing: if the node at the cursor has the tag and the key
    of the descriptor and already holds its attributes, [expectElement]
    pushes no entry and moves no cursor; it only inflates the
    element. *)
Theorem matching_element_is_left_alone fuel st c tag props key attrs
    (l : Attrs) :
  vCurrent (vc st) = Some c ->
  vNewNode (vc st) = None ->
  vnode_isElementVNode (heap st) c = true ->
  vnode_getElementName (heap st) c = tag ->
  key_loose_eq (key_of_option key)
    (vnode_getProp (heap st) c ELEMENT_KEY None) = true ->
  default [] (jsx_attrs props key attrs) = flat_attrs l ->
  vnode_attrs (vnode_ensureElementInflated (heap st) c) c = flat_attrs l ->
  length l <= fuel ->
  expectElement fuel props key attrs tag st
  = Ok tt (set_heap (vnode_ensureElementInflated (heap st) c) st).
Proof.
  intros Hc Hn He Ht Hk Ha Hd Hf. unfold expectElement.
  rewrite Hc, He, Ht, String.eqb_refl. cbn [andb]. rewrite Hk.
  unfold reconcile_element, bind, ret, reconcile_attributes.
  rewrite Hn, Hc, Ha. by apply setBulkProps_unchanged.
Qed.

(** X13.  [expectVirtual] reuses a virtual node at the cursor, and
    otherwise creates one and pushes its Insert in front of the cursor
    (at the end if the cursor is past the last child).  The place does
    not depend on the side table of a keyed search: [getInsertBefore]
    is only called once [vNewNode] is set, and then returns the
    cursor. *)
Theorem virtual_goes_in_front_of_cursor st :
  (forall c, vCurrent (vc st) = Some c ->
             vnode_isVirtualVNode (heap st) c = true ->
             expectVirtual st = Ok tt st)
  /\ ((forall c, vCurrent (vc st) = Some c ->
                 vnode_isVirtualVNode (heap st) c = false) ->
      exists n h,
        vnode_newVirtual (heap st) (vParent (vc st)) = (n, h)
        /\ expectVirtual st
           = Ok tt (journal_push
                      (encode [OpInsert (vParent (vc st)) n
                                 (vCurrent (vc st))])
                      (set_vNewNode (Some n) (set_heap h st)))).
Proof.
  split.
  - intros c Hc Hv. unfold expectVirtual. by rewrite Hc, Hv.
  - intros Hv. unfold expectVirtual.
    destruct (vnode_newVirtual _ _) as [n h] eqn:E. exists n, h.
    split; [done|].
    destruct (vCurrent (vc st)) as [c|] eqn:Hc.
    + rewrite (Hv c eq_refl). unfold getInsertBefore. simpl_state.
      rewrite Hc. reflexivity.
    + reflexivity.
Qed.
End Hosts.

(** The hypotheses of X11 hold of a host that has rendered nothing,
    which gets the render function and one expansion, and of a host
    that stores the render function but no props, where the
    comparison throws. *)
Lemma component_host_edge_cases_witness :
  (let st := at_child fresh_host 0 (Some 1) (component (props_x 1)) in
   exists jsx h,
     executeComponent2
       (vnode_setProp (heap st) 1 OnRenderProp (VQrl (qrl_hash the_qrl)))
       1 the_qrl (props_x 1) = (jsx, h)
     /\ expectComponent the_qrl st
        = Ok tt (set_asyncQueue (asyncQueue st ++ [(jsx, 1)])
                   (set_heap h st)))
  /\ (let st := at_child host_without_props 0 (Some 1)
                  (component (props_x 1)) in
      expectComponent the_qrl st
      = Throw (ErrTypeError "Cannot convert undefined or null to object") st).
Proof.
  split; intros st.
  - assert (Hh : host_of st = Some 1) by reflexivity.
    assert (Hj : jsxValue (jc st)
                 = JNode (TComponent the_qrl) (props_x 1) None JUndefined None)
      by reflexivity.
    apply (proj1 (component_host_edge_cases st the_qrl 1 _ _ _ _ _ Hh Hj)).
    vm_compute. discriminate.
  - assert (Hh : host_of st = Some 1) by reflexivity.
    assert (Hj : jsxValue (jc st)
                 = JNode (TComponent the_qrl) (props_x 1) None JUndefined None)
      by reflexivity.
    apply (proj2 (component_host_edge_cases st the_qrl 1 _ _ _ _ _ Hh Hj));
      reflexivity.
Defined.

Lemma matching_element_is_left_alone_witness :
  let st := at_child list_abc 1 (Some 2) (li "A") in
  expectElement 1 ∅ (Some "A") None "li" st
  = Ok tt (set_heap (vnode_ensureElementInflated (heap st) 2) st).
Proof.
  intros st.
  apply (matching_element_is_left_alone 1 st 2 "li" ∅ (Some "A") None
           [("q:key", str "A")]).
  - reflexivity.
  - reflexivity.
  - reflexivity.
  - reflexivity.
  - reflexivity.
  - vm_compute. reflexivity.
  - reflexivity.
  - cbn. lia.
Defined.

(** The hypotheses of X13 hold of a fragment descriptor that meets a
    virtual node, which is reused; that meets a span, in front of
    which the new node goes; that meets li A after a keyed search has
    left a side table, where the new node goes in front of li A all
    the same; and that meets no node, where it goes at the end. *)
Lemma virtual_goes_in_front_of_cursor_witness :
  (let st := at_child texts_ab 0 (Some 1) fragment_b in
   expectVirtual st = Ok tt st)
  /\ (let st := at_child fragment_span 1 (Some 2) fragment_no_child in
      exists n h,
        vnode_newVirtual (heap st) 1 = (n, h)
        /\ expectVirtual st
           = Ok tt (journal_push (encode [OpInsert 1 n (Some 2)])
                      (set_vNewNode (Some n) (set_heap h st))))
  /\ (let st := after_element
                  (after_turn
                     (at_child list_a_spans 0 (Some 1) ul_div_fragment)) in
      vSiblings (vc st) = Some (flat_sibs [(str "A", 2); (VAtom ANull, 4)])
      /\ exists n h,
           vnode_newVirtual (heap st) 1 = (n, h)
           /\ expectVirtual st
              = Ok tt (journal_push (encode [OpInsert 1 n (Some 2)])
                         (set_vNewNode (Some n) (set_heap h st))))
  /\ (let st := at_child empty_root 0 None fragment_no_child in
      exists n h,
        vnode_newVirtual (heap st) 0 = (n, h)
        /\ expectVirtual st
           = Ok tt (journal_push (encode [OpInsert 0 n None])
                      (set_vNewNode (Some n) (set_heap h st)))).
Proof.
  split; [|split; [|split]]; intros st.
  - apply (proj1 (virtual_goes_in_front_of_cursor st) 1); reflexivity.
  - apply (proj2 (virtual_goes_in_front_of_cursor st)).
    intros c [= <-]. reflexivity.
  - split; [reflexivity|].
    apply (proj2 (virtual_goes_in_front_of_cursor st)).
    intros c [= <-]. reflexivity.
  - apply (proj2 (virtual_goes_in_front_of_cursor st)).
    intros c [=].
Defined.

(** ** Runs of the loops, turn by turn *)

Section Turns.
Context {T : Type} `{api : VNodeApi T}.
Implicit Type st : DiffState T.

Lemma element_turn fuel st tag props key children attrs st1 st2 st3 :
  vCurrent (vc st) <> Some (vParent (vc st)) ->
  jsxValue (jc st) = JNode (TTag tag) props key children attrs ->
  expectNoMoreTextNodes fuel st = Ok tt st1 ->
  expectElement fuel props key attrs tag st1 = Ok tt st2 ->
  descend children true st2 = Ok tt st3 ->
  diff_body fuel st = Ok tt st3.
Proof.
  intros Hpc Hj E1 E2 E3. unfold diff_body, bind.
  rewrite (assert_ok _ Hpc), Hj. by rewrite E1, E2, E3.
Qed.

Lemma reconcile_attributes_unchanged fuel st n src (attrs : Attrs) :
  match vNewNode (vc st) with Some x => Some x | None => vCurrent (vc st) end
    = Some n ->
  src = flat_attrs attrs ->
  vnode_attrs (vnode_ensureElementInflated (heap st) n) n = flat_attrs attrs ->
  length attrs <= fuel ->
  reconcile_attributes fuel src st
  = Ok tt (set_heap (vnode_ensureElementInflated (heap st) n) st).
Proof.
  intros Hn -> Hattrs Hf. unfold reconcile_attributes.
  pose proof (setBulkProps_unchanged fuel n st attrs Hattrs Hf) as E.
  destruct (vNewNode (vc st)), (vCurrent (vc st)); by simplify_eq.
Qed.

Lemma expectElement_matched fuel props key attrs tag st c :
  vCurrent (vc st) = Some c ->
  vnode_isElementVNode (heap st) c
    && String.eqb tag (vnode_getElementName (heap st) c) = true ->
  key_loose_eq (key_of_option key)
    (vnode_getProp (heap st) c ELEMENT_KEY None) = true ->
  expectElement fuel props key attrs tag st
  = reconcile_attributes fuel (default [] (jsx_attrs props key attrs)) st.
Proof.
  intros Hc Ht Hk. unfold expectElement. rewrite Hc, Ht, Hk. done.
Qed.

Lemma expectElement_moved fuel props k attrs tag st c n st1 :
  vCurrent (vc st) = Some c ->
  vnode_isElementVNode (heap st) c
    && String.eqb tag (vnode_getElementName (heap st) c) = true ->
  key_loose_eq (KStr k) (vnode_getProp (heap st) c ELEMENT_KEY None) = false ->
  retrieveChildWithKey fuel (KStr k) st = Ok (Some n) st1 ->
  expectElement fuel props (Some k) attrs tag st
  = reconcile_attributes fuel (default [] (jsx_attrs props (Some k) attrs))
      (journal_push [EOp Move; ENode (vParent (vc st1)); ENode n;
                     ENodeOrNull (vCurrent (vc st1))]
         (set_vNewNode (Some n) st1)).
Proof.
  intros Hc Ht Hk Hr. unfold expectElement. rewrite Hc, Ht. cbn [key_of_option].
  rewrite Hk. cbn [andb]. unfold reconcile_element, bind. by rewrite Hr.
Qed.


End Turns.


(** ** Reordering a keyed list *)

(** X15.  Whatever the tags and the keys are, as long as the key [c]
    of the last child is none of the two in front of it: diffing the
    children keyed [a], [b], [c] of a list against the same items in
    the order [c], [a], [b] pushes the one operation "move the last
    child in front of the first" and creates no node; applying it
    leaves the same three nodes under the list, in the new order, each
    with the tag, key and attributes it had. *)
Theorem keyed_rotation_moves_last_child ptag tag a b c :
  c <> a -> c <> b ->
  exists st,
    vnode_diff 10 (container_of (keyed_list ptag tag a b c))
      (list_of ptag tag c a b) 0 = Ok tt st
    /\ journal st = encode [OpMove 1 4 (Some 2)]
    /\ SpecTree.nodes (heap st) = SpecTree.nodes (keyed_list ptag tag a b c)
    /\ SpecTree.children_of (applied st) 1 = [4; 2; 3]
    /\ (forall v, v ∈ [2; 3; 4] ->
          SpecTree.get (applied st) v
          = SpecTree.get (keyed_list ptag tag a b c) v).
Proof.
  intros Hca Hcb.
  apply String.eqb_neq in Hca, Hcb.
  pose proof (String.eqb_refl tag) as Ht.
  pose proof (String.eqb_refl ptag) as Hp.
  pose proof (String.eqb_refl a) as Ha.
  pose proof (String.eqb_refl b) as Hb.
  pose proof (String.eqb_refl c) as Hc.
  vm_compute in Hca, Hcb, Ht, Hp, Ha, Hb, Hc.
  eexists. split.
  - unfold vnode_diff, bind, diff.
    (* the list element *)
    erewrite diff_outer_turn; cycle 1.
    { vm_compute; discriminate. }
    { erewrite diff_inner_turn; cycle 1.
      { vm_compute; reflexivity. }
      { eapply element_turn.
        - vm_compute; discriminate.
        - vm_compute; reflexivity.
        - side ltac:(idtac).
        - eapply eq_trans.
          + eapply expectElement_matched;
              [vm_compute; reflexivity|side ltac:(rewrite ?Hp)..].
          + erewrite (reconcile_attributes_unchanged _ _ _ _ []);
              [reflexivity|vm_compute; reflexivity..|cbn [length]; lia].
        - side ltac:(idtac). }
      (* the item keyed [c]: found behind the cursor *)
      erewrite diff_inner_turn; cycle 1.
      { vm_compute; reflexivity. }
      { eapply element_turn.
        - vm_compute; discriminate.
        - vm_compute; reflexivity.
        - side ltac:(idtac).
        - eapply eq_trans.
          + eapply expectElement_moved;
              [vm_compute; reflexivity
              |side ltac:(rewrite ?Ht, ?Hca, ?Hcb, ?Hc)..].
          + erewrite (reconcile_attributes_unchanged _ _ _ _
                        [("q:key", VAtom (AStr c))]);
              [reflexivity|vm_compute; reflexivity..|cbn [length]; lia].
        - side ltac:(idtac). }
      apply diff_inner_done; vm_compute; reflexivity. }
    { side ltac:(idtac). }
    { side ltac:(idtac). }
    (* the item keyed [a]: at the cursor *)
    erewrite diff_outer_turn; cycle 1.
    { vm_compute; discriminate. }
    { erewrite diff_inner_turn; cycle 1.
      { vm_compute; reflexivity. }
      { eapply element_turn.
        - vm_compute; discriminate.
        - vm_compute; reflexivity.
        - side ltac:(idtac).
        - eapply eq_trans.
          + eapply expectElement_matched;
              [vm_compute; reflexivity|side ltac:(rewrite ?Ht, ?Ha)..].
          + erewrite (reconcile_attributes_unchanged _ _ _ _
                        [("q:key", VAtom (AStr a))]);
              [reflexivity|vm_compute; reflexivity..|cbn [length]; lia].
        - side ltac:(idtac). }
      apply diff_inner_done; vm_compute; reflexivity. }
    { side ltac:(idtac). }
    { side ltac:(idtac). }
    (* the item keyed [b]: next in the side table *)
    erewrite diff_outer_turn; cycle 1.
    { vm_compute; discriminate. }
    { erewrite diff_inner_turn; cycle 1.
      { vm_compute; reflexivity. }
      { eapply element_turn.
        - vm_compute; discriminate.
        - vm_compute; reflexivity.
        - side ltac:(idtac).
        - eapply eq_trans.
          + eapply expectElement_matched;
              [vm_compute; reflexivity|side ltac:(rewrite ?Ht, ?Hb)..].
          + erewrite (reconcile_attributes_unchanged _ _ _ _
                        [("q:key", VAtom (AStr b))]);
              [reflexivity|vm_compute; reflexivity..|cbn [length]; lia].
        - side ltac:(idtac). }
      apply diff_inner_done; vm_compute; reflexivity. }
    { side ltac:(idtac). }
    { side ltac:(idtac). }
    (* the frames that are left end without a descriptor *)
    vm_compute. reflexivity.
  - split; [reflexivity|]. split; [reflexivity|].
    split; [vm_compute; reflexivity|].
    intros v Hv.
    repeat (apply elem_of_cons in Hv as [->|Hv]; [vm_compute; reflexivity|]).
    by apply elem_of_nil in Hv.
Qed.

Lemma keyed_rotation_moves_last_child_witness :
  exists st,
    vnode_diff 10 (container_of (keyed_list "ul" "li" "A" "B" "C"))
      (list_of "ul" "li" "C" "A" "B") 0 = Ok tt st
    /\ journal st = encode [OpMove 1 4 (Some 2)]
    /\ SpecTree.nodes (heap st)
       = SpecTree.nodes (keyed_list "ul" "li" "A" "B" "C")
    /\ SpecTree.children_of (applied st) 1 = [4; 2; 3]
    /\ (forall v, v ∈ [2; 3; 4] ->
          SpecTree.get (applied st) v
          = SpecTree.get (keyed_list "ul" "li" "A" "B" "C") v).
Proof.
  apply (keyed_rotation_moves_last_child "ul" "li" "A" "B" "C");
    discriminate.
Defined.

(** ** The attributes of a new element *)

Lemma setBulkProps_loop_fresh vnode fuel :
  forall srem spre j (hd : bool) pd,
  length srem <= fuel ->
  setBulkProps_loop fuel vnode (flat_attrs (spre ++ srem)) []
    (bulk_at j hd spre srem [] [] pd)
  = Ok tt (bulk_at (j ++ block vnode hd srem) (hd || nonempty srem)
             (spre ++ srem) [] [] []
             (pd || existsb isEventKey srem.*1)).
Proof.
  induction fuel as [|fuel IH]; intros srem spre j hd pd Hf.
  - destruct srem; cbn [length] in Hf; [|lia].
    cbn. by rewrite !app_nil_r, !orb_false_r, block_nil, app_nil_r.
  - destruct srem as [|[sk sv] srem].
    + cbn. by rewrite !app_nil_r, !orb_false_r, block_nil, app_nil_r.
    + cbn [setBulkProps_loop bulk_at srcKey dstKey head_key head fmap
           option_fmap option_map fst].
      set (b1 := if isEventKey sk then _ else _).
      assert (Hb1 : b1 = mkBulk j hd (pos_after spre ((sk, sv) :: srem))
                           (pos_after [] []) (Some sk) None
                           (pd || isEventKey sk)).
      { subst b1. destruct (isEventKey sk); unfold set_patch; cbn;
          by rewrite ?orb_true_r, ?orb_false_r. }
      rewrite Hb1. clear b1 Hb1.
      unfold record. cbn [b_journal hasDiffs srcIdx dstIdx srcKey dstKey
                           patchEventDispatch].
      rewrite read_value_at, next_src_at.
      pose proof (IH srem (spre ++ [(sk, sv)])
                    ((if hd then j else j ++ [EOp Attributes; ENode vnode])
                       ++ [EStr sk; EVal sv]) true (pd || isEventKey sk)) as E.
      unfold bulk_at in E. cbn [head_key head fmap option_fmap option_map] in E.
      rewrite <- !app_assoc in E. cbn [app orb] in E.
      etrans; [apply E; cbn [length] in Hf; lia|].
      unfold bulk_at. cbn [nonempty fmap list_fmap fst existsb].
      rewrite orb_true_r, orb_assoc.
      f_equal. f_equal.
      apply (record_block vnode j hd sk sv).
Qed.

Section Fresh.
Context {T : Type} `{api : VNodeApi T}.
Implicit Type st : DiffState T.

(** X16.  On an element without attributes -- a new one -- every
    pair of the descriptor is recorded, in order, in one Attributes
    run (none if there is no pair).  If one of the keys is shaped like
    a handler ([on...$]) the DOM node of the element gets the
    [qDispatchEvent] adapter, unless it has one; otherwise the tree is
    only inflated. *)
Theorem new_element_records_every_attribute fuel vnode st (src : Attrs) :
  vnode_attrs (vnode_ensureElementInflated (heap st) vnode) vnode = [] ->
  length src <= fuel ->
  let h := vnode_ensureElementInflated (heap st) vnode in
  let element := vnode_getNode h vnode in
  setBulkProps fuel vnode (flat_attrs src) st
  = Ok tt (set_heap
             (if existsb isEventKey src.*1
                 && negb (elem_qDispatchEvent h element)
              then elem_set_qDispatchEvent h element vnode else h)
             (journal_push (attr_block vnode src) st)).
Proof.
  intros Hattrs Hf h element. subst h element.
  unfold setBulkProps. rewrite Hattrs.
  pose proof (read_key_flat [] src) as Hr.
  cbn [app length Nat.mul Nat.add] in Hr. rewrite Hr.
  replace (read_key [] 0)
    with (head_key (@nil (string * Value)),
          pos_after (@nil (string * Value)) []) by reflexivity.
  pose proof (setBulkProps_loop_fresh vnode fuel src [] (journal st)
                false false Hf) as E.
  unfold bulk_at in E. cbn [app] in E. rewrite E.
  cbn [patchEventDispatch b_journal orb block]. simpl_state.
  destruct st as [? ? ? ? ? ?]. unfold journal_push. simpl_state.
  destruct (existsb isEventKey src.*1); cbn [andb]; [|done].
  by destruct (negb _).
Qed.
End Fresh.

Lemma new_element_records_every_attribute_witness :
  let st := at_child empty_div_tree 0 (Some 1) div_acd in
  let h := vnode_ensureElementInflated (heap st) 1 in
  setBulkProps 3 1 (flat_attrs attrs_acd) st
  = Ok tt (set_heap
             (if existsb isEventKey attrs_acd.*1
                 && negb (elem_qDispatchEvent h (vnode_getNode h 1))
              then elem_set_qDispatchEvent h (vnode_getNode h 1) 1 else h)
             (journal_push (attr_block 1 attrs_acd) st)).
Proof.
  intros st h.
  apply (new_element_records_every_attribute 3 1 st attrs_acd).
  - reflexivity.
  - cbn. lia.
Defined.

(** ** Rendering into a tree without children *)

Lemma search_siblings_nil fuel key : forall idx,
  search_siblings fuel key [] idx = (None, []).
Proof.
  induction fuel as [|fuel IH]; intros idx; cbn [search_siblings]; [done|].
  destruct (idx <? Z.of_nat (length (@nil JsAny)))%Z; [|done].
  destruct (slot_matches key _); [|apply IH].
  rewrite take_nil, drop_nil. unfold arr_get.
  destruct (idx + 1 <? 0)%Z; by rewrite ?lookup_nil.
Qed.

Section FirstRender.
Context {T : Type} `{api : VNodeApi T}.
Implicit Type st : DiffState T.

(** [R] relates a tree to what the writes of a pass make of it, as in
    the section on what a pass does to the tree; [Inv] is a property
    of trees that [R] carries over and under which no node has a
    child. *)
Variable R : T -> T -> Prop.
Variable Inv : T -> Prop.
Hypothesis R_refl : forall t, R t t.
Hypothesis R_trans : forall a b c, R a b -> R b c -> R a c.
Hypothesis R_createElement :
  forall t tag, R t (document_createElement t tag).2.
Hypothesis R_createTextNode :
  forall t text, R t (document_createTextNode t text).2.
Hypothesis R_newElement : forall t p d tag, R t (vnode_newElement t p d tag).2.
Hypothesis R_newText : forall t p d text, R t (vnode_newText t p d text).2.
Hypothesis R_newVirtual : forall t p, R t (vnode_newVirtual t p).2.
Hypothesis R_inflate : forall t v, R t (vnode_ensureElementInflated t v).
Hypothesis R_setRender : forall t v x, R t (vnode_setProp t v OnRenderProp x).
Hypothesis R_execute : forall t h q p, R t (executeComponent2 t h q p).2.
Hypothesis R_dispatch : forall t d v, R t (elem_set_qDispatchEvent t d v).
Hypothesis R_Inv : forall t t', R t t' -> Inv t -> Inv t'.
Hypothesis Inv_leaf : forall t p, Inv t -> vnode_getFirstChild t p = None.

Lemma appends_bind {A B} (m : M (DiffState T) A) (k : A -> M (DiffState T) B) :
  keeps R m -> appends Inv m -> (forall a, appends Inv (k a)) ->
  appends Inv (bind m k).
Proof.
  intros Hkeep Hm Hk st Hi He. unfold bind.
  destruct (Hm st Hi He) as (He1 & ops1 & E1 & Ho1).
  pose proof (R_Inv _ _ (Hkeep st) Hi) as Hi1.
  destruct (m st) as [a s'|e s'|s']; cbn in *; [|by eauto..].
  destruct (Hk a s' Hi1 He1) as (He2 & ops2 & E2 & Ho2).
  split; [done|]. exists (ops1 ++ ops2).
  split; [by rewrite E2, E1, encode_app, app_assoc|by apply Forall_app].
Qed.

(** A step that, with the cursor at the end, keeps the stack and pushes
    operations that only add. *)
Lemma appends_push {A} (m : M (DiffState T) A) :
  (forall st, at_end st ->
     let st' := outcome_state (m st) in
     cursor_at_end (vc st') /\ stack st' = stack st
     /\ exists ops, journal st' = journal st ++ encode ops
                    /\ Forall only_new ops) ->
  appends Inv m.
Proof.
  intros H st _ He. destruct (H st He) as (Hc & Hs & ops & E & Ho).
  split; [|by eauto]. split; [done|]. rewrite Hs. apply He.
Qed.

Lemma appends_quiet {A} (m : M (DiffState T) A) :
  (forall st, at_end st ->
     let st' := outcome_state (m st) in
     vc st' = vc st /\ stack st' = stack st /\ journal st' = journal st) ->
  appends Inv m.
Proof.
  intros H. apply appends_push. intros st He.
  destruct (H st He) as (Hv & Hs & Hj). cbv zeta. rewrite Hv, Hs, Hj.
  split; [apply He|]. split; [done|]. exists []. by rewrite app_nil_r.
Qed.

Lemma appends_assert : appends Inv assert_parent_not_current.
Proof.
  apply appends_quiet. intros st _. unfold assert_parent_not_current.
  by case_bool_decide.
Qed.

Lemma appends_expectNoMore : appends Inv expectNoMore.
Proof.
  apply appends_quiet. intros st [[Hc _] _].
  unfold expectNoMore, bind, assert_parent_not_current.
  case_bool_decide; [done|]. by rewrite Hc.
Qed.

Lemma appends_expectNoMoreTextNodes fuel :
  appends Inv (expectNoMoreTextNodes fuel).
Proof.
  apply appends_quiet. intros st [[Hc _] _].
  destruct fuel; cbn [expectNoMoreTextNodes]; by rewrite Hc.
Qed.

Lemma appends_expectText text : appends Inv (expectText text).
Proof.
  apply appends_push. intros st [[Hc Hs] _]. unfold expectText. rewrite Hc.
  destruct (document_createTextNode _ _) as [dom h].
  destruct (vnode_newText _ _ _ _) as [n h']. cbv zeta. simpl_state.
  split; [by split|]. split; [done|].
  exists [OpInsert (vParent (vc st)) n None]. split; [|by repeat constructor].
  reflexivity.
Qed.

Lemma appends_expectVirtual : appends Inv expectVirtual.
Proof.
  apply appends_push. intros st [[Hc Hs] _]. unfold expectVirtual. rewrite Hc.
  destruct (vnode_newVirtual _ _) as [n h]. cbv zeta.
  destruct st as [h0 j0 s0 q0 jc0 [p0 c0 n0 sibs0 i0]]. simpl_state. subst.
  split; [done|]. split; [done|].
  exists [OpInsert p0 n None]. split; [|by repeat constructor].
  reflexivity.
Qed.

Lemma appends_expectComponent q : appends Inv (expectComponent q).
Proof.
  apply appends_quiet. intros st _. unfold expectComponent.
  assert (Hhost : forall host,
    let st' := outcome_state
         (let vNodeQrl := vnode_getProp (heap st) host OnRenderProp
                            (Some getObjectById) in
          let hashDiffers :=
            negb (bool_decide (Some (qrl_hash q) = hash_of vNodeQrl)) in
          let st0 := if hashDiffers
                     then set_heap (vnode_setProp (heap st) host OnRenderProp
                                      (VQrl (qrl_hash q))) st
                     else st in
          let vNodeProps := vnode_getProp (heap st0) host ELEMENT_PROPS
                              (Some getObjectById) in
          let jsxProps := match jsxValue (jc st0) with
                          | JNode _ props _ _ _ => props
                          | _ => ∅
                          end in
          let render (st : DiffState T) :=
            let '(jsx, h) := executeComponent2 (heap st) host q jsxProps in
            Ok tt (set_asyncQueue (asyncQueue st ++ [(jsx, host)])
                     (set_heap h st)) in
          if hashDiffers then render st0
          else
            match props_differ jsxProps vNodeProps with
            | inl e => Throw e st0
            | inr true => render st0
            | inr false => Ok tt st0
            end) in
    vc st' = vc st /\ stack st' = stack st /\ journal st' = journal st).
  { intros host. cbv zeta.
    destruct (negb _); simpl_state;
      [|destruct (props_differ _ _) as [e|[]]; try done];
      by destruct (executeComponent2 _ _ _ _). }
  destruct (vCurrent (vc st)) as [host|]; [apply Hhost|].
  destruct (vNewNode (vc st)) as [host|]; [apply Hhost|done].
Qed.

Lemma at_end_advance_cursor st :
  cursor_at_end (vc st) -> cursor_at_end (vc (advance_cursor st)).
Proof.
  assert (Hnone : forall i,
            (if (i <? Z.of_nat (length (@nil JsAny)))%Z
             then match arr_get (@nil JsAny) (i + 1) with
                  | Some (ENode n) => Some n
                  | _ => None
                  end
             else None) = None).
  { intros i. destruct (i <? _)%Z; [|done]. unfold arr_get.
    destruct (i + 1 <? 0)%Z; by rewrite ?lookup_nil. }
  destruct st as [h j s q jcx [p c n sibs i]].
  unfold cursor_at_end, advance_cursor. simpl_state.
  intros [-> Hs]. destruct n; simpl_state; [done|].
  destruct Hs as [->| ->]; simpl_state; [auto|].
  rewrite Hnone. auto.
Qed.

Lemma at_end_advance_on stk : forall st,
  cursor_at_end (vc st) -> Forall frame_at_end stk ->
  at_end (outcome_state (advance_on stk st)).
Proof.
  assert (Hstep : forall (s : DiffState T) k,
            cursor_at_end (vc s) -> Forall frame_at_end k ->
            at_end (advance_cursor (set_stack k s))).
  { intros s k Hc Hk. split.
    - by apply at_end_advance_cursor.
    - unfold advance_cursor.
      repeat match goal with |- context [match ?x with _ => _ end] =>
               destruct x end; exact Hk. }
  induction stk as [|f stk IH]; intros st Hc Hs; cbn [advance_on].
  - destruct (Nat.ltb _ _); [destruct (jsxChildren _)|]; cbn [outcome_state];
      try (by apply Hstep). by split.
  - destruct (Nat.ltb _ _).
    + destruct (jsxChildren _); cbn [outcome_state]; [by apply Hstep|by split].
    + inversion Hs; subst. destruct f as [j|j v].
      * by apply IH.
      * by apply Hstep.
Qed.

Lemma appends_advance : appends Inv advance.
Proof.
  intros st _ [Hc Hs]. split.
  - by apply at_end_advance_on.
  - exists []. rewrite app_nil_r. split; [|constructor].
    apply (advance_on_frame (stack st) st).
Qed.

Lemma appends_ascend : appends Inv ascend.
Proof.
  intros st Hi [Hc Hs]. unfold ascend.
  destruct (stack st) as [|[j|j v] rest] eqn:E.
  - refine (appends_advance (set_jc _ st) Hi _).
    split; [done|]. simpl_state. by rewrite E.
  - inversion Hs; subst.
    refine (appends_advance (set_stack rest (set_jc j st)) Hi _). by split.
  - inversion Hs; subst.
    refine (appends_advance (set_stack rest (set_jc j (set_vc v st))) Hi _).
    by split.
Qed.

Lemma appends_descend children b : appends Inv (descend children b).
Proof.
  intros st Hi [Hc Hs].
  assert (Hp : at_end (stackPush children b st)
               /\ journal (stackPush children b st) = journal st
               /\ heap (stackPush children b st) = heap st
               /\ vc (stackPush children b st) = vc st).
  { unfold stackPush, at_end.
    destruct b, children; simpl_state;
      (split; [split; [exact Hc|]|done]);
      (constructor; [first [exact Hc|exact I]|exact Hs]). }
  destruct Hp as (Hp & Hj & Hh & Hv).
  assert (Hq : exists ops, journal (stackPush children b st)
                           = journal st ++ encode ops /\ Forall only_new ops)
    by (exists []; by rewrite app_nil_r).
  unfold descend. cbv zeta. destruct b; [|done].
  destruct (vNewNode (vc (stackPush children true st))) as [p|] eqn:En.
  - split; [|done]. split; [|apply Hp]. simpl_state.
    rewrite Inv_leaf by (by rewrite Hh). split; auto.
  - rewrite Hv in *. destruct Hc as [Hc ?]. rewrite Hc. done.
Qed.

Lemma setBulkProps_run fuel vnode srcAttrs st :
  let st' := outcome_state (setBulkProps fuel vnode srcAttrs st) in
  vc st' = vc st /\ stack st' = stack st
  /\ exists recs, journal st' = journal st ++ attr_block vnode recs.
Proof.
  unfold setBulkProps.
  destruct (read_key srcAttrs 0) as [srcK srcI], (read_key _ 0) as [dstK dstI].
  match goal with
  | |- context [setBulkProps_loop fuel vnode ?s ?d ?b] =>
      destruct (setBulkProps_loop_pushes vnode s d fuel b) as [recs E];
      destruct (setBulkProps_loop fuel vnode s d b) as [[] b'|e b'|b']
  end; cbn [outcome_state b_journal hasDiffs block] in E; cbv zeta;
    try (simpl_state; by eauto).
  destruct (patchEventDispatch b'); [destruct (negb _)|];
    simpl_state; by eauto.
Qed.

Lemma appends_reconcile_attributes fuel jsxAttrs :
  appends Inv (reconcile_attributes fuel jsxAttrs).
Proof.
  apply appends_push. intros st [Hc _]. unfold reconcile_attributes.
  assert (H : forall n,
            let st' := outcome_state (setBulkProps fuel n jsxAttrs st) in
            cursor_at_end (vc st') /\ stack st' = stack st
            /\ exists ops, journal st' = journal st ++ encode ops
                           /\ Forall only_new ops).
  { intros n. destruct (setBulkProps_run fuel n jsxAttrs st)
      as (Hv & Hs & recs & E). cbv zeta. rewrite Hv, Hs, E.
    split; [done|]. split; [done|]. rewrite attr_block_encode.
    eexists. split; [done|]. destruct recs; by repeat constructor. }
  destruct (vNewNode (vc st)) as [n|]; [apply H|].
  destruct (vCurrent (vc st)) as [n|]; [apply H|].
  cbv zeta. cbn. split; [done|]. split; [done|]. exists [].
  by rewrite app_nil_r.
Qed.

Lemma retrieveChildWithKey_at_end fuel key st :
  cursor_at_end (vc st) ->
  (exists e, retrieveChildWithKey fuel key st = Throw e st)
  \/ (exists idx,
        retrieveChildWithKey fuel key st
        = Ok None (set_vSiblingsIdx idx (set_vSiblings (Some []) st))).
Proof.
  intros [Hc Hs]. unfold retrieveChildWithKey. rewrite Hc.
  destruct (vSiblingsIdx (vc st) =? -1)%Z eqn:Ei.
  - right. exists 0%Z. by destruct fuel.
  - destruct Hs as [Hs|Hs]; rewrite Hs; [left; eauto|].
    right. exists (vSiblingsIdx (vc st)).
    rewrite search_siblings_nil.
    by destruct st as [? ? ? ? ? []].
Qed.

Lemma appends_reconcile_element fuel tag :
  appends Inv (reconcile_element fuel tag false KUndefined).
Proof.
  apply appends_push. intros st [Hc Hst]. unfold reconcile_element, bind.
  destruct (retrieveChildWithKey_at_end fuel KUndefined st Hc)
    as [[e E]|[idx E]]; rewrite E; cbv zeta.
  - cbn. split; [done|]. split; [done|]. exists []. by rewrite app_nil_r.
  - unfold insert_new_element. simpl_state.
    destruct (document_createElement _ _) as [dom h].
    destruct (vnode_newElement _ _ _ _) as [n h']. simpl_state.
    destruct Hc as [Hc Hs].
    destruct st as [h0 j0 s0 q0 jc0 [p0 c0 n0 sibs0 i0]]. simpl_state. subst.
    split; [split; auto|]. split; [done|].
    exists [OpInsert p0 n None]. split; [|by repeat constructor].
    reflexivity.
Qed.

Lemma appends_expectElement fuel props key attrs tag :
  appends Inv (expectElement fuel props key attrs tag).
Proof.
  intros st Hi He.
  assert (E : expectElement fuel props key attrs tag st
              = (reconcile_element fuel tag false KUndefined >>
                 reconcile_attributes fuel
                   (default [] (jsx_attrs props key attrs)))%diff st).
  { unfold expectElement. destruct He as [[Hc _] _]. by rewrite Hc. }
  rewrite E.
  refine (appends_bind _ _ _ _ (fun _ => appends_reconcile_attributes _ _)
            st Hi He).
  - apply keeps_reconcile_element; assumption.
  - apply appends_reconcile_element.
Qed.

Lemma appends_diff_body fuel : appends Inv (diff_body fuel).
Proof.
  unfold diff_body.
  apply appends_bind;
    [apply keeps_assert; assumption|apply appends_assert|].
  intros _ st.
  assert (Htext : forall text,
            appends Inv (expectText text >> advance)%diff).
  { intros text. apply appends_bind;
      [apply keeps_expectText; assumption|apply appends_expectText|].
    intros _. apply appends_advance. }
  destruct (jsxValue (jc st))
    as [s|n| | | | |items| |type props key children attrs| ];
    try apply Htext; try (apply appends_quiet; by intros).
  - exact (appends_descend _ _ st).
  - destruct type as [tag| | |q| ]; try (apply appends_quiet; by intros).
    + refine (appends_bind _ _ _ (appends_expectNoMoreTextNodes _) _ st);
        [apply keeps_expectNoMoreTextNodes; assumption|].
      intros _. apply appends_bind;
        [apply keeps_expectElement; assumption
        |apply appends_expectElement|].
      intros _. apply appends_descend.
    + refine (appends_bind _ _ _ (appends_expectNoMoreTextNodes _) _ st);
        [apply keeps_expectNoMoreTextNodes; assumption|].
      intros _. apply appends_bind;
        [apply keeps_expectVirtual; assumption
        |apply appends_expectVirtual|].
      intros _. apply appends_descend.
    + refine (appends_bind _ _ _ (appends_expectNoMoreTextNodes _) _ st);
        [apply keeps_expectNoMoreTextNodes; assumption|].
      intros _. apply appends_bind;
        [apply keeps_expectVirtual; assumption
        |apply appends_expectVirtual|].
      intros _. apply appends_bind;
        [apply keeps_expectComponent; assumption
        |apply appends_expectComponent|].
      intros _. apply appends_advance.
Qed.

Lemma appends_diff_inner fuel n : appends Inv (diff_inner fuel n).
Proof.
  induction n as [|n IH]; intros st; cbn [diff_inner];
    destruct (Nat.ltb _ _); try (apply appends_quiet; by intros).
  refine (appends_bind _ _ _ (appends_diff_body fuel) (fun _ => IH) st).
  apply keeps_diff_body; assumption.
Qed.

Lemma appends_diff_outer fuel n : appends Inv (diff_outer fuel n).
Proof.
  induction n as [|n IH]; intros st; cbn [diff_outer];
    destruct (stack st); try (apply appends_quiet; by intros).
  refine (appends_bind _ _ _ (appends_diff_inner fuel fuel) _ st);
    [apply keeps_diff_inner; assumption|].
  intros _. apply appends_bind;
    [apply keeps_expectNoMore; assumption|apply appends_expectNoMore|].
  intros _. apply appends_bind;
    [apply keeps_ascend; assumption|apply appends_ascend|].
  intros _. exact IH.
Qed.

Lemma appends_diff fuel jsx vStart : appends Inv (diff fuel jsx vStart).
Proof.
  intros st Hi [[Hc Hs] Hst]. unfold diff. cbv zeta.
  rewrite (Inv_leaf _ _ Hi).
  set (s0 := set_vc _ st).
  assert (H0 : at_end (stackPush jsx true s0)
               /\ journal (stackPush jsx true s0) = journal st
               /\ heap (stackPush jsx true s0) = heap st).
  { unfold stackPush, at_end, s0.
    destruct jsx; simpl_state;
      (split; [split; [by split|]|done]);
      (constructor; [by split|exact Hst]). }
  destruct H0 as (H0 & Hj & Hh).
  destruct (appends_diff_outer fuel fuel (stackPush jsx true s0))
    as (He & ops & E & Ho); [by rewrite Hh|done|].
  split; [done|]. exists ops. by rewrite E, Hj.
Qed.

Lemma appends_drainAsyncQueue fuel n : appends Inv (drainAsyncQueue fuel n).
Proof.
  induction n as [|n IH]; intros st; cbn [drainAsyncQueue];
    destruct (asyncQueue st) as [|[jsxNode host] rest];
    try (apply appends_quiet; by intros).
  destruct jsxNode as [jsx|jsx|]; intros Hi He;
    [| |split; [exact He|exists []; by rewrite app_nil_r]];
    refine (appends_bind _ _ _ (appends_diff fuel jsx host) (fun _ => IH)
              (set_asyncQueue rest st) Hi He);
    apply keeps_diff; assumption.
Qed.

Lemma vnode_diff_appends fuel container jsx vStart :
  Inv (container_heap container) ->
  exists ops,
    journal (outcome_state (vnode_diff fuel container jsx vStart))
    = container_journal container ++ encode ops
    /\ Forall only_new ops.
Proof.
  intros Hi. unfold vnode_diff.
  refine (proj2 (appends_bind _ _ _ (appends_diff fuel jsx vStart)
                   (fun _ => appends_drainAsyncQueue fuel fuel)
                   (initial_state container vStart) Hi _)).
  - apply keeps_diff; assumption.
  - split; [split; [done|by left]|constructor].
Qed.

(** X17.  Rendering into a tree in which no node has a child -- an
    empty root, say -- only ever adds.  Let [Inv] be a property of
    trees under which [vnode_getFirstChild] finds no child, and which
    the writes of a pass (creating DOM nodes and VNodes, inflating,
    storing a render function, expanding a component, attaching the
    dispatch adapter) carry over.  Then, whatever the descriptor, the
    fuel and the way the pass ends, every operation it pushes is an
    Insert at the end of its parent or a run of attributes: there is
    no Move, no Remove, no Truncate and no TextSet, and nothing is
    inserted in front of another node. *)
Theorem first_render_only_appends fuel container jsx vStart :
  Inv (container_heap container) ->
  exists ops,
    journal (outcome_state (vnode_diff fuel container jsx vStart))
    = container_journal container ++ encode ops
    /\ Forall only_new ops.
Proof. apply vnode_diff_appends. Qed.
End FirstRender.

Section Childless.
Import SpecTree.

Lemma childless_links_kept t t' :
  links_kept t t' -> childless t -> childless t'.
Proof.
  intros [Hold Hnew] Hc v n' Hv.
  destruct (nodes t !! v) as [n|] eqn:E.
  - destruct (Hold v n E) as (n2 & H2 & _ & _ & Hch).
    rewrite Hv in H2. inversion H2; subst n2.
    rewrite Hch. by apply (Hc v).
  - apply (Hnew v n' Hv). by apply lookup_ge_None.
Qed.

Lemma childless_getFirstChild t p : childless t -> getFirstChild t p = None.
Proof.
  intros Hc. unfold getFirstChild, children_of, get.
  destruct (nodes t !! p) as [n|] eqn:E; [|done].
  by rewrite (Hc p n E).
Qed.
End Childless.

Lemma first_render_only_appends_witness :
  exists ops,
    journal (outcome_state
               (vnode_diff 10 (container_of empty_root) div_with_empty_array
                  0))
    = [] ++ encode ops
    /\ Forall only_new ops.
Proof.
  apply (@first_render_only_appends SpecTree.Tree scene_api
           links_kept childless).
  - apply links_kept_refl.
  - apply links_kept_trans.
  - intros t tag. by apply links_kept_same_nodes.
  - intros t text. by apply links_kept_same_nodes.
  - intros t p d tag. by apply links_kept_alloc.
  - intros t p d text. by apply links_kept_alloc.
  - intros t p. by apply links_kept_alloc.
  - intros t v. apply links_kept_refl.
  - intros t v x. by apply links_kept_update.
  - intros t h q p. by apply links_kept_update.
  - intros t d v. by apply links_kept_same_nodes.
  - apply childless_links_kept.
  - intros t p. apply childless_getFirstChild.
  - intros v n Hv. destruct v as [|v]; cbn in Hv; [|done].
    by inversion Hv.
Defined.
